(** * XResNet: the model definition of [fastai/vision/models/xresnet.py]

    A shallow embedding of the module-assembly code and of its
    initialisation, followed by the properties the specification states
    about it and by further properties of the code: its edge cases, what
    its initialisation passes do to one another, and the heights and
    widths it accepts.

    The tensor framework is not part of the repository.  What the code
    asks of it is kept as small as the code needs:
    - a primitive layer ([nn.Conv2d], [nn.BatchNorm2d], ...) is a value
      recording the arguments it was constructed with and, for each of
      its parameter tensors, how that tensor was last filled;
    - the global random generator is a position, the number of random
      fills made so far;
    - the numerical meaning of a primitive layer, of [+=] and of [view]
      is a parameter of every [forward];
    - the contents of files read by [torch.load] and the effect of
      [load_state_dict] are parameters of the section that defines
      [xresnet].

    Every module object and every parameter tensor the code creates is
    referenced from one place only, so an update in place is embedded as
    the updated value.

    Sizes and counts (channels, kernel sizes, strides, block counts,
    class counts) are Python integers used as sizes; they are embedded
    in [N]. *)

From Stdlib Require Import NArith QArith List String Lia Bool.
From stdpp Require Import base option list strings gmap.

Local Open Scope string_scope.
Local Open Scope list_scope.
Local Open Scope N_scope.

(** ** Parameter tensors

    The state of a parameter tensor is the last operation that wrote all
    of it.  A random fill records the generator position it was drawn
    at, so that two runs started from different generator states yield
    different values. *)

Inductive fill : Type :=
| Empty                                 (* allocated, contents forgotten *)
| Default                               (* deterministic constructor default *)
| DefaultDrawn (g : nat)                (* random constructor default *)
| KaimingNormal (g : nat)               (* nn.init.kaiming_normal_ *)
| Constant (c : Q)                      (* nn.init.constant_ *)
| Normal (mean std : Q) (g : nat).      (* Tensor.normal_ *)

(** ** Modules

    Primitive framework layers. *)

Inductive layer : Type :=
| Conv2d (in_channels out_channels kernel_size stride padding : N)
         (weight : fill) (bias : option fill)
| ReLU (inplace : bool)
| BatchNorm2d (num_features : N) (weight bias : fill)
| BatchNorm1d (num_features : N) (weight bias : fill)
| MaxPool2d (kernel_size stride padding : N)
| AvgPool2d (kernel_size stride : N)
| AdaptiveAvgPool2d (output_size : N)
| Linear (in_features out_features : N) (weight bias : fill).

(** An [nn.Sequential] is the list of its children, in order. *)

Abbreviation Sequential := list (only parsing).

(** Residual blocks.  The conv paths are the [nn.Sequential]s of
    primitive layers that [bn_relu_conv] returns; [downsample] is [None]
    or the [nn.Sequential] built by [_make_layer]. *)

Inductive block_instance : Type :=
| BasicBlock (conv1 conv2 : Sequential layer)
             (downsample : option (Sequential layer)) (stride : N)
| Bottleneck (conv1 conv2 conv3 : Sequential layer)
             (downsample : option (Sequential layer)) (stride : N).

(** The network object: the attributes [XResNet.__init__] sets. *)

Record XResNet : Type := mkXResNet {
  ni : N;
  conv1 : Sequential layer;
  conv2 : Sequential layer;
  conv3 : layer;
  maxpool : layer;
  layer1 : Sequential block_instance;
  layer2 : Sequential block_instance;
  layer3 : Sequential block_instance;
  layer4 : Sequential block_instance;
  avgpool : layer;
  fc : Sequential layer
}.

(** ** Effects

    The world a call runs in: the position of the global random
    generator and the log of paths handed to [torch.load]. *)

Inductive event : Type :=
| TorchLoad (path : string)
| LoadStateDict.

Record World : Type := mkWorld {
  generator : nat;
  io : list event
}.

Inductive exn : Type :=
| IndexError
| KeyError (key : string)
| AttributeError
| OtherError (what : string).

Inductive result (A : Type) : Type :=
| Ok (a : A)
| Raise (e : exn).

Arguments Ok {A} a.
Arguments Raise {A} e.

(** A computation reads and updates the world and returns a value or
    raises. *)

Definition M (A : Type) : Type := World -> result A * World.

Definition ret {A} (a : A) : M A := fun w => (Ok a, w).

Definition raise {A} (e : exn) : M A := fun w => (Raise e, w).

Definition bind {A B} (c : M A) (k : A -> M B) : M B :=
  fun w => match c w with
           | (Ok a, w') => k a w'
           | (Raise e, w') => (Raise e, w')
           end.

Declare Scope comp_scope.
Delimit Scope comp_scope with comp.
Bind Scope comp_scope with M.

Notation "x <- c ;; k" := (bind c (fun x => k))
  (at level 100, c at next level, right associativity) : comp_scope.

Local Open Scope comp_scope.

(** One random fill of a tensor from the global generator: the tensor
    remembers the position, the generator moves on.  A position counts
    the random fills made so far; how many numbers a fill takes from the
    generator, which depends on the size of the tensor, is not
    modelled. *)

Definition draw (f : nat -> fill) : M fill :=
  fun w => (Ok (f (generator w)), mkWorld (S (generator w)) (io w)).

Definition log (e : event) : M unit :=
  fun w => (Ok tt, mkWorld (generator w) (io w ++ [e])).

(** [l[i]] on a Python list. *)

Definition getitem {A} (l : list A) (i : nat) : M A :=
  match l !! i with
  | Some a => ret a
  | None => raise IndexError
  end.

(** [for x in xs: ...], collecting the results. *)

Definition mapM {A B} (f : A -> M B) : list A -> M (list B) :=
  fix go (xs : list A) : M (list B) :=
    match xs with
    | [] => ret []
    | x :: xs' => y <- f x ;; ys <- go xs' ;; ret (y :: ys)
    end.

Definition optM {A B} (f : A -> M B) (o : option A) : M (option B) :=
  match o with
  | Some a => b <- f a ;; ret (Some b)
  | None => ret None
  end.

(** ** The framework's constructors and initialisers *)

Module nn.

Module init.

Definition kaiming_normal_ (t : fill) : M fill := draw KaimingNormal.

Definition constant_ (t : fill) (c : Q) : M fill := ret (Constant c).

End init.

Definition Conv2d (in_channels out_channels kernel_size stride padding : N)
    (bias : bool) : M layer :=
  weight <- draw DefaultDrawn ;;
  b <- (if bias then t <- draw DefaultDrawn ;; ret (Some t) else ret None) ;;
  ret (Conv2d in_channels out_channels kernel_size stride padding weight b).

Definition ReLU (inplace : bool) : M layer := ret (ReLU inplace).

Definition BatchNorm2d (num_features : N) : M layer :=
  ret (BatchNorm2d num_features Default Default).

Definition BatchNorm1d (num_features : N) : M layer :=
  ret (BatchNorm1d num_features Default Default).

Definition MaxPool2d (kernel_size stride padding : N) : M layer :=
  ret (MaxPool2d kernel_size stride padding).

Definition AvgPool2d (kernel_size stride : N) : M layer :=
  ret (AvgPool2d kernel_size stride).

Definition AdaptiveAvgPool2d (output_size : N) : M layer :=
  ret (AdaptiveAvgPool2d output_size).

Definition Linear (in_features out_features : N) : M layer :=
  weight <- draw DefaultDrawn ;;
  bias <- draw DefaultDrawn ;;
  ret (Linear in_features out_features weight bias).

Definition Sequential {A} (children : list A) : M (Sequential A) :=
  ret children.

End nn.

(** [t.normal_(mean, std)] on a tensor. *)

Definition normal_ (t : fill) (mean std : Q) : M fill := draw (Normal mean std).

(** ** The source, function by function

    Python default arguments are written out at each call:
    [conv(ni, nf, ks=3, stride=1, bias=False)],
    [conv_relu_bn_(ni, nf, ks=3, stride=1, rev=False)],
    [block(ni, nf, stride=1, downsample=None)]. *)

(** Doing [f] to every primitive layer below a block, and [fl], [fb] to
    every primitive layer and block below the network, in the order
    [children()] lists them: the order the attributes were assigned in,
    [downsample] only when it is a module. *)

Definition for_children_block (f : layer -> M layer) (m : block_instance)
    : M block_instance :=
  match m with
  | BasicBlock conv1 conv2 downsample stride =>
      conv1 <- mapM f conv1 ;;
      conv2 <- mapM f conv2 ;;
      downsample <- optM (mapM f) downsample ;;
      ret (BasicBlock conv1 conv2 downsample stride)
  | Bottleneck conv1 conv2 conv3 downsample stride =>
      conv1 <- mapM f conv1 ;;
      conv2 <- mapM f conv2 ;;
      conv3 <- mapM f conv3 ;;
      downsample <- optM (mapM f) downsample ;;
      ret (Bottleneck conv1 conv2 conv3 downsample stride)
  end.

Definition for_children (fl : layer -> M layer)
    (fb : block_instance -> M block_instance) (m : XResNet) : M XResNet :=
  c1 <- mapM fl (conv1 m) ;;
  c2 <- mapM fl (conv2 m) ;;
  c3 <- fl (conv3 m) ;;
  mp <- fl (maxpool m) ;;
  l1 <- mapM fb (layer1 m) ;;
  l2 <- mapM fb (layer2 m) ;;
  l3 <- mapM fb (layer3 m) ;;
  l4 <- mapM fb (layer4 m) ;;
  ap <- fl (avgpool m) ;;
  f <- mapM fl (fc m) ;;
  ret (mkXResNet (ni m) c1 c2 c3 mp l1 l2 l3 l4 ap f).

(** [init_cnn(m)]: the type test on [m], then [init_cnn] on every child.
    Primitive layers have no children; a Sequential, a block and the
    network are neither [Conv2d] nor [BatchNorm2d], so for them only the
    loop over the children remains. *)

Definition init_cnn_layer (m : layer) : M layer :=
  match m with
  | Conv2d i o k s p weight bias =>
      weight <- nn.init.kaiming_normal_ weight ;;
      bias <- optM (fun b => nn.init.constant_ b 0) bias ;;
      ret (Conv2d i o k s p weight bias)
  | BatchNorm2d n weight bias =>
      weight <- nn.init.constant_ weight 1 ;;
      bias <- nn.init.constant_ bias 0 ;;
      ret (BatchNorm2d n weight bias)
  | _ => ret m
  end.

Definition init_cnn_block (m : block_instance) : M block_instance :=
  for_children_block init_cnn_layer m.

Definition init_cnn (m : XResNet) : M XResNet :=
  for_children init_cnn_layer init_cnn_block m.

Definition conv (ni nf ks stride : N) (bias : bool) : M layer :=
  nn.Conv2d ni nf ks stride (ks / 2) bias.

Definition conv_relu_bn_ (ni nf ks stride : N) (rev : bool) : M (list layer) :=
  c <- conv ni nf ks stride false ;;
  r <- nn.ReLU true ;;
  b <- nn.BatchNorm2d (if rev then ni else nf) ;;
  let layers := [c; r; b] in
  let layers := if rev then reverse layers else layers in
  ret layers.

Definition conv_bn_relu (ni nf ks stride : N) : M (Sequential layer) :=
  layers <- conv_relu_bn_ ni nf ks stride false ;;
  nn.Sequential layers.

Definition bn_relu_conv (ni nf ks stride : N) : M (Sequential layer) :=
  layers <- conv_relu_bn_ ni nf ks stride true ;;
  nn.Sequential layers.

(** Calling an [nn.Sequential] feeds the input through its children in
    order; [call] is the call of one child. *)

Definition Sequential_forward {A tensor : Type} (call : A -> tensor -> tensor)
    (self : Sequential A) (x : tensor) : tensor :=
  fold_left (fun x m => call m x) self x.

Module BasicBlock.

Definition expansion : N := 1.

Definition __init__ (ni nf stride : N) (downsample : option (Sequential layer))
    : M block_instance :=
  conv1 <- bn_relu_conv ni nf 3 stride ;;
  conv2 <- bn_relu_conv nf nf 3 1 ;;
  ret (BasicBlock conv1 conv2 downsample stride).

(** [call] is the framework's meaning of a primitive layer, [iadd] that
    of [+=] on tensors. *)

Definition forward {tensor : Type} (call : layer -> tensor -> tensor)
    (iadd : tensor -> tensor -> tensor)
    (conv1 conv2 : Sequential layer) (downsample : option (Sequential layer))
    (x : tensor) : tensor :=
  let identity := match downsample with
                  | None => x
                  | Some d => Sequential_forward call d x
                  end in
  let x := Sequential_forward call conv1 x in
  let x := Sequential_forward call conv2 x in
  let x := iadd x identity in
  x.

End BasicBlock.

Module Bottleneck.

Definition expansion : N := 4.

Definition __init__ (ni nf stride : N) (downsample : option (Sequential layer))
    : M block_instance :=
  conv1 <- bn_relu_conv ni nf 1 1 ;;
  conv2 <- bn_relu_conv nf nf 3 stride ;;
  conv3 <- bn_relu_conv nf (nf * expansion) 1 1 ;;
  ret (Bottleneck conv1 conv2 conv3 downsample stride).

Definition forward {tensor : Type} (call : layer -> tensor -> tensor)
    (iadd : tensor -> tensor -> tensor)
    (conv1 conv2 conv3 : Sequential layer)
    (downsample : option (Sequential layer)) (x : tensor) : tensor :=
  let identity := match downsample with
                  | None => x
                  | Some d => Sequential_forward call d x
                  end in
  let x := Sequential_forward call conv1 x in
  let x := Sequential_forward call conv2 x in
  let x := Sequential_forward call conv3 x in
  let x := iadd x identity in
  x.

End Bottleneck.

(** Calling a block object dispatches on its class. *)

Definition block_forward {tensor : Type} (call : layer -> tensor -> tensor)
    (iadd : tensor -> tensor -> tensor) (m : block_instance) (x : tensor) : tensor :=
  match m with
  | BasicBlock conv1 conv2 downsample _ =>
      BasicBlock.forward call iadd conv1 conv2 downsample x
  | Bottleneck conv1 conv2 conv3 downsample _ =>
      Bottleneck.forward call iadd conv1 conv2 conv3 downsample x
  end.

(** A block class, as [XResNet] uses one: its [expansion] attribute and
    its constructor. *)

Record block_class : Type := mkBlockClass {
  expansion : N;
  new : N -> N -> N -> option (Sequential layer) -> M block_instance
}.

Definition BasicBlock_class : block_class :=
  mkBlockClass BasicBlock.expansion BasicBlock.__init__.

Definition Bottleneck_class : block_class :=
  mkBlockClass Bottleneck.expansion Bottleneck.__init__.

(** [m.weight = t] and [m.weight] on a primitive layer; layers without
    parameters have no such attribute. *)

Definition get_weight (m : layer) : M fill :=
  match m with
  | Conv2d _ _ _ _ _ weight _ => ret weight
  | BatchNorm2d _ weight _ => ret weight
  | BatchNorm1d _ weight _ => ret weight
  | Linear _ _ weight _ => ret weight
  | _ => raise AttributeError
  end.

Definition set_weight (m : layer) (t : fill) : layer :=
  match m with
  | Conv2d i o k s p _ bias => Conv2d i o k s p t bias
  | BatchNorm2d n _ bias => BatchNorm2d n t bias
  | BatchNorm1d n _ bias => BatchNorm1d n t bias
  | Linear i o _ bias => Linear i o t bias
  | _ => m
  end.

(** [nn.init.constant_(s[0].weight, 0.)] for a sequential [s]. *)

Definition zero_first_weight (s : Sequential layer) : M (Sequential layer) :=
  m <- getitem s 0 ;;
  weight <- get_weight m ;;
  weight <- nn.init.constant_ weight 0 ;;
  ret (<[0%nat := set_weight m weight]> s).

(** The body of [for m in self.modules(): ...] in [XResNet.__init__].
    [modules()] walks the tree in pre-order: an object is visited before
    its children, the children in the order they were assigned.  The
    three tests of the body are on the class of [m]; a primitive layer
    can only pass the last, a block only one of the first two. *)

Definition modules_loop_layer (m : layer) : M layer :=
  match m with
  | Linear i o weight bias =>
      weight <- normal_ weight 0 0.01 ;;
      ret (Linear i o weight bias)
  | _ => ret m
  end.

Definition modules_loop_block (m : block_instance) : M block_instance :=
  m <- match m with
       | BasicBlock conv1 conv2 downsample stride =>
           conv2 <- zero_first_weight conv2 ;;
           ret (BasicBlock conv1 conv2 downsample stride)
       | Bottleneck conv1 conv2 conv3 downsample stride =>
           conv3 <- zero_first_weight conv3 ;;
           ret (Bottleneck conv1 conv2 conv3 downsample stride)
       end ;;
  for_children_block modules_loop_layer m.

Definition modules_loop (m : XResNet) : M XResNet :=
  for_children modules_loop_layer modules_loop_block m.

(** [for i in range(lo, hi): s = body(i, s)]. *)

Fixpoint iterate {S : Type} (n : nat) (i : N) (body : N -> S -> M S) (s : S) : M S :=
  match n with
  | O => ret s
  | Datatypes.S n' => s' <- body i s ;; iterate n' (i + 1) body s'
  end.

Definition for_range {S : Type} (lo hi : N) (body : N -> S -> M S) (s : S) : M S :=
  iterate (N.to_nat (hi - lo)) lo body s.

Module XResNet.

(** [self._make_layer(block, nf, blocks, stride=1)].  The only
    attribute of [self] it reads or writes is [self.ni]: it is passed
    in and its new value is returned next to the result. *)

Definition _make_layer (self_ni : N) (block : block_class) (nf blocks stride : N)
    : M (Sequential block_instance * N) :=
  downsample <-
    (if negb (stride =? 1) || negb (self_ni =? nf * expansion block) then
       layers <- (if stride =? 2
                  then p <- nn.AvgPool2d 2 2 ;; ret [p]
                  else ret []) ;;
       c <- conv self_ni (nf * expansion block) 1 1 false ;;
       b <- nn.BatchNorm2d (nf * expansion block) ;;
       let layers := layers ++ [c; b] in
       d <- nn.Sequential layers ;;
       ret (Some d)
     else ret None) ;;
  let layers := [] in
  b <- new block self_ni nf stride downsample ;;
  let layers := layers ++ [b] in
  let self_ni := nf * expansion block in
  layers <- for_range 1 blocks
              (fun i layers => b <- new block self_ni nf 1 None ;;
                               ret (layers ++ [b])) layers ;;
  s <- nn.Sequential layers ;;
  ret (s, self_ni).

(** [XResNet(block, layers, num_classes=1000)]; [num_classes] is
    [None] when the caller leaves it out. *)

Definition __init__ (block : block_class) (layers : list N)
    (num_classes : option N) : M XResNet :=
  let num_classes := default 1000 num_classes in
  let self_ni := 64 in
  conv1 <- conv_bn_relu 3 32 3 2 ;;
  conv2 <- conv_bn_relu 32 32 3 1 ;;
  conv3 <- conv 32 64 3 1 false ;;
  maxpool <- nn.MaxPool2d 3 2 1 ;;
  n <- getitem layers 0 ;;
  r <- _make_layer self_ni block 64 n 1 ;;
  let layer1 := r.1 in let self_ni := r.2 in
  n <- getitem layers 1 ;;
  r <- _make_layer self_ni block 128 n 2 ;;
  let layer2 := r.1 in let self_ni := r.2 in
  n <- getitem layers 2 ;;
  r <- _make_layer self_ni block 256 n 2 ;;
  let layer3 := r.1 in let self_ni := r.2 in
  n <- getitem layers 3 ;;
  r <- _make_layer self_ni block 512 n 2 ;;
  let layer4 := r.1 in let self_ni := r.2 in
  let ni := 512 * expansion block in
  avgpool <- nn.AdaptiveAvgPool2d 1 ;;
  f1 <- nn.ReLU true ;;
  f2 <- nn.BatchNorm1d ni ;;
  f3 <- nn.Linear ni num_classes ;;
  fc <- nn.Sequential [f1; f2; f3] ;;
  let self := mkXResNet self_ni conv1 conv2 conv3 maxpool
                        layer1 layer2 layer3 layer4 avgpool fc in
  self <- init_cnn self ;;
  self <- modules_loop self ;;
  ret self.

(** [view] is the framework's [x.view(x.size(0), -1)]. *)

Definition forward {tensor : Type} (call : layer -> tensor -> tensor)
    (iadd : tensor -> tensor -> tensor) (view : tensor -> tensor)
    (self : XResNet) (x : tensor) : tensor :=
  let x := Sequential_forward call (conv1 self) x in
  let x := Sequential_forward call (conv2 self) x in
  let x := call (conv3 self) x in
  let x := call (maxpool self) x in
  let x := Sequential_forward (block_forward call iadd) (layer1 self) x in
  let x := Sequential_forward (block_forward call iadd) (layer2 self) x in
  let x := Sequential_forward (block_forward call iadd) (layer3 self) x in
  let x := Sequential_forward (block_forward call iadd) (layer4 self) x in
  let x := call (avgpool self) x in
  let x := view x in
  let x := Sequential_forward call (fc self) x in
  x.

End XResNet.

Definition model_urls : gmap string string :=
  <["xresnet34" := "xresnet34"]> (<["xresnet50" := "xresnet50"]> ∅).

(** [d[k]] on a Python dict. *)

Definition dict_getitem (d : gmap string string) (k : string) : M string :=
  match d !! k with
  | Some v => ret v
  | None => raise (KeyError k)
  end.

Section Pretrained.

(** What the framework and the file system contribute to loading:
    the object a path unpickles to (or the exception reading it
    raises), and the model [load_state_dict] leaves behind (or the
    exception it raises). *)

Variable state_dict : Type.
Variable unpickle : string -> result state_dict.
Variable copy_state : XResNet -> state_dict -> result XResNet.

Definition torch_load (path : string) : M state_dict :=
  _ <- log (TorchLoad path) ;;
  fun w => (unpickle path, w).

Definition load_state_dict (model : XResNet) (sd : state_dict) : M XResNet :=
  _ <- log LoadStateDict ;;
  fun w => (copy_state model sd, w).

(** [kwargs] is the one keyword [XResNet] accepts, [num_classes], given
    or left out.  [load_state_dict] writes into [model]; what it returns
    is dropped and [model] is returned. *)

Definition xresnet (block : block_class) (n_layers : list N) (name : string)
    (pre : bool) (kwargs : option N) : M XResNet :=
  model <- XResNet.__init__ block n_layers kwargs ;;
  model <- (if pre
            then url <- dict_getitem model_urls name ;;
                 sd <- torch_load url ;;
                 load_state_dict model sd
            else ret model) ;;
  ret model.

Definition xresnet18 (pretrained : bool) (kwargs : option N) : M XResNet :=
  xresnet BasicBlock_class [2; 2; 2; 2] "xresnet18" pretrained kwargs.

Definition xresnet34 (pretrained : bool) (kwargs : option N) : M XResNet :=
  xresnet BasicBlock_class [3; 4; 6; 3] "xresnet34" pretrained kwargs.

Definition xresnet50 (pretrained : bool) (kwargs : option N) : M XResNet :=
  xresnet Bottleneck_class [3; 4; 6; 3] "xresnet50" pretrained kwargs.

Definition xresnet101 (pretrained : bool) (kwargs : option N) : M XResNet :=
  xresnet Bottleneck_class [3; 4; 23; 3] "xresnet101" pretrained kwargs.

Definition xresnet152 (pretrained : bool) (kwargs : option N) : M XResNet :=
  xresnet Bottleneck_class [3; 8; 36; 3] "xresnet152" pretrained kwargs.

End Pretrained.

(** ** Vocabulary of the properties *)

(** *** Block classes and block objects *)

(** The two block classes the module defines. *)

Definition repo_class (block : block_class) : Prop :=
  block = BasicBlock_class \/ block = Bottleneck_class.

(** The attributes of a block object. *)

Definition downsample_of (m : block_instance) : option (Sequential layer) :=
  match m with
  | BasicBlock _ _ d _ => d
  | Bottleneck _ _ _ d _ => d
  end.

Definition stride_of (m : block_instance) : N :=
  match m with
  | BasicBlock _ _ _ s => s
  | Bottleneck _ _ _ _ s => s
  end.

(** The last conv path of a block: [conv2] of a [BasicBlock], [conv3] of
    a [Bottleneck]; and the conv paths before it. *)

Definition final_path (m : block_instance) : Sequential layer :=
  match m with
  | BasicBlock _ c2 _ _ => c2
  | Bottleneck _ _ c3 _ _ => c3
  end.

Definition inner_paths (m : block_instance) : list (Sequential layer) :=
  match m with
  | BasicBlock c1 _ _ _ => [c1]
  | Bottleneck c1 c2 _ _ _ => [c1; c2]
  end.

(** [blk] is what the constructor of [block] returns for these
    arguments, in some world. *)

Definition constructed_by (block : block_class) (ni nf stride : N)
    (downsample : option (Sequential layer)) (blk : block_instance) : Prop :=
  exists w w', new block ni nf stride downsample w = (Ok blk, w').

(** A block class whose constructor returns, and one whose instances
    keep the downsample module they were given. *)

Definition returns (block : block_class) : Prop :=
  forall ni nf stride downsample w,
    exists blk w', new block ni nf stride downsample w = (Ok blk, w').

Definition keeps_downsample (block : block_class) : Prop :=
  forall ni nf stride downsample w blk w',
    new block ni nf stride downsample w = (Ok blk, w') ->
    downsample_of blk = downsample.

(** The downsample branch as the specification words it: present when
    the stride is not 1 or the channel counts differ; an average pool
    exactly when the stride is 2, then a 1x1 convolution, then a batch
    norm.  [g] is the generator position the convolution is constructed
    at. *)

Definition expected_downsample (self_ni nf_exp stride : N) (g : nat)
    : option (Sequential layer) :=
  if decide (stride <> 1 \/ self_ni <> nf_exp) then
    Some ((if decide (stride = 2) then [AvgPool2d 2 2] else [])
          ++ [Conv2d self_ni nf_exp 1 1 0 (DefaultDrawn g) None;
              BatchNorm2d nf_exp Default Default])
  else None.

(** *** Architecture *)

(** Rewriting every parameter tensor of a module. *)

Definition map_fill_layer (f : fill -> fill) (m : layer) : layer :=
  match m with
  | Conv2d i o k s p weight bias => Conv2d i o k s p (f weight) (f <$> bias)
  | BatchNorm2d n weight bias => BatchNorm2d n (f weight) (f bias)
  | BatchNorm1d n weight bias => BatchNorm1d n (f weight) (f bias)
  | Linear i o weight bias => Linear i o (f weight) (f bias)
  | _ => m
  end.

Definition map_fill_seq (f : fill -> fill) (m : Sequential layer)
    : Sequential layer :=
  map_fill_layer f <$> m.

Definition map_fill_block (f : fill -> fill) (m : block_instance)
    : block_instance :=
  match m with
  | BasicBlock c1 c2 d s =>
      BasicBlock (map_fill_seq f c1) (map_fill_seq f c2) (map_fill_seq f <$> d) s
  | Bottleneck c1 c2 c3 d s =>
      Bottleneck (map_fill_seq f c1) (map_fill_seq f c2) (map_fill_seq f c3)
                 (map_fill_seq f <$> d) s
  end.

Definition map_fill (f : fill -> fill) (m : XResNet) : XResNet :=
  mkXResNet (ni m)
    (map_fill_seq f (conv1 m)) (map_fill_seq f (conv2 m))
    (map_fill_layer f (conv3 m)) (map_fill_layer f (maxpool m))
    (map_fill_block f <$> layer1 m) (map_fill_block f <$> layer2 m)
    (map_fill_block f <$> layer3 m) (map_fill_block f <$> layer4 m)
    (map_fill_layer f (avgpool m)) (map_fill_seq f (fc m)).

(** The architecture of a module: layer types, kernel sizes, strides,
    paddings and channel counts, with the contents of every parameter
    tensor forgotten. *)

Definition architecture_layer : layer -> layer :=
  map_fill_layer (fun _ => Empty).

Definition architecture_seq : Sequential layer -> Sequential layer :=
  map_fill_seq (fun _ => Empty).

Definition architecture_block : block_instance -> block_instance :=
  map_fill_block (fun _ => Empty).

Definition architecture : XResNet -> XResNet := map_fill (fun _ => Empty).

(** Forgetting only which draw a random fill came from: what was filled
    with a constant, and which distribution a random fill was drawn
    from, is kept. *)

Definition forget_draw (t : fill) : fill :=
  match t with
  | DefaultDrawn _ => DefaultDrawn 0
  | KaimingNormal _ => KaimingNormal 0
  | Normal mean std _ => Normal mean std 0
  | _ => t
  end.

Definition map_result {A B} (f : A -> B) (r : result A) : result B :=
  match r with
  | Ok a => Ok (f a)
  | Raise e => Raise e
  end.

(** Replacing the feature count of the batch norm of a layer list. *)

Definition with_num_features (n : N) (m : layer) : layer :=
  match m with
  | BatchNorm2d _ weight bias => BatchNorm2d n weight bias
  | _ => m
  end.

(** The stem in the source's own terms: what [conv_bn_relu(3, 32,
    stride=2)], [conv_bn_relu(32, 32)] and [conv(32, 64)] build, in any
    world, and the 3x3 max-pool of stride 2 and padding 1. *)

Definition stem_as_built (m : XResNet) : Prop :=
  (forall w, map_result architecture_seq (conv_bn_relu 3 32 3 2 w).1
             = Ok (architecture_seq (conv1 m))) /\
  (forall w, map_result architecture_seq (conv_bn_relu 32 32 3 1 w).1
             = Ok (architecture_seq (conv2 m))) /\
  (forall w, map_result architecture_layer (conv 32 64 3 1 false w).1
             = Ok (architecture_layer (conv3 m))) /\
  maxpool m = MaxPool2d 3 2 1.

(** The same stem, and the head, layer by layer. *)

Definition stem_architecture (m : XResNet) : Prop :=
  architecture_seq (conv1 m) =
    [Conv2d 3 32 3 2 1 Empty None; ReLU true; BatchNorm2d 32 Empty Empty] /\
  architecture_seq (conv2 m) =
    [Conv2d 32 32 3 1 1 Empty None; ReLU true; BatchNorm2d 32 Empty Empty] /\
  architecture_layer (conv3 m) = Conv2d 32 64 3 1 1 Empty None /\
  maxpool m = MaxPool2d 3 2 1.

Definition head_architecture (features num_classes : N) (m : XResNet) : Prop :=
  avgpool m = AdaptiveAvgPool2d 1 /\
  architecture_seq (fc m) =
    [ReLU true; BatchNorm1d features Empty Empty;
     Linear features num_classes Empty Empty].

(** *** Initialisation states

    [initialised_layer first m]: the state the specification gives a
    primitive layer after [XResNet.__init__]; [first] says that [m] sits
    at index 0 of the last conv path of a residual block. *)

Definition initialised_layer (first : bool) (m : layer) : Prop :=
  match m with
  | Conv2d _ _ _ _ _ weight bias =>
      (exists g, weight = KaimingNormal g) /\
      (bias = None \/ bias = Some (Constant 0))
  | BatchNorm2d _ weight bias =>
      weight = Constant (if first then 0 else 1) /\ bias = Constant 0
  | Linear _ _ weight _ => exists g, weight = Normal 0 0.01 g
  | _ => True
  end.

Definition is_BatchNorm2d (m : layer) : Prop :=
  match m with
  | BatchNorm2d _ _ _ => True
  | _ => False
  end.

Definition initialised_seq (m : Sequential layer) : Prop :=
  Forall (initialised_layer false) m.

(** The last conv path: its index 0 is a [BatchNorm2d] and carries the
    zero weight; the rest is as everywhere else. *)

Definition initialised_final (m : Sequential layer) : Prop :=
  match m with
  | m0 :: rest =>
      is_BatchNorm2d m0 /\ initialised_layer true m0 /\ initialised_seq rest
  | [] => False
  end.

Definition initialised_block (m : block_instance) : Prop :=
  Forall initialised_seq (inner_paths m) /\
  initialised_final (final_path m) /\
  match downsample_of m with
  | Some d => initialised_seq d
  | None => True
  end.

Definition initialised (m : XResNet) : Prop :=
  initialised_seq (conv1 m) /\ initialised_seq (conv2 m) /\
  initialised_layer false (conv3 m) /\ initialised_layer false (maxpool m) /\
  Forall initialised_block (layer1 m) /\ Forall initialised_block (layer2 m) /\
  Forall initialised_block (layer3 m) /\ Forall initialised_block (layer4 m) /\
  initialised_layer false (avgpool m) /\ initialised_seq (fc m).

(** The intermediate states of the proof.  Every primitive layer and
    every block of the network satisfies [Pl], respectively [Pb]. *)

Definition forall_model (Pl : layer -> Prop) (Pb : block_instance -> Prop)
    (m : XResNet) : Prop :=
  Forall Pl (conv1 m) /\ Forall Pl (conv2 m) /\ Pl (conv3 m) /\ Pl (maxpool m) /\
  Forall Pb (layer1 m) /\ Forall Pb (layer2 m) /\
  Forall Pb (layer3 m) /\ Forall Pb (layer4 m) /\
  Pl (avgpool m) /\ Forall Pl (fc m).

(** What [init_cnn] establishes on a primitive layer, and what the zero
    fill of the [modules()] loop turns it into at index 0 of a last
    conv path ([first]). *)

Definition cnn_ok (first : bool) (m : layer) : Prop :=
  match m with
  | Conv2d _ _ _ _ _ weight bias =>
      (exists g, weight = KaimingNormal g) /\
      (bias = None \/ bias = Some (Constant 0))
  | BatchNorm2d _ weight bias =>
      weight = Constant (if first then 0 else 1) /\ bias = Constant 0
  | _ => True
  end.

Definition headed_by_BatchNorm2d (m : Sequential layer) : Prop :=
  match m with
  | m0 :: _ => is_BatchNorm2d m0
  | [] => False
  end.

Definition cnn_ok_block (m : block_instance) : Prop :=
  Forall (Forall (cnn_ok false)) (inner_paths m) /\
  Forall (cnn_ok false) (final_path m) /\
  headed_by_BatchNorm2d (final_path m) /\
  match downsample_of m with
  | Some d => Forall (cnn_ok false) d
  | None => True
  end.

(** *** Channel counts

    The framework's rule for the channel (feature) dimension: a
    convolution or linear layer accepts its [in_] count and yields its
    [out_] count, a batch norm accepts its [num_features], the other
    layers accept anything; [None] is a mismatch.  A block adds the
    identity path to the conv path in place ([x += identity]).  Heights
    and widths have a vocabulary of their own, further down. *)

Definition channels_layer (m : layer) (c : N) : option N :=
  match m with
  | Conv2d i o _ _ _ _ _ => if decide (c = i) then Some o else None
  | BatchNorm2d n _ _ => if decide (c = n) then Some c else None
  | BatchNorm1d n _ _ => if decide (c = n) then Some c else None
  | Linear i o _ _ => if decide (c = i) then Some o else None
  | _ => Some c
  end.

Definition channels_chain {A} (f : A -> N -> option N) (ms : list A) (c : N)
    : option N :=
  fold_left (fun oc m => oc ≫= f m) ms (Some c).

Definition channels_seq : Sequential layer -> N -> option N :=
  channels_chain channels_layer.

Definition conv_path_channels (m : block_instance) (c : N) : option N :=
  channels_chain channels_seq (inner_paths m ++ [final_path m]) c.

Definition identity_channels (m : block_instance) (c : N) : option N :=
  match downsample_of m with
  | None => Some c
  | Some d => channels_seq d c
  end.

(** One dimension of [x += identity].  The sum is stored in [x], so
    the result has the size of [x]; the framework accepts an [identity]
    of the same size, and one of size 1, which it repeats along the
    dimension.  An [identity] of any other size is rejected, also when
    [x] has size 1. *)

Definition iadd_size (x identity : N) : option N :=
  if decide (identity = x \/ identity = 1) then Some x else None.

Definition channels_block (m : block_instance) (c : N) : option N :=
  identity ← identity_channels m c;
  x ← conv_path_channels m c;
  iadd_size x identity.

Definition channels_stage : Sequential block_instance -> N -> option N :=
  channels_chain channels_block.

(** After [AdaptiveAvgPool2d(k)] the flattened tensor has [k * k]
    features per channel. *)

Definition flattened_features (pool : layer) (c : N) : option N :=
  match pool with
  | AdaptiveAvgPool2d k => Some (c * (k * k))
  | _ => None
  end.

Definition channels (m : XResNet) (c : N) : option N :=
  c ← channels_seq (conv1 m) c;
  c ← channels_seq (conv2 m) c;
  c ← channels_layer (conv3 m) c;
  c ← channels_layer (maxpool m) c;
  c ← channels_stage (layer1 m) c;
  c ← channels_stage (layer2 m) c;
  c ← channels_stage (layer3 m) c;
  c ← channels_stage (layer4 m) c;
  c ← flattened_features (avgpool m) c;
  channels_seq (fc m) c.

(** In a stage fed [c_in] channels, both paths of every block yield
    [c_out] channels: the first block is fed [c_in], the later ones
    [c_out]. *)

Definition paths_agree (c_in c_out : N) (stage : Sequential block_instance)
    : Prop :=
  match stage with
  | [] => False
  | b0 :: rest =>
      conv_path_channels b0 c_in = Some c_out /\
      identity_channels b0 c_in = Some c_out /\
      Forall (fun b => conv_path_channels b c_out = Some c_out /\
                       identity_channels b c_out = Some c_out) rest
  end.

(** *** Runs

    [ensures c w Q]: run in [w], [c] returns, and its value and final
    world satisfy [Q]. *)

Definition ensures {A} (c : M A) (w : World) (Q : A -> World -> Prop) : Prop :=
  match c w with
  | (Ok a, w') => Q a w'
  | (Raise _, _) => False
  end.

(** [c] leaves the log of loads as it found it, whether it returns or
    raises. *)

Definition keeps_io {A} (c : M A) : Prop := forall w, io (c w).2 = io w.

(** [agree_on g c1 c2]: whatever worlds they start in, [c1] and [c2]
    both raise the same exception or return values that [g] cannot tell
    apart. *)

Definition agree_on {A A'} (g : A -> A') (c1 c2 : M A) : Prop :=
  forall w1 w2, map_result g (c1 w1).1 = map_result g (c2 w2).1.

(** *** Loading *)

(** A run from [before] to [after] handed [path] to [torch.load]. *)

Definition torch_loaded (path : string) (before after : World) : Prop :=
  exists l, io after = io before ++ l /\ In (TorchLoad path) l.

(** A run from [before] to [after] called [load_state_dict]. *)

Definition state_dict_loaded (before after : World) : Prop :=
  exists l, io after = io before ++ l /\ In LoadStateDict l.

(** The events the load statement of [xresnet] adds for a path:
    [torch.load] is called, and [load_state_dict] when it returned. *)

Definition load_events {state_dict} (unpickle : string -> result state_dict)
    (url : string) : list event :=
  TorchLoad url :: match unpickle url with
                   | Ok _ => [LoadStateDict]
                   | Raise _ => []
                   end.

(** The reading of "loads a pretrained state dict if and only if [pre]
    is true": the call hands some path to [torch.load] exactly when
    [pre] holds. *)

Definition loads_iff_pre {state_dict} (unpickle : string -> result state_dict)
    (copy_state : XResNet -> state_dict -> result XResNet)
    (block : block_class) (n_layers : list N) (name : string) (pre : bool)
    (kwargs : option N) (w : World) : Prop :=
  (exists path,
     torch_loaded path w
       (xresnet state_dict unpickle copy_state block n_layers name pre kwargs w).2)
  <-> pre = true.

(** *** Concrete inputs

    A world to start from and a framework in which every path holds a
    state dict that fits every model, used where a statement is checked
    at a concrete input. *)

Definition w0 : World := mkWorld 0 [].

Definition any_file (path : string) : result unit := Ok tt.

Definition keep_model (model : XResNet) (sd : unit) : result XResNet := Ok model.

(** A symbolic tensor framework, for reading off the order in which
    [forward] applies the layers: a tensor is the expression that
    computes it. *)

Definition kind (m : layer) : string :=
  match m with
  | Conv2d _ _ _ _ _ _ _ => "Conv2d"
  | ReLU _ => "ReLU"
  | BatchNorm2d _ _ _ => "BatchNorm2d"
  | BatchNorm1d _ _ _ => "BatchNorm1d"
  | MaxPool2d _ _ _ => "MaxPool2d"
  | AvgPool2d _ _ => "AvgPool2d"
  | AdaptiveAvgPool2d _ => "AdaptiveAvgPool2d"
  | Linear _ _ _ _ => "Linear"
  end.

Definition show_call (m : layer) (x : string) : string :=
  kind m +:+ "(" +:+ x +:+ ")".

Definition show_iadd (x y : string) : string := "(" +:+ x +:+ " + " +:+ y +:+ ")".

Definition show_view (x : string) : string := "view(" +:+ x +:+ ")".

(** ** Vocabulary of the further properties *)

(** *** Raising

    [fails c w e]: run in [w], [c] raises [e]. *)

Definition fails {A} (c : M A) (w : World) (e : exn) : Prop :=
  exists w', c w = (Raise e, w').

(** *** Stages and layers of a network

    [built_stage block c_in nf stride blocks stage]: [stage] is a list
    of blocks as [_make_layer] puts one together when [self.ni] is
    [c_in]: a first block constructed with the stride and the
    downsample module, then [blocks - 1] blocks constructed with
    [block(self.ni, nf)]. *)

Definition built_stage (block : block_class) (c_in nf stride blocks : N)
    (stage : Sequential block_instance) : Prop :=
  exists g b0 rest,
    stage = b0 :: rest /\ length rest = N.to_nat (blocks - 1) /\
    constructed_by block c_in nf stride
      (expected_downsample c_in (nf * expansion block) stride g) b0 /\
    Forall (constructed_by block (nf * expansion block) nf 1 None) rest.

(** An attribute read along a stage built for a count of [blocks]:
    [first] on the first block, [later] on the [blocks - 1] blocks the
    loop appends. *)

Definition along_stage {A} (first : A) (blocks : N) (later : A) : list A :=
  first :: replicate (N.to_nat (blocks - 1)) later.

(** The architecture of the downsample module of a block, if it has
    one. *)

Definition downsample_architecture (m : block_instance)
    : option (Sequential layer) :=
  architecture_seq <$> downsample_of m.

(** Every primitive layer below a block, and below the network,
    satisfies [P]. *)

Definition all_layers_block (P : layer -> Prop) (m : block_instance) : Prop :=
  Forall (Forall P) (inner_paths m) /\ Forall P (final_path m) /\
  match downsample_of m with
  | Some d => Forall P d
  | None => True
  end.

Definition all_layers (P : layer -> Prop) : XResNet -> Prop :=
  forall_model P (all_layers_block P).

(** The constructor arguments the module's code gives a primitive
    layer.  Every convolution comes from [conv] with [bias] left at
    [False], a kernel size of 1 or 3 and a stride of 1 or 2; every
    [ReLU] is constructed with [inplace=True]; the pools are
    [MaxPool2d(3, 2, 1)], [AvgPool2d(2, 2)] and
    [AdaptiveAvgPool2d(1)]. *)

Definition as_constructed (m : layer) : Prop :=
  match m with
  | Conv2d _ _ ks stride padding _ bias =>
      bias = None /\ padding = ks / 2 /\ (ks = 1 \/ ks = 3) /\
      (stride = 1 \/ stride = 2)
  | ReLU inplace => inplace = true
  | MaxPool2d ks stride padding => ks = 3 /\ stride = 2 /\ padding = 1
  | AvgPool2d ks stride => ks = 2 /\ stride = 2
  | AdaptiveAvgPool2d output_size => output_size = 1
  | _ => True
  end.

(** *** Parts of a forward pass

    The two operands of the addition [x += identity] in a block's
    [forward].  The identity operand is
    [x if self.downsample is None else self.downsample(x)]; the other
    one is what the last conv path returns, given what the conv paths
    before it return. *)

Definition identity_path {tensor : Type} (call : layer -> tensor -> tensor)
    (m : block_instance) (x : tensor) : tensor :=
  match downsample_of m with
  | None => x
  | Some d => Sequential_forward call d x
  end.

Definition inner_paths_forward {tensor : Type} (call : layer -> tensor -> tensor)
    (m : block_instance) (x : tensor) : tensor :=
  Sequential_forward (Sequential_forward call) (inner_paths m) x.

Definition conv_paths_forward {tensor : Type} (call : layer -> tensor -> tensor)
    (m : block_instance) (x : tensor) : tensor :=
  Sequential_forward call (final_path m) (inner_paths_forward call m x).

(** The last conv path of a block of one of the two classes is what
    [bn_relu_conv] returns. *)

Definition final_bn_relu_conv (m : block_instance) : Prop :=
  exists n i o k s p,
    architecture_seq (final_path m) =
    [BatchNorm2d n Empty Empty; ReLU true; Conv2d i o k s p Empty None].

(** The last conv path of a block with its parameters as a constructed
    network holds them: a batch norm with weight 0 and bias 0, the
    [ReLU], a convolution without bias whose weight was drawn by
    [kaiming_normal_]. *)

Definition zero_final_path (m : block_instance) : Prop :=
  exists n i o k s p g,
    final_path m =
    [BatchNorm2d n (Constant 0) (Constant 0); ReLU true;
     Conv2d i o k s p (KaimingNormal g) None].

(** *** Rewriting every primitive layer of a module *)

Definition map_layers_seq (g : layer -> layer) (m : Sequential layer)
    : Sequential layer :=
  g <$> m.

Definition map_layers_block (g : layer -> layer) (m : block_instance)
    : block_instance :=
  match m with
  | BasicBlock c1 c2 d s =>
      BasicBlock (map_layers_seq g c1) (map_layers_seq g c2)
                 (map_layers_seq g <$> d) s
  | Bottleneck c1 c2 c3 d s =>
      Bottleneck (map_layers_seq g c1) (map_layers_seq g c2) (map_layers_seq g c3)
                 (map_layers_seq g <$> d) s
  end.

Definition map_layers (g : layer -> layer) (m : XResNet) : XResNet :=
  mkXResNet (ni m)
    (map_layers_seq g (conv1 m)) (map_layers_seq g (conv2 m))
    (g (conv3 m)) (g (maxpool m))
    (map_layers_block g <$> layer1 m) (map_layers_block g <$> layer2 m)
    (map_layers_block g <$> layer3 m) (map_layers_block g <$> layer4 m)
    (g (avgpool m)) (map_layers_seq g (fc m)).

(** A layer without what [init_cnn] overwrites: the contents of the
    parameters of a [Conv2d] or [BatchNorm2d].  Whether a convolution
    has a bias is kept, and so is the whole of any other layer. *)

Definition without_cnn_parameters (m : layer) : layer :=
  match m with
  | Conv2d i o k s p _ bias => Conv2d i o k s p Empty ((fun _ => Empty) <$> bias)
  | BatchNorm2d n _ _ => BatchNorm2d n Empty Empty
  | _ => m
  end.

(** *** Heights and widths

    The framework's rule for one spatial extent (the height, or the
    width) of an image tensor.  A convolution or pooling window of size
    [k], stride [s] and padding [p] turns an extent [h] into
    [floor((h + 2p - k) / s) + 1] and rejects an input the window does
    not fit in; a max-pool also rejects a padding of more than half its
    window.  An adaptive pool yields its output size, [ReLU] and
    [BatchNorm2d] keep the extent, [BatchNorm1d] and [Linear] are not
    applied to image tensors.  [None] is a rejected input.  An extent
    is threaded through a list of layers the way a channel count is.
    The size of the batch is no part of this: a batch norm in training
    mode also asks for more than one value per channel, over the whole
    batch. *)

Definition window_extent (k s p h : N) : option N :=
  if decide (0 < s /\ k <= h + 2 * p) then Some ((h + 2 * p - k) / s + 1) else None.

Definition extent_layer (m : layer) (h : N) : option N :=
  match m with
  | Conv2d _ _ k s p _ _ => window_extent k s p h
  | MaxPool2d k s p => if decide (2 * p <= k) then window_extent k s p h else None
  | AvgPool2d k s => window_extent k s 0 h
  | AdaptiveAvgPool2d output_size => Some output_size
  | ReLU _ => Some h
  | BatchNorm2d _ _ _ => Some h
  | BatchNorm1d _ _ _ => None
  | Linear _ _ _ _ => None
  end.

Definition extent_seq : Sequential layer -> N -> option N :=
  channels_chain extent_layer.

Definition conv_path_extent (m : block_instance) (h : N) : option N :=
  channels_chain extent_seq (inner_paths m ++ [final_path m]) h.

Definition identity_extent (m : block_instance) (h : N) : option N :=
  match downsample_of m with
  | None => Some h
  | Some d => extent_seq d h
  end.

(** The addition in a block's [forward] follows [iadd_size] in the
    height and in the width as it does in the channels. *)

Definition extent_block (m : block_instance) (h : N) : option N :=
  identity ← identity_extent m h;
  x ← conv_path_extent m h;
  iadd_size x identity.

Definition extent_stage : Sequential block_instance -> N -> option N :=
  channels_chain extent_block.

(** The extent of the feature map that [forward] hands to [avgpool],
    for an input of extent [h]. *)


(** In a stage of stride [stride] (1 or 2), what the two paths of every
    block make of an extent [h >= 1], and what the stage does: in the
    first block the conv path divides by the stride, rounding up, and
    the identity path keeps [h] at stride 1 and at stride 2 yields
    [floor(h / 2)], nothing for [h = 1]; in the later blocks both paths
    keep [h]. *)

Definition stage_shapes (stride : N) (stage : Sequential block_instance) : Prop :=
  match stage with
  | [] => False
  | b0 :: rest =>
      (forall h, 1 <= h ->
         conv_path_extent b0 h = Some ((h - 1) / stride + 1) /\
         identity_extent b0 h = if decide (stride = 2)
                                then if decide (2 <= h) then Some (h / 2) else None
                                else Some h) /\
      Forall (fun b => forall h, 1 <= h ->
                conv_path_extent b h = Some h /\ identity_extent b h = Some h) rest /\
      (forall h, 1 <= h ->
         extent_stage stage h = if decide (stride = 2)
                                then if decide (h mod 2 = 0 \/ h = 3)
                                     then Some ((h + 1) / 2) else None
                                else Some h)
  end.

(** The reading of "the residual addition in forward is
    shape-compatible": whatever the channel count and the extent of the
    tensor a block is given, when its two paths return, [x += identity]
    accepts what they return, in the channels and in the height and
    width.  This is asked of every block of the network that
    [XResNet(block, layers, num_classes)] returns. *)

Definition shape_compatible (m : block_instance) : Prop :=
  forall c h xc ic xh ih,
    conv_path_channels m c = Some xc -> identity_channels m c = Some ic ->
    conv_path_extent m h = Some xh -> identity_extent m h = Some ih ->
    is_Some (iadd_size xc ic) /\ is_Some (iadd_size xh ih).

Definition additions_shape_compatible (block : block_class) (layers : list N)
    (kwargs : option N) (w : World) : Prop :=
  forall m w',
    XResNet.__init__ block layers kwargs w = (Ok m, w') ->
    Forall shape_compatible (layer1 m ++ layer2 m ++ layer3 m ++ layer4 m).

(** *** The head

    A network with the [out_features] of the [Linear] layers of its
    head [fc] set to [c]. *)

Definition with_out_features (c : N) (m : layer) : layer :=
  match m with
  | Linear i _ weight bias => Linear i c weight bias
  | _ => m
  end.

Definition with_num_classes (c : N) (m : XResNet) : XResNet :=
  mkXResNet (ni m) (conv1 m) (conv2 m) (conv3 m) (maxpool m)
    (layer1 m) (layer2 m) (layer3 m) (layer4 m) (avgpool m)
    (with_out_features c <$> fc m).

(** A layer and a network seen through [h], a way of looking at a
    parameter tensor, with the [out_features] of the head set to [c]. *)

Definition head_layer (h : fill -> fill) (c : N) (m : layer) : layer :=
  map_fill_layer h (with_out_features c m).

Definition head_model (h : fill -> fill) (c : N) (m : XResNet) : XResNet :=
  map_fill h (with_num_classes c m).

(** *** Further concrete inputs *)

(** A framework of integers: a tensor is one number, a batch norm
    whose weight and bias were filled with 0 returns 0, a convolution
    without bias doubles its input. *)

Definition zero_fill (t : fill) : bool :=
  match t with
  | Constant c => Qeq_bool c 0
  | _ => false
  end.

Definition int_call (m : layer) (x : Z) : Z :=
  match m with
  | BatchNorm2d _ weight bias =>
      if zero_fill weight && zero_fill bias then 0%Z else x
  | ReLU _ => Z.max 0 x
  | Conv2d _ _ _ _ _ _ None => (2 * x)%Z
  | Conv2d _ _ _ _ _ _ (Some _) => (2 * x + 1)%Z
  | _ => x
  end.

(** A small module with every kind of child, its parameters filled
    with [t]. *)


(** * Properties *)

(** ** The code on concrete inputs *)

Example conv_pads_half_the_kernel :
  conv 3 32 3 2 false w0 =
  (Ok (Conv2d 3 32 3 2 1 (DefaultDrawn 0) None), mkWorld 1 []).
Proof. reflexivity. Qed.

Example make_layer_BasicBlock_128_2_stride2 :
  XResNet._make_layer 64 BasicBlock_class 128 2 2 w0 =
  (Ok ([BasicBlock
          [BatchNorm2d 64 Default Default; ReLU true;
           Conv2d 64 128 3 2 1 (DefaultDrawn 1) None]
          [BatchNorm2d 128 Default Default; ReLU true;
           Conv2d 128 128 3 1 1 (DefaultDrawn 2) None]
          (Some [AvgPool2d 2 2; Conv2d 64 128 1 1 0 (DefaultDrawn 0) None;
                 BatchNorm2d 128 Default Default])
          2;
        BasicBlock
          [BatchNorm2d 128 Default Default; ReLU true;
           Conv2d 128 128 3 1 1 (DefaultDrawn 3) None]
          [BatchNorm2d 128 Default Default; ReLU true;
           Conv2d 128 128 3 1 1 (DefaultDrawn 4) None]
          None 1],
       128),
   mkWorld 5 []).
Proof. vm_compute. reflexivity. Qed.

(** With [blocks = 0] the loop body never runs and the first block is
    still appended. *)

Example make_layer_zero_blocks :
  (XResNet._make_layer 64 BasicBlock_class 64 0 1 w0).1 =
  Ok ([BasicBlock
         [BatchNorm2d 64 Default Default; ReLU true;
          Conv2d 64 64 3 1 1 (DefaultDrawn 0) None]
         [BatchNorm2d 64 Default Default; ReLU true;
          Conv2d 64 64 3 1 1 (DefaultDrawn 1) None]
         None 1],
      64).
Proof. vm_compute. reflexivity. Qed.

Example init_BasicBlock_1_1_1_1 :
  (XResNet.__init__ BasicBlock_class [1; 1; 1; 1] (Some 10) w0).1 =
  Ok {| ni := 512;
        conv1 := [Conv2d 3 32 3 2 1 (KaimingNormal 16) None; ReLU true;
                  BatchNorm2d 32 (Constant 1) (Constant 0)];
        conv2 := [Conv2d 32 32 3 1 1 (KaimingNormal 17) None; ReLU true;
                  BatchNorm2d 32 (Constant 1) (Constant 0)];
        conv3 := Conv2d 32 64 3 1 1 (KaimingNormal 18) None;
        maxpool := MaxPool2d 3 2 1;
        layer1 :=
          [BasicBlock
             [BatchNorm2d 64 (Constant 1) (Constant 0); ReLU true;
              Conv2d 64 64 3 1 1 (KaimingNormal 19) None]
             [BatchNorm2d 64 (Constant 0) (Constant 0); ReLU true;
              Conv2d 64 64 3 1 1 (KaimingNormal 20) None]
             None 1];
        layer2 :=
          [BasicBlock
             [BatchNorm2d 64 (Constant 1) (Constant 0); ReLU true;
              Conv2d 64 128 3 2 1 (KaimingNormal 21) None]
             [BatchNorm2d 128 (Constant 0) (Constant 0); ReLU true;
              Conv2d 128 128 3 1 1 (KaimingNormal 22) None]
             (Some [AvgPool2d 2 2; Conv2d 64 128 1 1 0 (KaimingNormal 23) None;
                    BatchNorm2d 128 (Constant 1) (Constant 0)])
             2];
        layer3 :=
          [BasicBlock
             [BatchNorm2d 128 (Constant 1) (Constant 0); ReLU true;
              Conv2d 128 256 3 2 1 (KaimingNormal 24) None]
             [BatchNorm2d 256 (Constant 0) (Constant 0); ReLU true;
              Conv2d 256 256 3 1 1 (KaimingNormal 25) None]
             (Some [AvgPool2d 2 2; Conv2d 128 256 1 1 0 (KaimingNormal 26) None;
                    BatchNorm2d 256 (Constant 1) (Constant 0)])
             2];
        layer4 :=
          [BasicBlock
             [BatchNorm2d 256 (Constant 1) (Constant 0); ReLU true;
              Conv2d 256 512 3 2 1 (KaimingNormal 27) None]
             [BatchNorm2d 512 (Constant 0) (Constant 0); ReLU true;
              Conv2d 512 512 3 1 1 (KaimingNormal 28) None]
             (Some [AvgPool2d 2 2; Conv2d 256 512 1 1 0 (KaimingNormal 29) None;
                    BatchNorm2d 512 (Constant 1) (Constant 0)])
             2];
        avgpool := AdaptiveAvgPool2d 1;
        fc := [ReLU true; BatchNorm1d 512 Default Default;
               Linear 512 10 (Normal 0 0.01 30) (DefaultDrawn 15)] |}.
Proof. vm_compute. reflexivity. Qed.

Example init_three_counts :
  (XResNet.__init__ BasicBlock_class [1; 1; 1] None w0).1 = Raise IndexError.
Proof. vm_compute. reflexivity. Qed.

Example xresnet18_pretrained :
  xresnet18 unit any_file keep_model true None w0 =
  (Raise (KeyError "xresnet18"), mkWorld 47 []).
Proof. vm_compute. reflexivity. Qed.

Example xresnet34_pretrained_log :
  io (xresnet34 unit any_file keep_model true None w0).2 =
  [TorchLoad "xresnet34"; LoadStateDict].
Proof. vm_compute. reflexivity. Qed.

Example BasicBlock_forward_downsampled :
  (b <- BasicBlock.__init__ 64 128 2 (expected_downsample 64 128 2 0) ;;
   ret (block_forward show_call show_iadd b "x")) w0 =
  (Ok ("(Conv2d(ReLU(BatchNorm2d(Conv2d(ReLU(BatchNorm2d(x))))))"
       +:+ " + BatchNorm2d(Conv2d(AvgPool2d(x))))"),
   mkWorld 2 []).
Proof. vm_compute. reflexivity. Qed.

Example Bottleneck_forward_plain :
  (b <- Bottleneck.__init__ 256 64 1 None ;;
   ret (block_forward show_call show_iadd b "x")) w0 =
  (Ok ("(Conv2d(ReLU(BatchNorm2d(Conv2d(ReLU(BatchNorm2d("
       +:+ "Conv2d(ReLU(BatchNorm2d(x))))))))) + x)"),
   mkWorld 3 []).
Proof. vm_compute. reflexivity. Qed.

(** A block that changes the channel count without a downsample module
    is rejected by the channel rule, and a freshly constructed layer is
    not in the initialised state. *)

Example channels_block_mismatch :
  channels_block
    (BasicBlock
       [BatchNorm2d 64 Default Default; ReLU true;
        Conv2d 64 128 3 2 1 (DefaultDrawn 0) None]
       [BatchNorm2d 128 Default Default; ReLU true;
        Conv2d 128 128 3 1 1 (DefaultDrawn 1) None]
       None 2) 64 = None.
Proof. vm_compute. reflexivity. Qed.

Example constructed_is_not_initialised :
  ~ initialised_layer false (Conv2d 3 32 3 2 1 (DefaultDrawn 0) None) /\
  ~ initialised_layer false (BatchNorm2d 32 Default Default).
Proof.
  split.
  - intros [[g Hg] _]. discriminate Hg.
  - intros [H _]. discriminate H.
Qed.

(** Two runs from different generator states do differ. *)

Example draws_differ :
  (conv 3 32 3 2 false w0).1 <> (conv 3 32 3 2 false (mkWorld 41 [])).1.
Proof. vm_compute. intros H. discriminate H. Qed.

Example channels_xresnet50 :
  (m <- XResNet.__init__ Bottleneck_class [3; 4; 6; 3] None ;;
   ret (channels m 3)) w0 =
  (Ok (Some 1000), mkWorld 113 []).
Proof. vm_compute. reflexivity. Qed.


(** ** Running computations *)

Lemma bind_Ok {A B} (c : M A) (k : A -> M B) w a w' :
  c w = (Ok a, w') -> bind c k w = k a w'.
Proof. intros H. unfold bind. now rewrite H. Qed.

Lemma bind_inv {A B} (c : M A) (k : A -> M B) w b w2 :
  bind c k w = (Ok b, w2) ->
  exists a w1, c w = (Ok a, w1) /\ k a w1 = (Ok b, w2).
Proof.
  unfold bind. destruct (c w) as [[a|e] w1]; intros H.
  - exists a, w1. split; [reflexivity | exact H].
  - discriminate H.
Qed.

(** ** The two layer orders *)

Lemma conv_relu_bn_run ni nf ks stride rev w :
  conv_relu_bn_ ni nf ks stride rev w =
  (Ok (let c := Conv2d ni nf ks stride (ks / 2) (DefaultDrawn (generator w)) None in
       if rev then [BatchNorm2d ni Default Default; ReLU true; c]
       else [c; ReLU true; BatchNorm2d nf Default Default]),
   mkWorld (S (generator w)) (io w)).
Proof. destruct rev; reflexivity. Qed.

Lemma conv_bn_relu_run ni nf ks stride w :
  conv_bn_relu ni nf ks stride w =
  (Ok [Conv2d ni nf ks stride (ks / 2) (DefaultDrawn (generator w)) None;
       ReLU true; BatchNorm2d nf Default Default],
   mkWorld (S (generator w)) (io w)).
Proof.
  unfold conv_bn_relu. now rewrite (bind_Ok _ _ _ _ _ (conv_relu_bn_run _ _ _ _ false w)).
Qed.

Lemma bn_relu_conv_run ni nf ks stride w :
  bn_relu_conv ni nf ks stride w =
  (Ok [BatchNorm2d ni Default Default; ReLU true;
       Conv2d ni nf ks stride (ks / 2) (DefaultDrawn (generator w)) None],
   mkWorld (S (generator w)) (io w)).
Proof.
  unfold bn_relu_conv. now rewrite (bind_Ok _ _ _ _ _ (conv_relu_bn_run _ _ _ _ true w)).
Qed.

(** C9.  For all [ni], [nf], [ks], [stride]: [conv_bn_relu] yields
    [Conv2d(ni->nf), ReLU, BatchNorm2d(nf)], [bn_relu_conv] yields
    [BatchNorm2d(ni), ReLU, Conv2d(ni->nf)], and the second list is the
    reversal of the first with its batch norm taken over [ni] channels
    instead of [nf]. *)

Theorem bn_relu_conv_reverses_conv_bn_relu (ni nf ks stride : N) (w : World) :
  let c := Conv2d ni nf ks stride (ks / 2) (DefaultDrawn (generator w)) None in
  (conv_bn_relu ni nf ks stride w).1 =
    Ok [c; ReLU true; BatchNorm2d nf Default Default] /\
  (bn_relu_conv ni nf ks stride w).1 =
    Ok [BatchNorm2d ni Default Default; ReLU true; c] /\
  (bn_relu_conv ni nf ks stride w).1 =
    map_result (fun layers => reverse (with_num_features ni <$> layers))
               (conv_bn_relu ni nf ks stride w).1.
Proof.
  intros c. rewrite conv_bn_relu_run, bn_relu_conv_run.
  repeat split; reflexivity.
Qed.

(** ** Residual blocks *)

Lemma BasicBlock_init_run ni nf stride downsample w :
  BasicBlock.__init__ ni nf stride downsample w =
  (Ok (BasicBlock
         [BatchNorm2d ni Default Default; ReLU true;
          Conv2d ni nf 3 stride 1 (DefaultDrawn (generator w)) None]
         [BatchNorm2d nf Default Default; ReLU true;
          Conv2d nf nf 3 1 1 (DefaultDrawn (S (generator w))) None]
         downsample stride),
   mkWorld (S (S (generator w))) (io w)).
Proof. reflexivity. Qed.

Lemma Bottleneck_init_run ni nf stride downsample w :
  Bottleneck.__init__ ni nf stride downsample w =
  (Ok (Bottleneck
         [BatchNorm2d ni Default Default; ReLU true;
          Conv2d ni nf 1 1 0 (DefaultDrawn (generator w)) None]
         [BatchNorm2d nf Default Default; ReLU true;
          Conv2d nf nf 3 stride 1 (DefaultDrawn (S (generator w))) None]
         [BatchNorm2d nf Default Default; ReLU true;
          Conv2d nf (nf * 4) 1 1 0 (DefaultDrawn (S (S (generator w)))) None]
         downsample stride),
   mkWorld (S (S (S (generator w)))) (io w)).
Proof. reflexivity. Qed.

(** C5.  [BasicBlock.forward] returns [conv2(conv1(x)) + identity] and
    [Bottleneck.forward] returns [conv3(conv2(conv1(x))) + identity],
    where [identity] is [x] when [downsample] is [None] and
    [downsample(x)] otherwise; each conv path, as the constructors build
    it, is the sequence BatchNorm, ReLU, Conv, applied in that order. *)

Theorem block_forward_residual {tensor : Type}
    (call : layer -> tensor -> tensor) (iadd : tensor -> tensor -> tensor) :
  let identity downsample x :=
    match downsample with
    | None => x
    | Some d => Sequential_forward call d x
    end in
  (forall c1 c2 downsample stride x,
     block_forward call iadd (BasicBlock c1 c2 downsample stride) x =
     iadd (Sequential_forward call c2 (Sequential_forward call c1 x))
          (identity downsample x)) /\
  (forall c1 c2 c3 downsample stride x,
     block_forward call iadd (Bottleneck c1 c2 c3 downsample stride) x =
     iadd (Sequential_forward call c3
             (Sequential_forward call c2 (Sequential_forward call c1 x)))
          (identity downsample x)) /\
  (forall bn relu cv x,
     Sequential_forward call [bn; relu; cv] x = call cv (call relu (call bn x))) /\
  (forall ni nf stride downsample w,
     exists c1 c2 w',
       BasicBlock.__init__ ni nf stride downsample w =
         (Ok (BasicBlock c1 c2 downsample stride), w') /\
       architecture_seq c1 =
         [BatchNorm2d ni Empty Empty; ReLU true; Conv2d ni nf 3 stride 1 Empty None] /\
       architecture_seq c2 =
         [BatchNorm2d nf Empty Empty; ReLU true; Conv2d nf nf 3 1 1 Empty None]) /\
  (forall ni nf stride downsample w,
     exists c1 c2 c3 w',
       Bottleneck.__init__ ni nf stride downsample w =
         (Ok (Bottleneck c1 c2 c3 downsample stride), w') /\
       architecture_seq c1 =
         [BatchNorm2d ni Empty Empty; ReLU true; Conv2d ni nf 1 1 0 Empty None] /\
       architecture_seq c2 =
         [BatchNorm2d nf Empty Empty; ReLU true; Conv2d nf nf 3 stride 1 Empty None] /\
       architecture_seq c3 =
         [BatchNorm2d nf Empty Empty; ReLU true;
          Conv2d nf (nf * Bottleneck.expansion) 1 1 0 Empty None]).
Proof.
  intros identity. repeat split.
  - intros. rewrite BasicBlock_init_run. do 3 eexists. repeat split.
  - intros. rewrite Bottleneck_init_run. do 4 eexists. repeat split.
Qed.

(** ** [_make_layer] *)

Lemma repo_class_returns block : repo_class block -> returns block.
Proof.
  intros [->| ->] ni nf stride downsample w; simpl.
  - rewrite BasicBlock_init_run. eauto.
  - rewrite Bottleneck_init_run. eauto.
Qed.

(** A block of one of the two classes keeps the stride and the
    downsample module it was constructed with, and its last conv path
    starts with a batch norm. *)

Lemma repo_block_attributes block ni nf stride downsample b :
  repo_class block ->
  constructed_by block ni nf stride downsample b ->
  stride_of b = stride /\ downsample_of b = downsample /\
  headed_by_BatchNorm2d (final_path b).
Proof.
  intros [->| ->] (w & w' & E); simpl in E.
  - rewrite BasicBlock_init_run in E. inversion E; subst. repeat split.
  - rewrite Bottleneck_init_run in E. inversion E; subst. repeat split.
Qed.

(** The downsample branch evaluated: [_make_layer] hands the first block
    the module the specification describes. *)

Lemma make_layer_unfold self_ni block nf blocks stride w :
  XResNet._make_layer self_ni block nf blocks stride w =
  (b <- new block self_ni nf stride
          (expected_downsample self_ni (nf * expansion block) stride (generator w)) ;;
   layers <- for_range 1 blocks
               (fun i layers => b <- new block (nf * expansion block) nf 1 None ;;
                                ret (layers ++ [b])) [b] ;;
   ret (layers, nf * expansion block))
  (if decide (stride <> 1 \/ self_ni <> nf * expansion block)
   then mkWorld (S (generator w)) (io w) else w).
Proof.
  unfold XResNet._make_layer, expected_downsample.
  destruct (N.eqb_spec stride 1) as [E1|E1];
    destruct (N.eqb_spec self_ni (nf * expansion block)) as [E2|E2];
    destruct (N.eqb_spec stride 2) as [E3|E3];
    repeat case_decide; try tauto; try lia; reflexivity.
Qed.

(** The loop appends one block per iteration, each constructed with
    input channels [ni], width [nf], stride 1 and no downsample. *)

Lemma append_blocks_run block ni nf :
  returns block ->
  forall n i acc w,
    exists rest w',
      iterate n i (fun _ layers => b <- new block ni nf 1 None ;;
                                   ret (layers ++ [b])) acc w
        = (Ok (acc ++ rest), w') /\
      length rest = n /\
      Forall (constructed_by block ni nf 1 None) rest.
Proof.
  intros Hret n. induction n as [|n IH]; intros i acc w.
  - exists [], w. rewrite app_nil_r. repeat split. constructor.
  - destruct (Hret ni nf 1 None w) as (b & w1 & Eb).
    destruct (IH (i + 1) (acc ++ [b]) w1) as (rest & w2 & E & Hlen & Hall).
    exists (b :: rest), w2. repeat split.
    + simpl. rewrite (bind_Ok _ _ _ _ _ (bind_Ok _ _ _ _ _ Eb)).
      rewrite E. now rewrite <- app_assoc.
    + simpl. now rewrite Hlen.
    + constructor; [now exists w, w1 | exact Hall].
Qed.

Lemma make_layer_run block self_ni nf blocks stride w :
  returns block ->
  exists b0 rest w',
    XResNet._make_layer self_ni block nf blocks stride w
      = (Ok (b0 :: rest, nf * expansion block), w') /\
    length rest = N.to_nat (blocks - 1) /\
    constructed_by block self_ni nf stride
      (expected_downsample self_ni (nf * expansion block) stride (generator w)) b0 /\
    Forall (constructed_by block (nf * expansion block) nf 1 None) rest.
Proof.
  intros Hret. rewrite make_layer_unfold.
  set (w1 := if decide _ then _ else _).
  destruct (Hret self_ni nf stride
              (expected_downsample self_ni (nf * expansion block) stride (generator w))
              w1) as (b0 & w2 & E0).
  destruct (append_blocks_run block (nf * expansion block) nf Hret
              (N.to_nat (blocks - 1)) 1 [b0] w2) as (rest & w3 & E & Hlen & Hall).
  exists b0, rest, w3. repeat split; [| exact Hlen | now exists w1, w2 | exact Hall].
  rewrite (bind_Ok _ _ _ _ _ E0). unfold for_range.
  rewrite (bind_Ok _ _ _ _ _ E). reflexivity.
Qed.

(** C2.  For every block class (whose constructor returns), [nf],
    [blocks >= 1] and [stride], [_make_layer] returns a Sequential of
    exactly [blocks] block instances: the first constructed with input
    channels [self.ni], width [nf], the given stride and the downsample
    module (possibly [None]); every later one with input channels
    [nf * block.expansion], width [nf], stride 1 and no downsample.  On
    the instances of the module's two classes the stride and the
    downsample module can be read back. *)

Theorem make_layer_blocks (block : block_class) (self_ni nf blocks stride : N)
    (w : World) :
  returns block ->
  1 <= blocks ->
  let downsample :=
    expected_downsample self_ni (nf * expansion block) stride (generator w) in
  exists b0 rest w',
    XResNet._make_layer self_ni block nf blocks stride w
      = (Ok (b0 :: rest, nf * expansion block), w') /\
    length (b0 :: rest) = N.to_nat blocks /\
    constructed_by block self_ni nf stride downsample b0 /\
    Forall (constructed_by block (nf * expansion block) nf 1 None) rest /\
    (repo_class block ->
     stride_of b0 = stride /\ downsample_of b0 = downsample /\
     Forall (fun b => stride_of b = 1 /\ downsample_of b = None) rest).
Proof.
  intros Hret Hblocks downsample.
  destruct (make_layer_run block self_ni nf blocks stride w Hret)
    as (b0 & rest & w' & E & Hlen & H0 & Hrest).
  exists b0, rest, w'. repeat split; try assumption.
  - simpl. rewrite Hlen. lia.
  - now destruct (repo_block_attributes _ _ _ _ _ _ H H0).
  - now destruct (repo_block_attributes _ _ _ _ _ _ H H0) as (_ & ? & _).
  - eapply Forall_impl; [exact Hrest|]. intros b Hb.
    now destruct (repo_block_attributes _ _ _ _ _ _ H Hb) as (? & ? & _).
Qed.

Lemma make_layer_blocks_witness :
  exists b0 rest w',
    XResNet._make_layer 64 BasicBlock_class 128 2 2 w0
      = (Ok (b0 :: rest, 128 * expansion BasicBlock_class), w') /\
    length (b0 :: rest) = N.to_nat 2 /\
    constructed_by BasicBlock_class 64 128 2
      (expected_downsample 64 (128 * expansion BasicBlock_class) 2 (generator w0)) b0 /\
    Forall (constructed_by BasicBlock_class (128 * expansion BasicBlock_class) 128 1 None)
           rest /\
    (repo_class BasicBlock_class ->
     stride_of b0 = 2 /\
     downsample_of b0 =
       expected_downsample 64 (128 * expansion BasicBlock_class) 2 (generator w0) /\
     Forall (fun b => stride_of b = 1 /\ downsample_of b = None) rest).
Proof.
  apply (make_layer_blocks BasicBlock_class 64 128 2 2 w0).
  - intros ni nf stride downsample w. do 2 eexists. reflexivity.
  - lia.
Defined.

(** C3.  In [_make_layer] a downsample branch is created if and only if
    [stride != 1] or [self.ni != nf * block.expansion]; when created it
    is an [AvgPool2d(kernel_size=2, stride=2)] exactly when
    [stride == 2], then a 1x1 convolution from [self.ni] to
    [nf * block.expansion] channels, then a [BatchNorm2d] over
    [nf * block.expansion] channels.  It is observed on the first block
    of the result, for a block class that keeps the module it is
    given. *)

Theorem make_layer_downsample (block : block_class) (self_ni nf blocks stride : N)
    (w : World) :
  returns block ->
  keeps_downsample block ->
  let e := nf * expansion block in
  let conv1x1 := Conv2d self_ni e 1 1 0 (DefaultDrawn (generator w)) None in
  let bn := BatchNorm2d e Default Default in
  exists b0 rest w',
    XResNet._make_layer self_ni block nf blocks stride w = (Ok (b0 :: rest, e), w') /\
    (is_Some (downsample_of b0) <-> stride <> 1 \/ self_ni <> e) /\
    (forall d, downsample_of b0 = Some d ->
       (stride = 2 -> d = [AvgPool2d 2 2; conv1x1; bn]) /\
       (stride <> 2 -> d = [conv1x1; bn])) /\
    downsample_of b0 = expected_downsample self_ni e stride (generator w).
Proof.
  intros Hret Hkeep e conv1x1 bn.
  destruct (make_layer_run block self_ni nf blocks stride w Hret)
    as (b0 & rest & w' & E & _ & (wa & wb & H0) & _).
  apply Hkeep in H0. fold e in E, H0.
  exists b0, rest, w'. split; [exact E|]. rewrite H0.
  unfold expected_downsample. repeat split.
  - intros [d Hd]. case_decide; [assumption | discriminate].
  - intros H. case_decide; [eauto | tauto].
  - intros ->. repeat case_decide; try congruence. now inversion H.
  - intros Hs. repeat case_decide; try congruence. now inversion H.
Qed.

Lemma make_layer_downsample_witness :
  exists b0 rest w',
    XResNet._make_layer 64 Bottleneck_class 64 3 1 w0 = (Ok (b0 :: rest, 256), w') /\
    (is_Some (downsample_of b0) <-> 1 <> 1 \/ 64 <> 256) /\
    (forall d, downsample_of b0 = Some d ->
       (1 = 2 -> d = [AvgPool2d 2 2;
                      Conv2d 64 256 1 1 0 (DefaultDrawn 0) None;
                      BatchNorm2d 256 Default Default]) /\
       (1 <> 2 -> d = [Conv2d 64 256 1 1 0 (DefaultDrawn 0) None;
                       BatchNorm2d 256 Default Default])) /\
    downsample_of b0 = expected_downsample 64 256 1 0.
Proof.
  apply (make_layer_downsample Bottleneck_class 64 64 3 1 w0).
  - intros ni nf stride downsample w. do 2 eexists. reflexivity.
  - intros ni nf stride downsample w blk w' E. inversion E. reflexivity.
Defined.

(** ** Rules for [ensures] *)

Lemma ensures_ret {A} (a : A) w (Q : A -> World -> Prop) :
  Q a w -> ensures (ret a) w Q.
Proof. intros H. exact H. Qed.

Lemma ensures_bind {A B} (c : M A) (k : A -> M B) w (Q : B -> World -> Prop) :
  ensures c w (fun a w' => ensures (k a) w' Q) -> ensures (bind c k) w Q.
Proof. unfold ensures, bind. destruct (c w) as [[a|e] w']; auto. Qed.

Lemma ensures_mono {A} (c : M A) w (Q Q' : A -> World -> Prop) :
  ensures c w Q -> (forall a w', Q a w' -> Q' a w') -> ensures c w Q'.
Proof. unfold ensures. destruct (c w) as [[a|e] w']; auto. Qed.

Lemma ensures_exists {A} (c : M A) w (Q : A -> World -> Prop) :
  ensures c w Q <-> exists a w', c w = (Ok a, w') /\ Q a w'.
Proof.
  unfold ensures. split.
  - destruct (c w) as [[a|e] w']; [eauto | tauto].
  - intros (a & w' & -> & H). exact H.
Qed.

(** [c] followed by [k]: first the rule of [c], then the goal for [k]. *)

Ltac after L :=
  apply ensures_bind; eapply ensures_mono; [ apply L | cbv beta ].

Lemma ensures_mapM {A B} (f : A -> M B) (P : A -> Prop) (R : A -> B -> Prop) :
  (forall x w, P x -> ensures (f x) w (fun y _ => R x y)) ->
  forall xs w, Forall P xs ->
    ensures (mapM f xs) w (fun ys _ => Forall2 R xs ys).
Proof.
  intros Hf xs. induction xs as [|x xs IH]; intros w HP.
  - apply ensures_ret. constructor.
  - inversion HP as [|? ? Hx Hxs]; subst.
    change (mapM f (x :: xs)) with (y <- f x ;; ys <- mapM f xs ;; ret (y :: ys)).
    after (Hf x w Hx). intros y w1 Hy.
    after (IH w1 Hxs). intros ys w2 Hys.
    apply ensures_ret. now constructor.
Qed.

(** A step that keeps the architecture and establishes [P]. *)

Lemma Forall2_architecture_seq (P : layer -> Prop) xs ys :
  Forall2 (fun x y => architecture_layer y = architecture_layer x /\ P y) xs ys ->
  architecture_seq ys = architecture_seq xs /\ Forall P ys.
Proof.
  induction 1 as [|x y xs ys [E Hy] _ [IHE IHP]]; [now split|].
  unfold architecture_seq, map_fill_seq in *. cbn [fmap list_fmap].
  split; [|now constructor].
  fold (architecture_layer y). fold (architecture_layer x). now rewrite E, IHE.
Qed.

Lemma Forall2_architecture_blocks (P : block_instance -> Prop) xs ys :
  Forall2 (fun x y => architecture_block y = architecture_block x /\ P y) xs ys ->
  architecture_block <$> ys = architecture_block <$> xs /\ Forall P ys.
Proof.
  induction 1 as [|x y xs ys [E Hy] _ [IHE IHP]]; [now split|].
  cbn [fmap list_fmap]. split; [|now constructor].
  now rewrite E, IHE.
Qed.

Lemma ensures_seq (f : layer -> M layer) (P P' : layer -> Prop) :
  (forall x w, P x ->
     ensures (f x) w (fun y _ => architecture_layer y = architecture_layer x /\ P' y)) ->
  forall xs w, Forall P xs ->
    ensures (mapM f xs) w
      (fun ys _ => architecture_seq ys = architecture_seq xs /\ Forall P' ys).
Proof.
  intros Hf xs w HP.
  eapply ensures_mono; [apply (ensures_mapM f P _ Hf xs w HP)|].
  intros ys w' H. now apply Forall2_architecture_seq.
Qed.

Lemma ensures_blocks (f : block_instance -> M block_instance)
    (P P' : block_instance -> Prop) :
  (forall x w, P x ->
     ensures (f x) w (fun y _ => architecture_block y = architecture_block x /\ P' y)) ->
  forall xs w, Forall P xs ->
    ensures (mapM f xs) w
      (fun ys _ => architecture_block <$> ys = architecture_block <$> xs /\ Forall P' ys).
Proof.
  intros Hf xs w HP.
  eapply ensures_mono; [apply (ensures_mapM f P _ Hf xs w HP)|].
  intros ys w' H. now apply Forall2_architecture_blocks.
Qed.

Lemma ensures_for_children fl fb (Pl Pl' : layer -> Prop)
    (Pb Pb' : block_instance -> Prop) :
  (forall x w, Pl x ->
     ensures (fl x) w
       (fun y _ => architecture_layer y = architecture_layer x /\ Pl' y)) ->
  (forall x w, Pb x ->
     ensures (fb x) w
       (fun y _ => architecture_block y = architecture_block x /\ Pb' y)) ->
  forall m w, forall_model Pl Pb m ->
    ensures (for_children fl fb m) w
      (fun m' _ => architecture m' = architecture m /\ forall_model Pl' Pb' m').
Proof.
  intros Hl Hb m w (H1 & H2 & H3 & H4 & H5 & H6 & H7 & H8 & H9 & H10).
  unfold for_children.
  after (ensures_seq fl Pl Pl' Hl (conv1 m) w H1). intros c1 w1 [E1 Q1].
  after (ensures_seq fl Pl Pl' Hl (conv2 m) w1 H2). intros c2 w2 [E2 Q2].
  after (Hl (conv3 m) w2 H3). intros c3 w3 [E3 Q3].
  after (Hl (maxpool m) w3 H4). intros mp w4 [E4 Q4].
  after (ensures_blocks fb Pb Pb' Hb (layer1 m) w4 H5). intros l1 w5 [E5 Q5].
  after (ensures_blocks fb Pb Pb' Hb (layer2 m) w5 H6). intros l2 w6 [E6 Q6].
  after (ensures_blocks fb Pb Pb' Hb (layer3 m) w6 H7). intros l3 w7 [E7 Q7].
  after (ensures_blocks fb Pb Pb' Hb (layer4 m) w7 H8). intros l4 w8 [E8 Q8].
  after (Hl (avgpool m) w8 H9). intros ap w9 [E9 Q9].
  after (ensures_seq fl Pl Pl' Hl (fc m) w9 H10). intros f w10 [E10 Q10].
  apply ensures_ret. split.
  - unfold architecture, map_fill; cbn [ni conv1 conv2 conv3 maxpool layer1 layer2
      layer3 layer4 avgpool fc].
    unfold architecture_seq, architecture_layer, architecture_block in *.
    now rewrite E1, E2, E3, E4, E5, E6, E7, E8, E9, E10.
  - repeat split; assumption.
Qed.

(** ** Initialisation, layer by layer *)

Lemma is_BatchNorm2d_architecture a b :
  architecture_layer a = architecture_layer b -> is_BatchNorm2d b -> is_BatchNorm2d a.
Proof. destruct a, b; simpl; intros E H; try discriminate E; tauto. Qed.

Lemma headed_architecture a b :
  architecture_seq a = architecture_seq b ->
  headed_by_BatchNorm2d b -> headed_by_BatchNorm2d a.
Proof.
  destruct a as [|a0 a], b as [|b0 b]; simpl; intros E H;
    try discriminate E; try tauto.
  inversion E. now apply is_BatchNorm2d_architecture with b0.
Qed.

Lemma init_cnn_layer_ok m w :
  ensures (init_cnn_layer m) w
    (fun m' _ => architecture_layer m' = architecture_layer m /\ cnn_ok false m').
Proof.
  destruct m as [i o k s p weight [b|] | | | | | | | ];
    unfold ensures; simpl; repeat split; eauto.
Qed.

Lemma init_cnn_seq_ok c w :
  ensures (mapM init_cnn_layer c) w
    (fun c' _ => architecture_seq c' = architecture_seq c /\ Forall (cnn_ok false) c').
Proof.
  apply (ensures_seq init_cnn_layer (fun _ => True)).
  - intros x w1 _. apply init_cnn_layer_ok.
  - now apply Forall_forall.
Qed.

Lemma init_cnn_downsample_ok d w :
  ensures (optM (mapM init_cnn_layer) d) w
    (fun d' _ => architecture_seq <$> d' = architecture_seq <$> d /\
                 match d' with
                 | Some c => Forall (cnn_ok false) c
                 | None => True
                 end).
Proof.
  destruct d as [c|]; simpl.
  - after (init_cnn_seq_ok c w). intros c' w1 [E H].
    apply ensures_ret. simpl. now rewrite E.
  - now apply ensures_ret.
Qed.

Lemma init_cnn_block_ok b w :
  headed_by_BatchNorm2d (final_path b) ->
  ensures (init_cnn_block b) w
    (fun b' _ => architecture_block b' = architecture_block b /\ cnn_ok_block b').
Proof.
  intros Hhead. unfold init_cnn_block.
  destruct b as [c1 c2 d s | c1 c2 c3 d s]; simpl in Hhead |- *.
  - after (init_cnn_seq_ok c1 w). intros c1' w1 [E1 H1].
    after (init_cnn_seq_ok c2 w1). intros c2' w2 [E2 H2].
    after (init_cnn_downsample_ok d w2). intros d' w3 [E3 H3].
    apply ensures_ret. split.
    + unfold architecture_block, architecture_seq in *. simpl. now rewrite E1, E2, E3.
    + repeat split; simpl; try assumption.
      * now repeat constructor.
      * now apply headed_architecture with c2.
  - after (init_cnn_seq_ok c1 w). intros c1' w1 [E1 H1].
    after (init_cnn_seq_ok c2 w1). intros c2' w2 [E2 H2].
    after (init_cnn_seq_ok c3 w2). intros c3' w3 [E3 H3].
    after (init_cnn_downsample_ok d w3). intros d' w4 [E4 H4].
    apply ensures_ret. split.
    + unfold architecture_block, architecture_seq in *. simpl.
      now rewrite E1, E2, E3, E4.
    + repeat split; simpl; try assumption.
      * now repeat constructor.
      * now apply headed_architecture with c3.
Qed.

Lemma modules_loop_layer_ok first m w :
  cnn_ok first m ->
  ensures (modules_loop_layer m) w
    (fun m' _ => architecture_layer m' = architecture_layer m /\
                 initialised_layer first m').
Proof.
  destruct m; unfold ensures; simpl; intros H; repeat split; eauto; tauto.
Qed.

Lemma modules_loop_seq_ok c w :
  Forall (cnn_ok false) c ->
  ensures (mapM modules_loop_layer c) w
    (fun c' _ => architecture_seq c' = architecture_seq c /\ initialised_seq c').
Proof.
  apply (ensures_seq modules_loop_layer (cnn_ok false)).
  intros x w1. apply modules_loop_layer_ok.
Qed.

Lemma modules_loop_downsample_ok d w :
  match d with Some c => Forall (cnn_ok false) c | None => True end ->
  ensures (optM (mapM modules_loop_layer) d) w
    (fun d' _ => architecture_seq <$> d' = architecture_seq <$> d /\
                 match d' with
                 | Some c => initialised_seq c
                 | None => True
                 end).
Proof.
  destruct d as [c|]; simpl; intros H.
  - after (modules_loop_seq_ok c w H). intros c' w1 [E H'].
    apply ensures_ret. simpl. now rewrite E.
  - now apply ensures_ret.
Qed.

(** The zero fill lands on the batch norm at index 0 of the path. *)

Lemma zero_first_weight_ok c w :
  headed_by_BatchNorm2d c -> Forall (cnn_ok false) c ->
  ensures (zero_first_weight c) w
    (fun c' _ => architecture_seq c' = architecture_seq c /\
                 exists m0 rest, c' = m0 :: rest /\ is_BatchNorm2d m0 /\
                                 cnn_ok true m0 /\ Forall (cnn_ok false) rest).
Proof.
  destruct c as [|m0 rest]; [contradiction|].
  destruct m0 as [ | | n weight bias | | | | | ]; try contradiction.
  intros _ H. inversion H as [|? ? H0 Hrest]; subst.
  destruct H0 as [Hw Hb]. subst bias.
  unfold ensures; simpl. split; [reflexivity|].
  eexists _, rest. repeat split. assumption.
Qed.

Lemma modules_loop_final_ok c w :
  (exists m0 rest, c = m0 :: rest /\ is_BatchNorm2d m0 /\
                   cnn_ok true m0 /\ Forall (cnn_ok false) rest) ->
  ensures (mapM modules_loop_layer c) w
    (fun c' _ => architecture_seq c' = architecture_seq c /\ initialised_final c').
Proof.
  intros (m0 & rest & -> & Hbn & H0 & Hrest).
  change (mapM modules_loop_layer (m0 :: rest))
    with (y <- modules_loop_layer m0 ;; ys <- mapM modules_loop_layer rest ;;
          ret (y :: ys)).
  after (modules_loop_layer_ok true m0 w H0). intros m0' w1 [E0 I0].
  after (modules_loop_seq_ok rest w1 Hrest). intros rest' w2 [E I].
  apply ensures_ret. split.
  - unfold architecture_seq, map_fill_seq in *. cbn [fmap list_fmap].
    fold (architecture_layer m0'). fold (architecture_layer m0). now rewrite E0, E.
  - simpl. repeat split; try assumption.
    now apply is_BatchNorm2d_architecture with m0.
Qed.

Lemma modules_loop_block_ok b w :
  cnn_ok_block b ->
  ensures (modules_loop_block b) w
    (fun b' _ => architecture_block b' = architecture_block b /\ initialised_block b').
Proof.
  unfold modules_loop_block, cnn_ok_block.
  destruct b as [c1 c2 d s | c1 c2 c3 d s]; simpl; intros (Hin & Hfin & Hhead & Hd).
  - inversion Hin as [|? ? H1 _]; subst.
    apply ensures_bind.
    after (zero_first_weight_ok c2 w Hhead Hfin). intros c2z w0 [Ez Hz].
    apply ensures_ret. simpl.
    after (modules_loop_seq_ok c1 w0 H1). intros c1' w1 [E1 I1].
    after (modules_loop_final_ok c2z w1 Hz). intros c2' w2 [E2 I2].
    after (modules_loop_downsample_ok d w2 Hd). intros d' w3 [E3 I3].
    apply ensures_ret. split.
    + unfold architecture_block, architecture_seq in *. simpl.
      now rewrite E1, E2, Ez, E3.
    + repeat split; simpl; try assumption. now repeat constructor.
  - inversion Hin as [|? ? H1 Hin']; subst.
    inversion Hin' as [|? ? H2 _]; subst.
    apply ensures_bind.
    after (zero_first_weight_ok c3 w Hhead Hfin). intros c3z w0 [Ez Hz].
    apply ensures_ret. simpl.
    after (modules_loop_seq_ok c1 w0 H1). intros c1' w1 [E1 I1].
    after (modules_loop_seq_ok c2 w1 H2). intros c2' w2 [E2 I2].
    after (modules_loop_final_ok c3z w2 Hz). intros c3' w3 [E3 I3].
    after (modules_loop_downsample_ok d w3 Hd). intros d' w4 [E4 I4].
    apply ensures_ret. split.
    + unfold architecture_block, architecture_seq in *. simpl.
      now rewrite E1, E2, E3, Ez, E4.
    + repeat split; simpl; try assumption. now repeat constructor.
Qed.

(** [init_cnn] followed by the [modules()] loop, the tail of
    [XResNet.__init__], on a model whose blocks start their last conv
    path with a batch norm. *)

Lemma initialisation_ok pre w :
  forall_model (fun _ => True) (fun b => headed_by_BatchNorm2d (final_path b)) pre ->
  ensures (self <- init_cnn pre ;; self <- modules_loop self ;; ret self) w
    (fun m _ => architecture m = architecture pre /\ initialised m).
Proof.
  intros Hpre.
  after (ensures_for_children init_cnn_layer init_cnn_block
           (fun _ => True) (cnn_ok false)
           (fun b => headed_by_BatchNorm2d (final_path b)) cnn_ok_block
           (fun x w _ => init_cnn_layer_ok x w) init_cnn_block_ok pre w Hpre).
  intros m1 w1 [E1 H1].
  after (ensures_for_children modules_loop_layer modules_loop_block
           (cnn_ok false) (initialised_layer false) cnn_ok_block initialised_block
           (modules_loop_layer_ok false) modules_loop_block_ok m1 w1 H1).
  intros m2 w2 [E2 H2].
  apply ensures_ret. split; [congruence | exact H2].
Qed.

(** ** Channel counts *)

Lemma channels_chain_fmap {A} (f : A -> N -> option N) (g : A -> A) :
  (forall x c, f (g x) c = f x c) ->
  forall ms c, channels_chain f (g <$> ms) c = channels_chain f ms c.
Proof.
  intros Hg ms c. unfold channels_chain. generalize (Some c).
  induction ms as [|m ms IH]; intros oc; [reflexivity|].
  cbn [fmap list_fmap fold_left]. rewrite <- IH. f_equal.
  destruct oc as [c'|]; simpl; [apply Hg | reflexivity].
Qed.

Lemma channels_layer_map_fill h m c :
  channels_layer (map_fill_layer h m) c = channels_layer m c.
Proof. destruct m; reflexivity. Qed.

Lemma channels_seq_map_fill h ms c :
  channels_seq (map_fill_seq h ms) c = channels_seq ms c.
Proof. apply channels_chain_fmap. apply channels_layer_map_fill. Qed.

Lemma conv_path_channels_map_fill h b c :
  conv_path_channels (map_fill_block h b) c = conv_path_channels b c.
Proof.
  unfold conv_path_channels.
  replace (inner_paths (map_fill_block h b) ++ [final_path (map_fill_block h b)])
    with (map_fill_seq h <$> (inner_paths b ++ [final_path b]))
    by (destruct b; reflexivity).
  apply channels_chain_fmap. apply channels_seq_map_fill.
Qed.

Lemma identity_channels_map_fill h b c :
  identity_channels (map_fill_block h b) c = identity_channels b c.
Proof.
  unfold identity_channels.
  destruct b as [c1 c2 [d|] s | c1 c2 c3 [d|] s]; simpl;
    try reflexivity; apply channels_seq_map_fill.
Qed.

Lemma channels_block_map_fill h b c :
  channels_block (map_fill_block h b) c = channels_block b c.
Proof.
  unfold channels_block.
  now rewrite identity_channels_map_fill, conv_path_channels_map_fill.
Qed.

Lemma channels_stage_map_fill h bs c :
  channels_stage (map_fill_block h <$> bs) c = channels_stage bs c.
Proof. apply channels_chain_fmap. apply channels_block_map_fill. Qed.

Lemma channels_map_fill h m c : channels (map_fill h m) c = channels m c.
Proof.
  unfold channels, map_fill; simpl.
  rewrite channels_seq_map_fill.
  destruct (channels_seq (conv1 m) c) as [c1|]; simpl; [|reflexivity].
  rewrite channels_seq_map_fill.
  destruct (channels_seq (conv2 m) c1) as [c2|]; simpl; [|reflexivity].
  rewrite channels_layer_map_fill.
  destruct (channels_layer (conv3 m) c2) as [c3|]; simpl; [|reflexivity].
  rewrite channels_layer_map_fill.
  destruct (channels_layer (maxpool m) c3) as [c4|]; simpl; [|reflexivity].
  rewrite channels_stage_map_fill.
  destruct (channels_stage (layer1 m) c4) as [c5|]; simpl; [|reflexivity].
  rewrite channels_stage_map_fill.
  destruct (channels_stage (layer2 m) c5) as [c6|]; simpl; [|reflexivity].
  rewrite channels_stage_map_fill.
  destruct (channels_stage (layer3 m) c6) as [c7|]; simpl; [|reflexivity].
  rewrite channels_stage_map_fill.
  destruct (channels_stage (layer4 m) c7) as [c8|]; simpl; [|reflexivity].
  replace (flattened_features (map_fill_layer h (avgpool m)) c8)
    with (flattened_features (avgpool m) c8) by (destruct (avgpool m); reflexivity).
  destruct (flattened_features (avgpool m) c8) as [c9|]; simpl; [|reflexivity].
  apply channels_seq_map_fill.
Qed.

Lemma channels_architecture m m' c :
  architecture m = architecture m' -> channels m c = channels m' c.
Proof.
  intros E. rewrite <- (channels_map_fill (fun _ => Empty) m),
    <- (channels_map_fill (fun _ => Empty) m').
  unfold architecture in E. now rewrite E.
Qed.

Lemma channels_chain_cons {A} (f : A -> N -> option N) x xs c c' :
  f x c = Some c' -> channels_chain f (x :: xs) c = channels_chain f xs c'.
Proof. intros E. unfold channels_chain. simpl. now rewrite E. Qed.

Lemma channels_chain_steady {A} (f : A -> N -> option N) xs c :
  Forall (fun x => f x c = Some c) xs -> channels_chain f xs c = Some c.
Proof.
  induction 1 as [|x xs Hx _ IH]; [reflexivity|].
  now rewrite (channels_chain_cons f x xs c c Hx).
Qed.

Lemma iadd_size_same x : iadd_size x x = Some x.
Proof. unfold iadd_size. rewrite decide_True; [reflexivity | now left]. Qed.

Lemma channels_block_agree b c c' :
  conv_path_channels b c = Some c' -> identity_channels b c = Some c' ->
  channels_block b c = Some c'.
Proof.
  intros Hc Hi. unfold channels_block. rewrite Hi, Hc. simpl.
  apply iadd_size_same.
Qed.

Lemma paths_agree_stage c_in c_out stage :
  paths_agree c_in c_out stage -> channels_stage stage c_in = Some c_out.
Proof.
  destruct stage as [|b0 rest]; [contradiction|]. intros (Hc & Hi & Hrest).
  unfold channels_stage.
  rewrite (channels_chain_cons _ _ _ _ _ (channels_block_agree _ _ _ Hc Hi)).
  apply channels_chain_steady. eapply Forall_impl; [exact Hrest|].
  intros b [Hbc Hbi]. now apply channels_block_agree.
Qed.

(** The conv path of a block of one of the two classes. *)

Ltac channels_calc :=
  unfold conv_path_channels, channels_seq, channels_chain; simpl;
  repeat (rewrite decide_True by reflexivity; simpl).

Lemma repo_block_channels block ni nf stride downsample b :
  repo_class block ->
  constructed_by block ni nf stride downsample b ->
  conv_path_channels b ni = Some (nf * expansion block).
Proof.
  intros [->| ->] (w & w' & E); simpl in E.
  - rewrite BasicBlock_init_run in E. inversion E; subst.
    channels_calc. f_equal. unfold BasicBlock.expansion. lia.
  - rewrite Bottleneck_init_run in E. inversion E; subst.
    channels_calc. reflexivity.
Qed.

Lemma expected_downsample_channels self_ni e stride g :
  match expected_downsample self_ni e stride g with
  | Some d => channels_seq d self_ni
  | None => Some self_ni
  end = Some e.
Proof.
  unfold expected_downsample. repeat case_decide; channels_calc; try reflexivity.
  f_equal. destruct (decide (stride = 1)); destruct (decide (self_ni = e)); tauto.
Qed.

(** A stage built by [_make_layer] for one of the two classes. *)

Lemma make_layer_ok block self_ni nf blocks stride w :
  repo_class block ->
  ensures (XResNet._make_layer self_ni block nf blocks stride) w
    (fun r _ => r.2 = nf * expansion block /\
                Forall (fun b => headed_by_BatchNorm2d (final_path b)) r.1 /\
                paths_agree self_ni (nf * expansion block) r.1).
Proof.
  intros Hrepo. apply ensures_exists.
  destruct (make_layer_run block self_ni nf blocks stride w
              (repo_class_returns block Hrepo))
    as (b0 & rest & w' & E & _ & H0 & Hrest).
  exists (b0 :: rest, nf * expansion block), w'. split; [exact E|].
  destruct (repo_block_attributes _ _ _ _ _ _ Hrepo H0) as (_ & Hd0 & Hh0).
  simpl. repeat split.
  - constructor; [exact Hh0|]. eapply Forall_impl; [exact Hrest|].
    intros b Hb. now destruct (repo_block_attributes _ _ _ _ _ _ Hrepo Hb) as (_ & _ & ?).
  - exact (repo_block_channels _ _ _ _ _ _ Hrepo H0).
  - unfold identity_channels. rewrite Hd0. apply expected_downsample_channels.
  - eapply Forall_impl; [exact Hrest|]. intros b Hb.
    destruct (repo_block_attributes _ _ _ _ _ _ Hrepo Hb) as (_ & Hd & _).
    split; [exact (repo_block_channels _ _ _ _ _ _ Hrepo Hb)|].
    unfold identity_channels. now rewrite Hd.
Qed.

(** ** [XResNet.__init__] *)

Lemma ensures_eq {A} (c : M A) w a w' :
  c w = (Ok a, w') -> ensures c w (fun a' w'' => a' = a /\ w'' = w').
Proof. intros E. unfold ensures. now rewrite E. Qed.

(** A step whose result is known by an equation [L], and a step that
    only returns a value. *)

Ltac run L :=
  apply ensures_bind; eapply ensures_mono;
  [ eapply ensures_eq; apply L; reflexivity
  | cbv beta; intros ? ? [-> ->] ].

Ltac pure := apply ensures_bind; apply ensures_ret; cbv beta.

Lemma conv_run ni nf ks stride w :
  conv ni nf ks stride false w =
  (Ok (Conv2d ni nf ks stride (ks / 2) (DefaultDrawn (generator w)) None),
   mkWorld (S (generator w)) (io w)).
Proof. reflexivity. Qed.

Lemma Linear_run i o w :
  nn.Linear i o w =
  (Ok (Linear i o (DefaultDrawn (generator w)) (DefaultDrawn (S (generator w)))),
   mkWorld (S (S (generator w))) (io w)).
Proof. reflexivity. Qed.

Lemma getitem_run {A} (l : list A) i a w :
  l !! i = Some a -> getitem l i w = (Ok a, w).
Proof. intros E. unfold getitem. now rewrite E. Qed.

Lemma channels_run m c c1 c2 c3 c4 c5 c6 c7 c8 c9 out :
  channels_seq (conv1 m) c = Some c1 ->
  channels_seq (conv2 m) c1 = Some c2 ->
  channels_layer (conv3 m) c2 = Some c3 ->
  channels_layer (maxpool m) c3 = Some c4 ->
  channels_stage (layer1 m) c4 = Some c5 ->
  channels_stage (layer2 m) c5 = Some c6 ->
  channels_stage (layer3 m) c6 = Some c7 ->
  channels_stage (layer4 m) c7 = Some c8 ->
  flattened_features (avgpool m) c8 = Some c9 ->
  channels_seq (fc m) c9 = Some out ->
  channels m c = Some out.
Proof.
  intros H1 H2 H3 H4 H5 H6 H7 H8 H9 H10. unfold channels.
  rewrite H1; simpl. rewrite H2; simpl. rewrite H3; simpl. rewrite H4; simpl.
  rewrite H5; simpl. rewrite H6; simpl. rewrite H7; simpl. rewrite H8; simpl.
  rewrite H9; simpl. exact H10.
Qed.

Lemma paths_agree_map_fill h c_in c_out stage :
  paths_agree c_in c_out (map_fill_block h <$> stage) <-> paths_agree c_in c_out stage.
Proof.
  destruct stage as [|b0 rest]; [reflexivity|]. cbn [fmap list_fmap paths_agree].
  rewrite conv_path_channels_map_fill, identity_channels_map_fill, Forall_fmap.
  apply and_iff_compat_l, and_iff_compat_l, Forall_proper; [|reflexivity].
  intros b. unfold compose.
  now rewrite conv_path_channels_map_fill, identity_channels_map_fill.
Qed.

Lemma paths_agree_architecture c_in c_out stage stage' :
  architecture_block <$> stage = architecture_block <$> stage' ->
  paths_agree c_in c_out stage' -> paths_agree c_in c_out stage.
Proof.
  intros E H. apply (paths_agree_map_fill (fun _ => Empty)).
  unfold architecture_block in E. rewrite E.
  now apply paths_agree_map_fill.
Qed.

Lemma architecture_layer_pool m :
  (forall k s p, architecture_layer m = MaxPool2d k s p -> m = MaxPool2d k s p) /\
  (forall k, architecture_layer m = AdaptiveAvgPool2d k -> m = AdaptiveAvgPool2d k).
Proof. split; destruct m; simpl; intros; congruence. Qed.

Lemma init_ok block layers kwargs w :
  repo_class block ->
  (4 <= length layers)%nat ->
  ensures (XResNet.__init__ block layers kwargs) w
    (fun m _ =>
       initialised m /\
       stem_architecture m /\
       head_architecture (512 * expansion block) (default 1000 kwargs) m /\
       ni m = 512 * expansion block /\
       paths_agree 64 (64 * expansion block) (layer1 m) /\
       paths_agree (64 * expansion block) (128 * expansion block) (layer2 m) /\
       paths_agree (128 * expansion block) (256 * expansion block) (layer3 m) /\
       paths_agree (256 * expansion block) (512 * expansion block) (layer4 m) /\
       channels m 3 = Some (default 1000 kwargs)).
Proof.
  intros Hrepo Hlen.
  destruct layers as [|n1 [|n2 [|n3 [|n4 tl]]]]; simpl in Hlen; try lia.
  unfold XResNet.__init__. cbv zeta.
  run conv_bn_relu_run. run conv_bn_relu_run. run conv_run. pure.
  run @getitem_run.
  after (make_layer_ok block 64 64 n1 1). { exact Hrepo. }
  intros [l1 s1] wa (-> & Hh1 & Hp1). cbn [fst snd] in *.
  run @getitem_run.
  after (make_layer_ok block (64 * expansion block) 128 n2 2). { exact Hrepo. }
  intros [l2 s2] wb (-> & Hh2 & Hp2). cbn [fst snd] in *.
  run @getitem_run.
  after (make_layer_ok block (128 * expansion block) 256 n3 2). { exact Hrepo. }
  intros [l3 s3] wc (-> & Hh3 & Hp3). cbn [fst snd] in *.
  run @getitem_run.
  after (make_layer_ok block (256 * expansion block) 512 n4 2). { exact Hrepo. }
  intros [l4 s4] wd (-> & Hh4 & Hp4). cbn [fst snd] in *.
  pure. pure. pure. run Linear_run. pure.
  eapply ensures_mono.
  { apply initialisation_ok. repeat split; cbn [conv1 conv2 conv3 maxpool layer1
      layer2 layer3 layer4 avgpool fc]; try assumption;
      repeat constructor. }
  cbv beta. intros m w' [E I]. split; [exact I|].
  pose proof (f_equal conv1 E) as E1. pose proof (f_equal conv2 E) as E2.
  pose proof (f_equal conv3 E) as E3. pose proof (f_equal maxpool E) as E4.
  pose proof (f_equal layer1 E) as E5. pose proof (f_equal layer2 E) as E6.
  pose proof (f_equal layer3 E) as E7. pose proof (f_equal layer4 E) as E8.
  pose proof (f_equal avgpool E) as E9. pose proof (f_equal fc E) as E10.
  pose proof (f_equal ni E) as E0.
  cbn [architecture map_fill ni conv1 conv2 conv3 maxpool layer1 layer2 layer3
         layer4 avgpool fc] in E0, E1, E2, E3, E4, E5, E6, E7, E8, E9, E10.
  repeat split.
  - exact E1.
  - exact E2.
  - exact E3.
  - now apply architecture_layer_pool.
  - now apply architecture_layer_pool.
  - exact E10.
  - exact E0.
  - now apply (paths_agree_architecture _ _ _ l1).
  - now apply (paths_agree_architecture _ _ _ l2).
  - now apply (paths_agree_architecture _ _ _ l3).
  - now apply (paths_agree_architecture _ _ _ l4).
  - rewrite (channels_architecture _ _ 3 E).
    apply (channels_run _ 3 32 32 64 64 (64 * expansion block)
             (128 * expansion block) (256 * expansion block)
             (512 * expansion block) (512 * expansion block));
      cbn [conv1 conv2 conv3 maxpool layer1 layer2 layer3 layer4 avgpool fc];
      try reflexivity; try (now apply paths_agree_stage).
    + simpl. f_equal. lia.
    + channels_calc. reflexivity.
Qed.

(** ** Construction and initialisation load nothing *)

Lemma keeps_io_ret {A} (a : A) : keeps_io (ret a).
Proof. intros w. reflexivity. Qed.

Lemma keeps_io_raise {A} e : keeps_io (@raise A e).
Proof. intros w. reflexivity. Qed.

Lemma keeps_io_draw f : keeps_io (draw f).
Proof. intros w. reflexivity. Qed.

Lemma keeps_io_bind {A B} (c : M A) (k : A -> M B) :
  keeps_io c -> (forall a, keeps_io (k a)) -> keeps_io (bind c k).
Proof.
  intros Hc Hk w. unfold bind. specialize (Hc w).
  destruct (c w) as [[a|e] w1]; simpl in *; [|exact Hc].
  now rewrite (Hk a w1).
Qed.

Lemma keeps_io_getitem {A} (l : list A) i : keeps_io (getitem l i).
Proof.
  unfold getitem. destruct (l !! i); [apply keeps_io_ret | apply keeps_io_raise].
Qed.

Ltac keeps_io_step :=
  lazymatch goal with
  | |- keeps_io (bind _ _) => apply keeps_io_bind; [|intros ?]
  | |- keeps_io (ret _) => apply keeps_io_ret
  | |- keeps_io (raise _) => apply keeps_io_raise
  | |- keeps_io (draw _) => apply keeps_io_draw
  | |- keeps_io (getitem _ _) => apply keeps_io_getitem
  end.

Lemma keeps_io_mapM {A B} (f : A -> M B) xs :
  (forall x, keeps_io (f x)) -> keeps_io (mapM f xs).
Proof.
  intros Hf. induction xs as [|x xs IH]; [apply keeps_io_ret|].
  change (mapM f (x :: xs)) with (y <- f x ;; ys <- mapM f xs ;; ret (y :: ys)).
  repeat keeps_io_step; auto.
Qed.

Lemma keeps_io_optM {A B} (f : A -> M B) o :
  (forall x, keeps_io (f x)) -> keeps_io (optM f o).
Proof. intros Hf. destruct o; simpl; repeat keeps_io_step; auto. Qed.

Lemma keeps_io_iterate {S} n i (body : N -> S -> M S) s :
  (forall i s, keeps_io (body i s)) -> keeps_io (iterate n i body s).
Proof.
  intros Hb. revert i s. induction n as [|n IH]; intros i s; simpl;
    repeat keeps_io_step; auto.
Qed.

Lemma keeps_io_init_cnn_layer m : keeps_io (init_cnn_layer m).
Proof.
  destruct m as [i o k s p weight [b|] | | | | | | | ]; simpl;
    unfold nn.init.kaiming_normal_, nn.init.constant_; repeat keeps_io_step.
Qed.

Lemma keeps_io_modules_loop_layer m : keeps_io (modules_loop_layer m).
Proof. destruct m; simpl; unfold normal_; repeat keeps_io_step. Qed.

Lemma keeps_io_for_children_block f m :
  (forall x, keeps_io (f x)) -> keeps_io (for_children_block f m).
Proof.
  intros Hf. destruct m; simpl; repeat keeps_io_step;
    try apply keeps_io_optM; try intros ?; now apply keeps_io_mapM.
Qed.

Lemma keeps_io_for_children fl fb m :
  (forall x, keeps_io (fl x)) -> (forall x, keeps_io (fb x)) ->
  keeps_io (for_children fl fb m).
Proof.
  intros Hl Hb. unfold for_children.
  repeat keeps_io_step; auto; now apply keeps_io_mapM.
Qed.

Lemma keeps_io_zero_first_weight c : keeps_io (zero_first_weight c).
Proof.
  unfold zero_first_weight, nn.init.constant_. repeat keeps_io_step.
  unfold get_weight. destruct a; repeat keeps_io_step.
Qed.

Lemma keeps_io_modules_loop_block m : keeps_io (modules_loop_block m).
Proof.
  unfold modules_loop_block. keeps_io_step.
  - destruct m; repeat keeps_io_step; apply keeps_io_zero_first_weight.
  - apply keeps_io_for_children_block, keeps_io_modules_loop_layer.
Qed.

Lemma keeps_io_new block ni nf stride downsample :
  repo_class block -> keeps_io (new block ni nf stride downsample).
Proof. intros [->| ->] w; reflexivity. Qed.

Lemma keeps_io_make_layer self_ni block nf blocks stride :
  repo_class block -> keeps_io (XResNet._make_layer self_ni block nf blocks stride).
Proof.
  intros Hrepo w. rewrite make_layer_unfold.
  set (w1 := if decide _ then _ else _).
  assert (E : io w1 = io w) by (subst w1; case_decide; reflexivity).
  rewrite <- E. clear E. clearbody w1. revert w1.
  match goal with |- forall w1, io (?c w1).2 = io w1 => change (keeps_io c) end.
  repeat keeps_io_step.
  - now apply keeps_io_new.
  - apply keeps_io_iterate. intros i s. repeat keeps_io_step.
    now apply keeps_io_new.
Qed.

Lemma keeps_io_init block layers kwargs :
  repo_class block -> keeps_io (XResNet.__init__ block layers kwargs).
Proof.
  intros Hrepo. unfold XResNet.__init__. cbv zeta.
  repeat keeps_io_step;
    try (now apply keeps_io_make_layer);
    try (intros w; reflexivity).
  - apply keeps_io_for_children;
      [apply keeps_io_init_cnn_layer|].
    intros x. apply keeps_io_for_children_block, keeps_io_init_cnn_layer.
  - apply keeps_io_for_children;
      [apply keeps_io_modules_loop_layer | apply keeps_io_modules_loop_block].
Qed.

(** ** The initial parameter state *)

(** C4.  After [XResNet.__init__] finishes, every [Conv2d] weight is
    Kaiming-normal initialised and its bias, when present, is 0; every
    [BatchNorm2d] has weight 1 and bias 0, except the module at index 0
    of the last conv path of each residual block ([conv2] of a
    [BasicBlock], [conv3] of a [Bottleneck]), whose weight is 0 and
    which is a [BatchNorm2d], not a convolution; every [Linear] weight
    is drawn from the normal distribution of mean 0 and standard
    deviation 0.01.  For the module's two block classes and a list of
    at least four counts the constructor does finish. *)

Theorem init_parameters (block : block_class) (layers : list N)
    (kwargs : option N) (w : World) :
  repo_class block ->
  (4 <= length layers)%nat ->
  exists m w',
    XResNet.__init__ block layers kwargs w = (Ok m, w') /\ initialised m.
Proof.
  intros Hrepo Hlen.
  destruct (proj1 (ensures_exists _ _ _) (init_ok block layers kwargs w Hrepo Hlen))
    as (m & w' & E & H & _).
  exists m, w'. split; [exact E | exact H].
Qed.

Lemma init_parameters_witness :
  exists m w',
    XResNet.__init__ BasicBlock_class [2; 2; 2; 2] None w0 = (Ok m, w') /\
    initialised m.
Proof.
  apply init_parameters; [left; reflexivity | simpl; lia].
Defined.

(** ** [self.ni] after [_make_layer] *)

Lemma make_layer_ni self_ni block nf blocks stride w stage ni' w' :
  XResNet._make_layer self_ni block nf blocks stride w = (Ok (stage, ni'), w') ->
  ni' = nf * expansion block.
Proof.
  rewrite make_layer_unfold. intros E.
  apply bind_inv in E as (b & w1 & _ & E).
  apply bind_inv in E as (layers & w2 & _ & E).
  now inversion E.
Qed.

(** ** [forward] *)

Lemma architecture_seq_three l a b c :
  architecture_seq l = [a; b; c] ->
  exists x y z, l = [x; y; z] /\ architecture_layer x = a /\
                architecture_layer y = b /\ architecture_layer z = c.
Proof.
  destruct l as [|x [|y [|z [|t l]]]]; simpl; intros E; try discriminate E.
  inversion E. now exists x, y, z.
Qed.

(** C1.  For every input [x], [XResNet.forward] composes, in this
    order: [conv1], [conv2], [conv3], [maxpool], [layer1], [layer2],
    [layer3], [layer4], [avgpool], the flattening [view], [fc].  In a
    network the constructor built, the stem is what
    [conv_bn_relu(3, 32, stride=2)], [conv_bn_relu(32, 32)] and
    [conv(32, 64)] build, then a 3x3 max-pool of stride 2 and padding 1;
    written out on the primitive layers, [x] passes through convolution,
    ReLU and batch norm twice, then the third convolution and the
    pool. *)

Theorem forward_composition {tensor : Type}
    (call : layer -> tensor -> tensor) (iadd : tensor -> tensor -> tensor)
    (view : tensor -> tensor) :
  let stage := Sequential_forward (block_forward call iadd) in
  (forall self x,
     XResNet.forward call iadd view self x =
     Sequential_forward call (fc self)
       (view
          (call (avgpool self)
             (stage (layer4 self)
                (stage (layer3 self)
                   (stage (layer2 self)
                      (stage (layer1 self)
                         (call (maxpool self)
                            (call (conv3 self)
                               (Sequential_forward call (conv2 self)
                                  (Sequential_forward call (conv1 self) x))))))))))) /\
  (forall block layers kwargs w,
     repo_class block -> (4 <= length layers)%nat ->
     exists m w',
       XResNet.__init__ block layers kwargs w = (Ok m, w') /\
       stem_as_built m /\ stem_architecture m /\
       exists c1 r1 b1 c2 r2 b2,
         conv1 m = [c1; r1; b1] /\ conv2 m = [c2; r2; b2] /\
         forall x,
           XResNet.forward call iadd view m x =
           Sequential_forward call (fc m)
             (view
                (call (avgpool m)
                   (stage (layer4 m)
                      (stage (layer3 m)
                         (stage (layer2 m)
                            (stage (layer1 m)
                               (call (MaxPool2d 3 2 1)
                                  (call (conv3 m)
                                     (call b2 (call r2 (call c2
                                        (call b1 (call r1 (call c1 x))))))))))))))).
Proof.
  intros stage. split; [reflexivity|].
  intros block layers kwargs w Hrepo Hlen.
  destruct (proj1 (ensures_exists _ _ _) (init_ok block layers kwargs w Hrepo Hlen))
    as (m & w' & E & _ & Hstem & _).
  exists m, w'. split; [exact E|].
  destruct Hstem as (H1 & H2 & H3 & H4).
  split; [|split; [repeat split; assumption|]].
  - repeat split; try assumption; intros w1.
    + rewrite conv_bn_relu_run, H1. reflexivity.
    + rewrite conv_bn_relu_run, H2. reflexivity.
    + rewrite conv_run, H3. reflexivity.
  - destruct (architecture_seq_three _ _ _ _ H1) as (c1 & r1 & b1 & E1 & _).
    destruct (architecture_seq_three _ _ _ _ H2) as (c2 & r2 & b2 & E2 & _).
    exists c1, r1, b1, c2, r2, b2. split; [exact E1|]. split; [exact E2|].
    intros x. unfold XResNet.forward. rewrite E1, E2, H4. reflexivity.
Qed.

Lemma forward_composition_witness :
  exists m w',
    XResNet.__init__ BasicBlock_class [2; 2; 2; 2] None w0 = (Ok m, w') /\
    stem_as_built m /\ stem_architecture m.
Proof.
  destruct (proj2 (@forward_composition nat (fun _ x => x) Nat.add id)
              BasicBlock_class [2; 2; 2; 2] None w0
              (or_introl eq_refl) ltac:(simpl; lia))
    as (m & w' & E & H1 & H2 & _).
  exists m, w'. split; [exact E|]. split; [exact H1 | exact H2].
Defined.

(** ** Pretrained weights *)

Section Loading.

Variable state_dict : Type.
Variable unpickle : string -> result state_dict.
Variable copy_state : XResNet -> state_dict -> result XResNet.

Lemma xresnet_run block n_layers name pre kwargs w :
  xresnet state_dict unpickle copy_state block n_layers name pre kwargs w =
  match XResNet.__init__ block n_layers kwargs w with
  | (Raise e, w1) => (Raise e, w1)
  | (Ok model, w1) =>
      if pre then
        match model_urls !! name with
        | None => (Raise (KeyError name), w1)
        | Some url =>
            (match unpickle url with
             | Ok sd => copy_state model sd
             | Raise e => Raise e
             end,
             mkWorld (generator w1) (io w1 ++ load_events unpickle url))
        end
      else (Ok model, w1)
  end.
Proof.
  unfold xresnet, bind at 1.
  destruct (XResNet.__init__ block n_layers kwargs w) as [[model|e] w1];
    [|reflexivity].
  destruct pre; [|reflexivity].
  unfold dict_getitem, load_events.
  destruct (model_urls !! name) as [url|]; [|reflexivity].
  unfold bind, ret, torch_load, load_state_dict, bind, log. simpl.
  destruct (unpickle url) as [sd|e]; simpl; [|reflexivity].
  rewrite <- app_assoc. simpl.
  destruct (copy_state model sd); reflexivity.
Qed.

End Loading.

Lemma model_urls_keys k :
  is_Some (model_urls !! k) <-> k = "xresnet34" \/ k = "xresnet50".
Proof.
  unfold model_urls. rewrite lookup_insert_is_Some, lookup_insert_is_Some.
  rewrite lookup_empty. split.
  - intros [->|[_ [->|[_ H]]]]; [now left | now right | now destruct H].
  - intros [->| ->]; [now left | right; split; [discriminate | now left]].
Qed.

Lemma model_urls_missing k :
  k <> "xresnet34" -> k <> "xresnet50" -> model_urls !! k = None.
Proof.
  intros H1 H2. apply eq_None_not_Some. rewrite model_urls_keys. tauto.
Qed.

Lemma xresnet_KeyError state_dict unpickle copy_state block n_layers name kwargs w :
  repo_class block -> (4 <= length n_layers)%nat ->
  name <> "xresnet34" -> name <> "xresnet50" ->
  exists w',
    xresnet state_dict unpickle copy_state block n_layers name true kwargs w
      = (Raise (KeyError name), w') /\
    io w' = io w.
Proof.
  intros Hrepo Hlen H1 H2. rewrite xresnet_run.
  pose proof (keeps_io_init block n_layers kwargs Hrepo w) as Hio.
  destruct (proj1 (ensures_exists _ _ _) (init_ok block n_layers kwargs w Hrepo Hlen))
    as (m & w' & E & _).
  rewrite E in Hio |- *. rewrite (model_urls_missing name H1 H2).
  exists w'. split; [reflexivity | exact Hio].
Qed.

Lemma xresnet_fresh state_dict unpickle copy_state block n_layers name kwargs w :
  repo_class block -> (4 <= length n_layers)%nat ->
  exists m w',
    xresnet state_dict unpickle copy_state block n_layers name false kwargs w
      = (Ok m, w') /\
    XResNet.__init__ block n_layers kwargs w = (Ok m, w') /\
    io w' = io w.
Proof.
  intros Hrepo Hlen. rewrite xresnet_run.
  pose proof (keeps_io_init block n_layers kwargs Hrepo w) as Hio.
  destruct (proj1 (ensures_exists _ _ _) (init_ok block n_layers kwargs w Hrepo Hlen))
    as (m & w' & E & _).
  rewrite E in Hio |- *. exists m, w'. repeat split. exact Hio.
Qed.

(** C7.  [model_urls] has entries only for ['xresnet34'] and
    ['xresnet50'], so [xresnet18], [xresnet101] and [xresnet152] called
    with [pretrained=True] raise [KeyError] with nothing loaded (the log
    of loads is as before the call); with [pretrained=False] all five
    constructors return a model. *)

Theorem pretrained_missing_urls (state_dict : Type)
    (unpickle : string -> result state_dict)
    (copy_state : XResNet -> state_dict -> result XResNet)
    (kwargs : option N) (w : World) :
  let raises (ctor : bool -> option N -> M XResNet) (name : string) :=
    exists w', ctor true kwargs w = (Raise (KeyError name), w') /\ io w' = io w in
  let succeeds (ctor : bool -> option N -> M XResNet) :=
    exists m w', ctor false kwargs w = (Ok m, w') /\ io w' = io w in
  (forall k, is_Some (model_urls !! k) <-> k = "xresnet34" \/ k = "xresnet50") /\
  raises (xresnet18 state_dict unpickle copy_state) "xresnet18" /\
  raises (xresnet101 state_dict unpickle copy_state) "xresnet101" /\
  raises (xresnet152 state_dict unpickle copy_state) "xresnet152" /\
  succeeds (xresnet18 state_dict unpickle copy_state) /\
  succeeds (xresnet34 state_dict unpickle copy_state) /\
  succeeds (xresnet50 state_dict unpickle copy_state) /\
  succeeds (xresnet101 state_dict unpickle copy_state) /\
  succeeds (xresnet152 state_dict unpickle copy_state).
Proof.
  intros raises succeeds.
  assert (Hb : repo_class BasicBlock_class) by (left; reflexivity).
  assert (Hn : repo_class Bottleneck_class) by (right; reflexivity).
  assert (Hfresh : forall block layers name,
             repo_class block -> (4 <= length layers)%nat ->
             exists m w',
               xresnet state_dict unpickle copy_state block layers name false kwargs w
                 = (Ok m, w') /\ io w' = io w).
  { intros block layers name Hrepo Hlen.
    destruct (xresnet_fresh state_dict unpickle copy_state block layers name
                kwargs w Hrepo Hlen) as (m & w' & E & _ & Hio).
    exists m, w'. split; [exact E | exact Hio]. }
  split; [exact model_urls_keys|].
  subst raises succeeds. cbv beta.
  unfold xresnet18, xresnet34, xresnet50, xresnet101, xresnet152.
  split; [|split; [|split]].
  - apply xresnet_KeyError; [exact Hb | simpl; lia | discriminate | discriminate].
  - apply xresnet_KeyError; [exact Hn | simpl; lia | discriminate | discriminate].
  - apply xresnet_KeyError; [exact Hn | simpl; lia | discriminate | discriminate].
  - split; [|split; [|split; [|split]]].
    + apply Hfresh; [exact Hb | simpl; lia].
    + apply Hfresh; [exact Hb | simpl; lia].
    + apply Hfresh; [exact Hn | simpl; lia].
    + apply Hfresh; [exact Hn | simpl; lia].
    + apply Hfresh; [exact Hn | simpl; lia].
Qed.

Lemma no_events_loaded path (w w' : World) :
  io w' = io w -> ~ torch_loaded path w w'.
Proof.
  intros E (l & Hl & Hin). rewrite E in Hl.
  rewrite <- (app_nil_r (io w)) in Hl at 1.
  apply app_inv_head in Hl. subst l. destruct Hin.
Qed.

(** C8, as amended.  [xresnet(block, n_layers, name, pre, **kwargs)]
    always constructs [XResNet(block, n_layers, **kwargs)] first and
    raises what that raises.  With [pre] false it loads nothing and
    returns the freshly initialised model unchanged.  With [pre] true it
    looks [name] up in [model_urls]: a missing key raises [KeyError]
    with nothing loaded; otherwise [torch.load] is called on
    [model_urls[name]], and when it returns its result is handed to
    [load_state_dict] of the model, while what it raises is raised with
    [load_state_dict] not called.  So, for the module's two block
    classes, a path is handed to [torch.load] if and only if [pre] is
    true, the construction returned and [name] is a key of [model_urls]
    with that path; and [load_state_dict] is called if and only if, in
    addition, [torch.load] returned. *)

Theorem xresnet_loading (state_dict : Type)
    (unpickle : string -> result state_dict)
    (copy_state : XResNet -> state_dict -> result XResNet)
    (block : block_class) (n_layers : list N) (name : string) (pre : bool)
    (kwargs : option N) (w : World) :
  xresnet state_dict unpickle copy_state block n_layers name pre kwargs w =
    match XResNet.__init__ block n_layers kwargs w with
    | (Raise e, w1) => (Raise e, w1)
    | (Ok model, w1) =>
        if pre then
          match model_urls !! name with
          | None => (Raise (KeyError name), w1)
          | Some url =>
              (match unpickle url with
               | Ok sd => copy_state model sd
               | Raise e => Raise e
               end,
               mkWorld (generator w1) (io w1 ++ load_events unpickle url))
          end
        else (Ok model, w1)
    end /\
  (repo_class block ->
   (forall path,
      torch_loaded path w
        (xresnet state_dict unpickle copy_state block n_layers name pre kwargs w).2
      <-> pre = true /\
          (exists model w1,
             XResNet.__init__ block n_layers kwargs w = (Ok model, w1)) /\
          model_urls !! name = Some path) /\
   (state_dict_loaded w
      (xresnet state_dict unpickle copy_state block n_layers name pre kwargs w).2
    <-> pre = true /\
        (exists model w1,
           XResNet.__init__ block n_layers kwargs w = (Ok model, w1)) /\
        exists path sd, model_urls !! name = Some path /\ unpickle path = Ok sd)).
Proof.
  split; [apply xresnet_run|]. intros Hrepo. rewrite xresnet_run.
  pose proof (keeps_io_init block n_layers kwargs Hrepo w) as Hio.
  assert (Hnone : forall w', io w' = io w -> ~ state_dict_loaded w w').
  { intros w' E (l & Hl & Hin). rewrite E in Hl.
    rewrite <- (app_nil_r (io w)) in Hl at 1.
    apply app_inv_head in Hl. subst l. destruct Hin. }
  destruct (XResNet.__init__ block n_layers kwargs w) as [[model|e] w1];
    cbn [snd] in Hio |- *.
  - destruct pre.
    + destruct (model_urls !! name) as [url|].
      * cbn [snd]. split; [intros path|]; split.
        -- intros (l & Hl & Hin). cbn [io] in Hl. rewrite Hio in Hl.
           apply app_inv_head in Hl. subst l.
           destruct Hin as [Hin|Hin].
           ++ inversion Hin; subst. repeat split. now exists model, w1.
           ++ destruct (unpickle url); [destruct Hin as [Hin|[]]; discriminate Hin
                                       | destruct Hin].
        -- intros (_ & _ & Hurl). inversion Hurl; subst.
           exists (load_events unpickle path). cbn [io]. rewrite Hio.
           split; [reflexivity | now left].
        -- intros (l & Hl & Hin). cbn [io] in Hl. rewrite Hio in Hl.
           apply app_inv_head in Hl. subst l. unfold load_events in Hin.
           destruct Hin as [Hin|Hin]; [discriminate Hin|].
           destruct (unpickle url) as [sd|e] eqn:Eu; [|destruct Hin].
           split; [reflexivity|]. split; [now exists model, w1|].
           now exists url, sd.
        -- intros (_ & _ & path & sd & Hurl & Eu). inversion Hurl; subst.
           exists (load_events unpickle path). cbn [io]. rewrite Hio.
           split; [reflexivity|]. unfold load_events. rewrite Eu.
           right. now left.
      * split; [intros path|]; split.
        -- intros H. now apply (no_events_loaded _ _ _ Hio) in H.
        -- intros (_ & _ & Hurl). discriminate Hurl.
        -- intros H. now apply (Hnone _ Hio) in H.
        -- intros (_ & _ & path & sd & Hurl & _). discriminate Hurl.
    + split; [intros path|]; split.
      * intros H. now apply (no_events_loaded _ _ _ Hio) in H.
      * intros (Hpre & _). discriminate Hpre.
      * intros H. now apply (Hnone _ Hio) in H.
      * intros (Hpre & _). discriminate Hpre.
  - split; [intros path|]; split.
    + intros H. now apply (no_events_loaded _ _ _ Hio) in H.
    + intros (_ & (m & w2 & E) & _). discriminate E.
    + intros H. now apply (Hnone _ Hio) in H.
    + intros (_ & (m & w2 & E) & _). discriminate E.
Qed.

Lemma xresnet_loading_witness :
  (torch_loaded "xresnet34" w0
     (xresnet unit any_file keep_model BasicBlock_class [3; 4; 6; 3] "xresnet34"
        true None w0).2
   <-> true = true /\
       (exists model w1,
          XResNet.__init__ BasicBlock_class [3; 4; 6; 3] None w0 = (Ok model, w1)) /\
       model_urls !! "xresnet34" = Some "xresnet34") /\
  (state_dict_loaded w0
     (xresnet unit any_file keep_model BasicBlock_class [3; 4; 6; 3] "xresnet34"
        true None w0).2
   <-> true = true /\
       (exists model w1,
          XResNet.__init__ BasicBlock_class [3; 4; 6; 3] None w0 = (Ok model, w1)) /\
       exists path sd,
         model_urls !! "xresnet34" = Some path /\ any_file path = Ok sd).
Proof.
  destruct (proj2 (xresnet_loading unit any_file keep_model BasicBlock_class
                     [3; 4; 6; 3] "xresnet34" true None w0) (or_introl eq_refl))
    as [Hload Hdict].
  split; [exact (Hload "xresnet34") | exact Hdict].
Defined.

(** C8 as worded fails: [xresnet18(pretrained=True)] has [pre] true and
    hands nothing to [torch.load], in a framework where every file
    exists. *)

Lemma xresnet_pre_without_load :
  ~ loads_iff_pre any_file keep_model BasicBlock_class [2; 2; 2; 2] "xresnet18"
      true None w0.
Proof.
  intros [_ H]. destruct (H eq_refl) as (path & Hloaded).
  destruct (xresnet_KeyError unit any_file keep_model BasicBlock_class [2; 2; 2; 2]
              "xresnet18" None w0 (or_introl eq_refl) ltac:(simpl; lia)
              ltac:(discriminate) ltac:(discriminate)) as (w' & E & Hio).
  rewrite E in Hloaded. exact (no_events_loaded _ _ _ Hio Hloaded).
Qed.

(** ** Two constructions differ only in their draws *)

Lemma agree_ret {A A'} (g : A -> A') a b :
  g a = g b -> agree_on g (ret a) (ret b).
Proof. intros E w1 w2. simpl. now rewrite E. Qed.

Lemma agree_bind {A A' B B'} (gA : A -> A') (gB : B -> B')
    (c1 c2 : M A) (k1 k2 : A -> M B) :
  agree_on gA c1 c2 ->
  (forall a b, gA a = gA b -> agree_on gB (k1 a) (k2 b)) ->
  agree_on gB (bind c1 k1) (bind c2 k2).
Proof.
  intros Hc Hk w1 w2. unfold bind. specialize (Hc w1 w2).
  destruct (c1 w1) as [[a|e1] w1'], (c2 w2) as [[b|e2] w2']; simpl in Hc;
    try discriminate Hc.
  - apply Hk. now inversion Hc.
  - inversion Hc. reflexivity.
Qed.

Lemma agree_getitem {A} (l : list A) i : agree_on id (getitem l i) (getitem l i).
Proof. intros w1 w2. unfold getitem. destruct (l !! i); reflexivity. Qed.

Lemma agree_mapM {A A'} (g : A -> A') (f : A -> M A) :
  (forall a b, g a = g b -> agree_on g (f a) (f b)) ->
  forall xs ys, g <$> xs = g <$> ys ->
    agree_on (fmap g) (mapM f xs) (mapM f ys).
Proof.
  intros Hf xs. induction xs as [|x xs IH]; intros [|y ys] E;
    try discriminate E.
  - now apply agree_ret.
  - cbn [fmap list_fmap] in E. injection E as Ex Exs.
    change (mapM f (x :: xs)) with (a <- f x ;; l <- mapM f xs ;; ret (a :: l)).
    change (mapM f (y :: ys)) with (a <- f y ;; l <- mapM f ys ;; ret (a :: l)).
    apply (agree_bind g); [now apply Hf|]. intros a b Eab.
    apply (agree_bind (fmap g)); [now apply IH|]. intros l l' El.
    apply agree_ret. cbn [fmap list_fmap]. now rewrite Eab, El.
Qed.

Lemma agree_optM {A A'} (g : A -> A') (f : A -> M A) :
  (forall a b, g a = g b -> agree_on g (f a) (f b)) ->
  forall o o', g <$> o = g <$> o' ->
    agree_on (fmap g) (optM f o) (optM f o').
Proof.
  intros Hf [x|] [y|] E; try discriminate E; simpl.
  - injection E as E. apply (agree_bind g); [now apply Hf|]. intros a b Eab.
    apply agree_ret. simpl. now rewrite Eab.
  - now apply agree_ret.
Qed.

Section Draws.

(** [h] is any way of looking at a parameter tensor that does not see
    which draw a random fill came from. *)

Variable h : fill -> fill.
Hypothesis h_draws : forall t1 t2, forget_draw t1 = forget_draw t2 -> h t1 = h t2.

Ltac draws :=
  repeat first [ reflexivity | assumption | apply h_draws; reflexivity
               | progress f_equal ].

Lemma agree_conv ni nf ks stride :
  agree_on (map_fill_layer h) (conv ni nf ks stride false) (conv ni nf ks stride false).
Proof. intros w1 w2. rewrite !conv_run. simpl. draws. Qed.

Lemma agree_conv_bn_relu ni nf ks stride :
  agree_on (map_fill_seq h) (conv_bn_relu ni nf ks stride) (conv_bn_relu ni nf ks stride).
Proof. intros w1 w2. rewrite !conv_bn_relu_run. simpl. draws. Qed.

Lemma agree_Linear i o :
  agree_on (map_fill_layer h) (nn.Linear i o) (nn.Linear i o).
Proof. intros w1 w2. rewrite !Linear_run. simpl. draws. Qed.

Lemma agree_new block ni nf stride d1 d2 :
  repo_class block ->
  map_fill_seq h <$> d1 = map_fill_seq h <$> d2 ->
  agree_on (map_fill_block h) (new block ni nf stride d1) (new block ni nf stride d2).
Proof.
  intros [->| ->] E w1 w2.
  - change (new BasicBlock_class) with BasicBlock.__init__.
    rewrite !BasicBlock_init_run. simpl. draws.
  - change (new Bottleneck_class) with Bottleneck.__init__.
    rewrite !Bottleneck_init_run. simpl. draws.
Qed.

Lemma agree_init_cnn_layer a b :
  map_fill_layer h a = map_fill_layer h b ->
  agree_on (map_fill_layer h) (init_cnn_layer a) (init_cnn_layer b).
Proof.
  intros E w1 w2.
  destruct a as [? ? ? ? ? ? [?|] | | | | | | | ],
           b as [? ? ? ? ? ? [?|] | | | | | | | ];
    try discriminate E; simpl in E |- *; try (now rewrite E);
    injection E as E; subst; draws.
Qed.

Lemma agree_modules_loop_layer a b :
  map_fill_layer h a = map_fill_layer h b ->
  agree_on (map_fill_layer h) (modules_loop_layer a) (modules_loop_layer b).
Proof.
  intros E w1 w2.
  destruct a, b; try discriminate E; simpl in E |- *; try (now rewrite E).
  injection E as E; subst; draws.
Qed.

Lemma agree_zero_first_weight a b :
  map_fill_seq h a = map_fill_seq h b ->
  agree_on (map_fill_seq h) (zero_first_weight a) (zero_first_weight b).
Proof.
  intros E w1 w2.
  destruct a as [|a0 a], b as [|b0 b]; try discriminate E; [reflexivity|].
  cbn [map_fill_seq fmap list_fmap] in E. injection E as E0 E.
  destruct a0, b0; try discriminate E0; try reflexivity;
    simpl in E0 |- *; injection E0 as E0; subst;
    unfold map_fill_seq in *; rewrite E; draws.
Qed.

Lemma agree_for_children_block f a b :
  (forall x y, map_fill_layer h x = map_fill_layer h y ->
               agree_on (map_fill_layer h) (f x) (f y)) ->
  map_fill_block h a = map_fill_block h b ->
  agree_on (map_fill_block h) (for_children_block f a) (for_children_block f b).
Proof.
  intros Hf E.
  destruct a as [c1 c2 d s | c1 c2 c3 d s], b as [c1' c2' d' s' | c1' c2' c3' d' s'];
    try discriminate E; simpl in E; unfold for_children_block.
  - injection E as E1 E2 E3 E4. subst s'.
    apply (agree_bind (map_fill_seq h)); [now apply agree_mapM|]. intros x1 y1 H1.
    apply (agree_bind (map_fill_seq h)); [now apply agree_mapM|]. intros x2 y2 H2.
    apply (agree_bind (fmap (map_fill_seq h))).
    { apply agree_optM; [|exact E3]. intros x y. now apply agree_mapM. }
    intros x3 y3 H3. apply agree_ret. simpl. now rewrite H1, H2, H3.
  - injection E as E1 E2 E3 E4 E5. subst s'.
    apply (agree_bind (map_fill_seq h)); [now apply agree_mapM|]. intros x1 y1 H1.
    apply (agree_bind (map_fill_seq h)); [now apply agree_mapM|]. intros x2 y2 H2.
    apply (agree_bind (map_fill_seq h)); [now apply agree_mapM|]. intros x3 y3 H3.
    apply (agree_bind (fmap (map_fill_seq h))).
    { apply agree_optM; [|exact E4]. intros x y. now apply agree_mapM. }
    intros x4 y4 H4. apply agree_ret. simpl. now rewrite H1, H2, H3, H4.
Qed.

Lemma agree_init_cnn_block a b :
  map_fill_block h a = map_fill_block h b ->
  agree_on (map_fill_block h) (init_cnn_block a) (init_cnn_block b).
Proof. apply agree_for_children_block. exact agree_init_cnn_layer. Qed.

Lemma agree_modules_loop_block a b :
  map_fill_block h a = map_fill_block h b ->
  agree_on (map_fill_block h) (modules_loop_block a) (modules_loop_block b).
Proof.
  intros E. unfold modules_loop_block.
  apply (agree_bind (map_fill_block h)).
  - destruct a as [c1 c2 d s | c1 c2 c3 d s],
             b as [c1' c2' d' s' | c1' c2' c3' d' s'];
      try discriminate E; simpl in E.
    + injection E as E1 E2 E3 E4. subst s'.
      apply (agree_bind (map_fill_seq h)); [now apply agree_zero_first_weight|].
      intros x y H. apply agree_ret. simpl. now rewrite E1, H, E3.
    + injection E as E1 E2 E3 E4 E5. subst s'.
      apply (agree_bind (map_fill_seq h)); [now apply agree_zero_first_weight|].
      intros x y H. apply agree_ret. simpl. now rewrite E1, E2, H, E4.
  - intros x y H. apply agree_for_children_block; [|exact H].
    exact agree_modules_loop_layer.
Qed.

Lemma agree_for_children fl fb a b :
  (forall x y, map_fill_layer h x = map_fill_layer h y ->
               agree_on (map_fill_layer h) (fl x) (fl y)) ->
  (forall x y, map_fill_block h x = map_fill_block h y ->
               agree_on (map_fill_block h) (fb x) (fb y)) ->
  map_fill h a = map_fill h b ->
  agree_on (map_fill h) (for_children fl fb a) (for_children fl fb b).
Proof.
  intros Hl Hb E.
  pose proof (f_equal conv1 E) as E1. pose proof (f_equal conv2 E) as E2.
  pose proof (f_equal conv3 E) as E3. pose proof (f_equal maxpool E) as E4.
  pose proof (f_equal layer1 E) as E5. pose proof (f_equal layer2 E) as E6.
  pose proof (f_equal layer3 E) as E7. pose proof (f_equal layer4 E) as E8.
  pose proof (f_equal avgpool E) as E9. pose proof (f_equal fc E) as E10.
  pose proof (f_equal ni E) as E0.
  cbn [map_fill ni conv1 conv2 conv3 maxpool layer1 layer2 layer3 layer4 avgpool fc]
    in E0, E1, E2, E3, E4, E5, E6, E7, E8, E9, E10.
  unfold for_children.
  apply (agree_bind (map_fill_seq h)); [now apply agree_mapM|]. intros x1 y1 H1.
  apply (agree_bind (map_fill_seq h)); [now apply agree_mapM|]. intros x2 y2 H2.
  apply (agree_bind (map_fill_layer h)); [now apply Hl|]. intros x3 y3 H3.
  apply (agree_bind (map_fill_layer h)); [now apply Hl|]. intros x4 y4 H4.
  apply (agree_bind (fmap (map_fill_block h))); [now apply agree_mapM|]. intros x5 y5 H5.
  apply (agree_bind (fmap (map_fill_block h))); [now apply agree_mapM|]. intros x6 y6 H6.
  apply (agree_bind (fmap (map_fill_block h))); [now apply agree_mapM|]. intros x7 y7 H7.
  apply (agree_bind (fmap (map_fill_block h))); [now apply agree_mapM|]. intros x8 y8 H8.
  apply (agree_bind (map_fill_layer h)); [now apply Hl|]. intros x9 y9 H9.
  apply (agree_bind (map_fill_seq h)); [now apply agree_mapM|]. intros x10 y10 H10.
  apply agree_ret. unfold map_fill.
  cbn [ni conv1 conv2 conv3 maxpool layer1 layer2 layer3 layer4 avgpool fc].
  now rewrite E0, H1, H2, H3, H4, H5, H6, H7, H8, H9, H10.
Qed.

Lemma agree_append_blocks block ni nf :
  repo_class block ->
  forall n i acc1 acc2,
    map_fill_block h <$> acc1 = map_fill_block h <$> acc2 ->
    agree_on (fmap (map_fill_block h))
      (iterate n i (fun _ layers => b <- new block ni nf 1 None ;;
                                    ret (layers ++ [b])) acc1)
      (iterate n i (fun _ layers => b <- new block ni nf 1 None ;;
                                    ret (layers ++ [b])) acc2).
Proof.
  intros Hrepo n. induction n as [|n IH]; intros i acc1 acc2 E.
  - now apply agree_ret.
  - cbn [iterate].
    apply (agree_bind (fmap (map_fill_block h))); [|intros a b; apply IH].
    apply (agree_bind (map_fill_block h)); [now apply agree_new|].
    intros x y H. apply agree_ret. rewrite !fmap_app. cbn [fmap list_fmap].
    now rewrite E, H.
Qed.

Lemma agree_expected_downsample self_ni e stride g1 g2 :
  map_fill_seq h <$> expected_downsample self_ni e stride g1 =
  map_fill_seq h <$> expected_downsample self_ni e stride g2.
Proof. unfold expected_downsample. repeat case_decide; simpl; draws. Qed.

Lemma agree_make_layer self_ni block nf blocks stride :
  repo_class block ->
  agree_on (fun r => (map_fill_block h <$> r.1, r.2))
    (XResNet._make_layer self_ni block nf blocks stride)
    (XResNet._make_layer self_ni block nf blocks stride).
Proof.
  intros Hrepo w1 w2. rewrite !make_layer_unfold.
  generalize (if decide (stride <> 1 \/ self_ni <> nf * expansion block)
              then mkWorld (S (generator w1)) (io w1) else w1).
  generalize (if decide (stride <> 1 \/ self_ni <> nf * expansion block)
              then mkWorld (S (generator w2)) (io w2) else w2).
  intros w2' w1'. revert w1' w2'.
  apply (agree_bind (map_fill_block h)).
  { apply agree_new; [exact Hrepo | apply agree_expected_downsample]. }
  intros b b' Hb.
  apply (agree_bind (fmap (map_fill_block h))).
  { apply agree_append_blocks; [exact Hrepo|]. cbn [fmap list_fmap]. now rewrite Hb. }
  intros l l' Hl. apply agree_ret. cbn [fst snd]. now rewrite Hl.
Qed.

Lemma agree_init block layers kwargs :
  repo_class block ->
  agree_on (map_fill h) (XResNet.__init__ block layers kwargs)
                        (XResNet.__init__ block layers kwargs).
Proof.
  intros Hrepo. unfold XResNet.__init__. cbv zeta.
  apply (agree_bind (map_fill_seq h)); [apply agree_conv_bn_relu|]. intros c1 c1' H1.
  apply (agree_bind (map_fill_seq h)); [apply agree_conv_bn_relu|]. intros c2 c2' H2.
  apply (agree_bind (map_fill_layer h)); [apply agree_conv|]. intros c3 c3' H3.
  apply (agree_bind (map_fill_layer h)); [now apply agree_ret|]. intros mp mp' H4.
  apply (agree_bind id); [apply agree_getitem|].
  intros n1 n1' Hn. unfold id in Hn. subst n1'.
  apply (agree_bind (fun r => (map_fill_block h <$> r.1, r.2)));
    [now apply agree_make_layer|].
  intros [l1 s1] [l1' s1'] H5. cbn [fst snd] in H5 |- *.
  injection H5 as H5 Hs. subst s1'.
  apply (agree_bind id); [apply agree_getitem|].
  intros n2 n2' Hn. unfold id in Hn. subst n2'.
  apply (agree_bind (fun r => (map_fill_block h <$> r.1, r.2)));
    [now apply agree_make_layer|].
  intros [l2 s2] [l2' s2'] H6. cbn [fst snd] in H6 |- *.
  injection H6 as H6 Hs. subst s2'.
  apply (agree_bind id); [apply agree_getitem|].
  intros n3 n3' Hn. unfold id in Hn. subst n3'.
  apply (agree_bind (fun r => (map_fill_block h <$> r.1, r.2)));
    [now apply agree_make_layer|].
  intros [l3 s3] [l3' s3'] H7. cbn [fst snd] in H7 |- *.
  injection H7 as H7 Hs. subst s3'.
  apply (agree_bind id); [apply agree_getitem|].
  intros n4 n4' Hn. unfold id in Hn. subst n4'.
  apply (agree_bind (fun r => (map_fill_block h <$> r.1, r.2)));
    [now apply agree_make_layer|].
  intros [l4 s4] [l4' s4'] H8. cbn [fst snd] in H8 |- *.
  injection H8 as H8 Hs. subst s4'.
  apply (agree_bind (map_fill_layer h)); [now apply agree_ret|]. intros ap ap' H9.
  apply (agree_bind (map_fill_layer h)); [now apply agree_ret|]. intros f1 f1' F1.
  apply (agree_bind (map_fill_layer h)); [now apply agree_ret|]. intros f2 f2' F2.
  apply (agree_bind (map_fill_layer h)); [apply agree_Linear|]. intros f3 f3' F3.
  apply (agree_bind (map_fill_seq h)).
  { apply agree_ret. unfold map_fill_seq. cbn [fmap list_fmap]. now rewrite F1, F2, F3. }
  intros fc0 fc0' H10.
  apply (agree_bind (map_fill h)).
  { apply agree_for_children;
      [exact agree_init_cnn_layer | exact agree_init_cnn_block |].
    unfold map_fill.
    cbn [ni conv1 conv2 conv3 maxpool layer1 layer2 layer3 layer4 avgpool fc].
    now rewrite H1, H2, H3, H4, H5, H6, H7, H8, H9, H10. }
  intros m1 m1' M1.
  apply (agree_bind (map_fill h)).
  { apply agree_for_children;
      [exact agree_modules_loop_layer | exact agree_modules_loop_block | exact M1]. }
  intros m2 m2' M2. now apply agree_ret.
Qed.

End Draws.

(** C10.  Constructing the network is a deterministic assembly: two
    calls of [XResNet(block, layers, num_classes)], in whatever state
    the random generator is, both raise the same exception or produce
    modules with identical architecture (the same sequence of layer
    types, kernel sizes, strides and channel counts); they also agree on
    every parameter filled with a constant and on the distribution of
    every random fill, so that only the drawn values may differ. *)

Theorem construction_deterministic (block : block_class) (layers : list N)
    (kwargs : option N) (w1 w2 : World) :
  repo_class block ->
  map_result architecture (XResNet.__init__ block layers kwargs w1).1 =
  map_result architecture (XResNet.__init__ block layers kwargs w2).1 /\
  map_result (map_fill forget_draw) (XResNet.__init__ block layers kwargs w1).1 =
  map_result (map_fill forget_draw) (XResNet.__init__ block layers kwargs w2).1.
Proof.
  intros Hrepo. split.
  - apply (agree_init (fun _ => Empty)); [reflexivity | exact Hrepo].
  - apply (agree_init forget_draw); [intros t1 t2 E; exact E | exact Hrepo].
Qed.

Lemma construction_deterministic_witness :
  map_result architecture
    (XResNet.__init__ Bottleneck_class [3; 4; 6; 3] None w0).1 =
  map_result architecture
    (XResNet.__init__ Bottleneck_class [3; 4; 6; 3] None (mkWorld 41 [])).1 /\
  map_result (map_fill forget_draw)
    (XResNet.__init__ Bottleneck_class [3; 4; 6; 3] None w0).1 =
  map_result (map_fill forget_draw)
    (XResNet.__init__ Bottleneck_class [3; 4; 6; 3] None (mkWorld 41 [])).1.
Proof.
  apply construction_deterministic. right. reflexivity.
Defined.

(** * Further properties of the code *)

(** ** Block counts *)

Lemma ensures_fails_bind {A B} (c : M A) (k : A -> M B) w e :
  ensures c w (fun a w1 => fails (k a) w1 e) -> fails (bind c k) w e.
Proof. unfold ensures, fails, bind. destruct (c w) as [[a|e'] w1]; tauto. Qed.

Lemma make_layer_returns block self_ni nf blocks stride w :
  returns block ->
  ensures (XResNet._make_layer self_ni block nf blocks stride) w (fun _ _ => True).
Proof.
  intros Hret. apply ensures_exists.
  destruct (make_layer_run block self_ni nf blocks stride w Hret)
    as (b0 & rest & w' & E & _).
  now exists (b0 :: rest, nf * expansion block), w'.
Qed.

(** X1.  [_make_layer] appends the first block before the loop [for i in
    range(1, blocks)] and the loop runs [blocks - 1] times, none when
    [blocks] is 0 or 1: a stage is never empty, it has [max(blocks, 1)]
    blocks, and a count of 0 builds what a count of 1 builds. *)

Theorem make_layer_at_least_one_block (block : block_class)
    (self_ni nf blocks stride : N) (w : World) :
  returns block ->
  (exists stage w',
     XResNet._make_layer self_ni block nf blocks stride w
       = (Ok (stage, nf * expansion block), w') /\
     length stage = N.to_nat (N.max 1 blocks)) /\
  XResNet._make_layer self_ni block nf 0 stride w
    = XResNet._make_layer self_ni block nf 1 stride w.
Proof.
  intros Hret. split; [|reflexivity].
  destruct (make_layer_run block self_ni nf blocks stride w Hret)
    as (b0 & rest & w' & E & Hlen & _).
  exists (b0 :: rest), w'. split; [exact E|]. simpl. rewrite Hlen. lia.
Qed.

Lemma make_layer_at_least_one_block_witness :
  (exists stage w',
     XResNet._make_layer 64 BasicBlock_class 64 0 1 w0
       = (Ok (stage, 64 * expansion BasicBlock_class), w') /\
     length stage = N.to_nat (N.max 1 0)) /\
  XResNet._make_layer 64 BasicBlock_class 64 0 1 w0
    = XResNet._make_layer 64 BasicBlock_class 64 1 1 w0.
Proof.
  apply (make_layer_at_least_one_block BasicBlock_class 64 64 0 1 w0).
  intros ni nf stride downsample w. do 2 eexists. reflexivity.
Defined.

(** ** The list of block counts *)

Lemma getitem_fails {A} (l : list A) i w :
  l !! i = None -> fails (getitem l i) w IndexError.
Proof. intros E. exists w. unfold getitem. now rewrite E. Qed.

Lemma fails_bind_now {A B} (c : M A) (k : A -> M B) w e :
  fails c w e -> fails (bind c k) w e.
Proof. intros (w' & E). exists w'. unfold bind. now rewrite E. Qed.

(** The steps before the raise: one whose result is known by an
    equation [L], one whose rule is [L]; and the raise itself. *)

Ltac fails_run L :=
  apply ensures_fails_bind; eapply ensures_mono;
  [ eapply ensures_eq; apply L; reflexivity
  | cbv beta; intros ? ? [-> ->] ].

Ltac fails_after L :=
  apply ensures_fails_bind; eapply ensures_mono; [ apply L; assumption | cbv beta ].

Ltac missing_count := apply fails_bind_now, getitem_fails; reflexivity.

(** X2.  [XResNet.__init__] reads [layers[0]] to [layers[3]], each just
    before the stage it sizes.  A list of fewer than four counts makes
    it raise [IndexError]: no model is returned, and [xresnet] raises
    the same [IndexError] whatever [name] and [pre] are, before
    [model_urls] is looked at. *)

Theorem init_short_layers (state_dict : Type)
    (unpickle : string -> result state_dict)
    (copy_state : XResNet -> state_dict -> result XResNet)
    (block : block_class) (layers : list N) (kwargs : option N) (w : World) :
  returns block ->
  (length layers < 4)%nat ->
  exists w',
    XResNet.__init__ block layers kwargs w = (Raise IndexError, w') /\
    forall name pre,
      xresnet state_dict unpickle copy_state block layers name pre kwargs w
        = (Raise IndexError, w').
Proof.
  intros Hret Hlen.
  assert (H : fails (XResNet.__init__ block layers kwargs) w IndexError).
  { unfold XResNet.__init__. cbv zeta.
    fails_run conv_bn_relu_run. fails_run conv_bn_relu_run. fails_run conv_run.
    apply ensures_fails_bind, ensures_ret.
    destruct layers as [|n1 layers]; [missing_count|].
    fails_run @getitem_run. fails_after (make_layer_returns block). intros r1 w1 _.
    destruct layers as [|n2 layers]; [missing_count|].
    fails_run @getitem_run. fails_after (make_layer_returns block). intros r2 w2 _.
    destruct layers as [|n3 layers]; [missing_count|].
    fails_run @getitem_run. fails_after (make_layer_returns block). intros r3 w3 _.
    destruct layers as [|n4 layers]; [missing_count | simpl in Hlen; lia]. }
  destruct H as (w' & E). exists w'. split; [exact E|].
  intros name pre. rewrite xresnet_run, E. reflexivity.
Qed.

Lemma init_short_layers_witness :
  exists w',
    XResNet.__init__ Bottleneck_class [3; 4; 6] None w0 = (Raise IndexError, w') /\
    forall name pre,
      xresnet unit any_file keep_model Bottleneck_class [3; 4; 6] name pre None w0
        = (Raise IndexError, w').
Proof.
  apply (init_short_layers unit any_file keep_model Bottleneck_class [3; 4; 6] None w0).
  - intros ni nf stride downsample w. do 2 eexists. reflexivity.
  - simpl. lia.
Defined.

(** X3.  Counts after the fourth are never read: the list may be longer
    than four, and what it holds from index 4 on changes nothing. *)

Theorem init_reads_four_counts (block : block_class) (layers : list N)
    (kwargs : option N) (w : World) :
  XResNet.__init__ block layers kwargs w
    = XResNet.__init__ block (take 4 layers) kwargs w.
Proof.
  destruct layers as [|n1 [|n2 [|n3 [|n4 tl]]]]; reflexivity.
Qed.

(** ** The network, stage by stage *)

Lemma make_layer_built block self_ni nf blocks stride w :
  repo_class block ->
  ensures (XResNet._make_layer self_ni block nf blocks stride) w
    (fun r _ => r.2 = nf * expansion block /\
                built_stage block self_ni nf stride blocks r.1 /\
                Forall (fun b => headed_by_BatchNorm2d (final_path b)) r.1).
Proof.
  intros Hrepo. apply ensures_exists.
  destruct (make_layer_run block self_ni nf blocks stride w
              (repo_class_returns block Hrepo))
    as (b0 & rest & w' & E & Hlen & H0 & Hrest).
  exists (b0 :: rest, nf * expansion block), w'. split; [exact E|].
  cbn [fst snd]. split; [reflexivity|]. split.
  - exists (generator w), b0, rest. repeat split; assumption.
  - constructor.
    + now destruct (repo_block_attributes _ _ _ _ _ _ Hrepo H0) as (_ & _ & ?).
    + eapply Forall_impl; [exact Hrest|]. intros b Hb.
      now destruct (repo_block_attributes _ _ _ _ _ _ Hrepo Hb) as (_ & _ & ?).
Qed.

(** The four stages of a constructed network have the architecture of
    what four calls of [_make_layer] put together. *)

Lemma init_assembled block layers kwargs w n1 n2 n3 n4 :
  repo_class block ->
  layers !! 0%nat = Some n1 -> layers !! 1%nat = Some n2 ->
  layers !! 2%nat = Some n3 -> layers !! 3%nat = Some n4 ->
  let e := expansion block in
  ensures (XResNet.__init__ block layers kwargs) w
    (fun m _ =>
       exists s1 s2 s3 s4,
         (built_stage block 64 64 1 n1 s1 /\
          architecture_block <$> layer1 m = architecture_block <$> s1) /\
         (built_stage block (64 * e) 128 2 n2 s2 /\
          architecture_block <$> layer2 m = architecture_block <$> s2) /\
         (built_stage block (128 * e) 256 2 n3 s3 /\
          architecture_block <$> layer3 m = architecture_block <$> s3) /\
         (built_stage block (256 * e) 512 2 n4 s4 /\
          architecture_block <$> layer4 m = architecture_block <$> s4)).
Proof.
  intros Hrepo H1 H2 H3 H4 e. subst e.
  destruct layers as [|? [|? [|? [|? tl]]]]; try discriminate.
  cbn in H1, H2, H3, H4.
  injection H1 as ->. injection H2 as ->. injection H3 as ->. injection H4 as ->.
  unfold XResNet.__init__. cbv zeta.
  run conv_bn_relu_run. run conv_bn_relu_run. run conv_run. pure.
  run @getitem_run.
  after (make_layer_built block 64 64 n1 1). { exact Hrepo. }
  intros [l1 s1] wa (-> & Hb1 & Hh1). cbn [fst snd] in *.
  run @getitem_run.
  after (make_layer_built block (64 * expansion block) 128 n2 2). { exact Hrepo. }
  intros [l2 s2] wb (-> & Hb2 & Hh2). cbn [fst snd] in *.
  run @getitem_run.
  after (make_layer_built block (128 * expansion block) 256 n3 2). { exact Hrepo. }
  intros [l3 s3] wc (-> & Hb3 & Hh3). cbn [fst snd] in *.
  run @getitem_run.
  after (make_layer_built block (256 * expansion block) 512 n4 2). { exact Hrepo. }
  intros [l4 s4] wd (-> & Hb4 & Hh4). cbn [fst snd] in *.
  pure. pure. pure. run Linear_run. pure.
  eapply ensures_mono.
  { apply initialisation_ok. repeat split; cbn [conv1 conv2 conv3 maxpool layer1
      layer2 layer3 layer4 avgpool fc]; try assumption;
      repeat constructor. }
  cbv beta. intros m w' [E _].
  pose proof (f_equal layer1 E) as E5. pose proof (f_equal layer2 E) as E6.
  pose proof (f_equal layer3 E) as E7. pose proof (f_equal layer4 E) as E8.
  cbn [architecture map_fill layer1 layer2 layer3 layer4] in E5, E6, E7, E8.
  exists l1, l2, l3, l4. repeat split; assumption.
Qed.

Lemma ensures_and {A} (c : M A) w (Q1 Q2 : A -> World -> Prop) :
  ensures c w Q1 -> ensures c w Q2 -> ensures c w (fun a w' => Q1 a w' /\ Q2 a w').
Proof. unfold ensures. destruct (c w) as [[a|e] w']; tauto. Qed.

(** What two blocks of the same architecture share. *)

Lemma same_architecture_fmap {B} (f : block_instance -> B) :
  (forall b b', architecture_block b = architecture_block b' -> f b = f b') ->
  forall s s' : list block_instance,
    architecture_block <$> s = architecture_block <$> s' -> f <$> s = f <$> s'.
Proof.
  intros Hf s. induction s as [|b s IH]; intros [|b' s'] E; try discriminate E;
    [reflexivity|].
  cbn [fmap list_fmap] in E |- *. injection E as Eb Es.
  now rewrite (Hf b b' Eb), (IH s' Es).
Qed.

Lemma same_architecture_Forall (P : block_instance -> Prop) :
  (forall b b', architecture_block b = architecture_block b' -> P b' -> P b) ->
  forall s s' : list block_instance,
    architecture_block <$> s = architecture_block <$> s' -> Forall P s' -> Forall P s.
Proof.
  intros HP s. induction s as [|b s IH]; intros [|b' s'] E H; try discriminate E;
    [constructor|].
  cbn [fmap list_fmap] in E. injection E as Eb Es.
  inversion H as [|? ? Hb Hs]; subst.
  constructor; [now apply (HP b b') | now apply (IH s')].
Qed.

Lemma stride_of_architecture b b' :
  architecture_block b = architecture_block b' -> stride_of b = stride_of b'.
Proof. destruct b, b'; simpl; intros E; try discriminate E; now injection E. Qed.

Lemma downsample_architecture_same b b' :
  architecture_block b = architecture_block b' ->
  downsample_architecture b = downsample_architecture b'.
Proof.
  unfold downsample_architecture.
  destruct b, b'; simpl; intros E; try discriminate E; now injection E.
Qed.

Lemma fmap_constant {A B} (f : A -> B) (c : B) (l : list A) :
  Forall (fun x => f x = c) l -> f <$> l = replicate (length l) c.
Proof.
  induction 1 as [|x l Hx _ IH]; [reflexivity|].
  cbn [fmap list_fmap length replicate]. now rewrite Hx, IH.
Qed.

(** Strides and downsample modules along a stage. *)

Lemma built_stage_layout block c_in nf stride blocks stage :
  repo_class block ->
  built_stage block c_in nf stride blocks stage ->
  stride_of <$> stage = along_stage stride blocks 1 /\
  exists g,
    downsample_of <$> stage =
      along_stage (expected_downsample c_in (nf * expansion block) stride g)
                  blocks None.
Proof.
  intros Hrepo (g & b0 & rest & -> & Hlen & H0 & Hrest).
  destruct (repo_block_attributes _ _ _ _ _ _ Hrepo H0) as (Hs0 & Hd0 & _).
  unfold along_stage. cbn [fmap list_fmap].
  rewrite Hs0, Hd0, <- Hlen. split; [|exists g]; f_equal.
  - apply fmap_constant. eapply Forall_impl; [exact Hrest|]. intros b Hb.
    now destruct (repo_block_attributes _ _ _ _ _ _ Hrepo Hb) as (? & _).
  - apply fmap_constant. eapply Forall_impl; [exact Hrest|]. intros b Hb.
    now destruct (repo_block_attributes _ _ _ _ _ _ Hrepo Hb) as (_ & ? & _).
Qed.

Lemma stage_layout block c_in nf stride blocks stage' stage :
  repo_class block ->
  built_stage block c_in nf stride blocks stage' /\
  architecture_block <$> stage = architecture_block <$> stage' ->
  stride_of <$> stage = along_stage stride blocks 1 /\
  exists g,
    downsample_architecture <$> stage =
      along_stage
        (architecture_seq <$> expected_downsample c_in (nf * expansion block) stride g)
        blocks None.
Proof.
  intros Hrepo [Hb E].
  destruct (built_stage_layout _ _ _ _ _ _ Hrepo Hb) as (Hs & g & Hd).
  rewrite (same_architecture_fmap _ stride_of_architecture _ _ E).
  rewrite (same_architecture_fmap _ downsample_architecture_same _ _ E).
  split; [exact Hs|]. exists g.
  change downsample_architecture with (fmap architecture_seq ∘ downsample_of).
  rewrite list_fmap_compose, Hd. unfold along_stage. cbn [fmap list_fmap]. f_equal.
  now rewrite fmap_replicate.
Qed.

(** X4.  The four stages of a constructed network.  In each, only the
    first block can have a stride other than 1 and a downsample module:
    the first block of [layer2], [layer3] and [layer4] has stride 2 and
    the downsample module [AvgPool2d(2, 2)], 1x1 convolution, batch
    norm; the first block of [layer1] has stride 1, and a downsample
    module (without pooling) exactly when the block class has an
    expansion other than 1, that is for [Bottleneck].  Stage [i] has
    [max(layers[i], 1)] blocks. *)

Theorem network_layout (block : block_class) (layers : list N)
    (kwargs : option N) (w : World) (n1 n2 n3 n4 : N) :
  repo_class block ->
  layers !! 0%nat = Some n1 -> layers !! 1%nat = Some n2 ->
  layers !! 2%nat = Some n3 -> layers !! 3%nat = Some n4 ->
  let e := expansion block in
  let conv1x1 c_in c_out :=
    [Conv2d c_in c_out 1 1 0 Empty None; BatchNorm2d c_out Empty Empty] in
  let pooled c_in c_out := Some (AvgPool2d 2 2 :: conv1x1 c_in c_out) in
  exists m w',
    XResNet.__init__ block layers kwargs w = (Ok m, w') /\
    (stride_of <$> layer1 m = along_stage 1 n1 1 /\
     stride_of <$> layer2 m = along_stage 2 n2 1 /\
     stride_of <$> layer3 m = along_stage 2 n3 1 /\
     stride_of <$> layer4 m = along_stage 2 n4 1) /\
    (downsample_architecture <$> layer1 m =
       along_stage (if decide (e = 1) then None else Some (conv1x1 64 (64 * e)))
                   n1 None /\
     downsample_architecture <$> layer2 m =
       along_stage (pooled (64 * e) (128 * e)) n2 None /\
     downsample_architecture <$> layer3 m =
       along_stage (pooled (128 * e) (256 * e)) n3 None /\
     downsample_architecture <$> layer4 m =
       along_stage (pooled (256 * e) (512 * e)) n4 None) /\
    (length (layer1 m) = N.to_nat (N.max 1 n1) /\
     length (layer2 m) = N.to_nat (N.max 1 n2) /\
     length (layer3 m) = N.to_nat (N.max 1 n3) /\
     length (layer4 m) = N.to_nat (N.max 1 n4)).
Proof.
  intros Hrepo H1 H2 H3 H4 e conv1x1 pooled.
  destruct (proj1 (ensures_exists _ _ _)
              (init_assembled block layers kwargs w n1 n2 n3 n4 Hrepo H1 H2 H3 H4))
    as (m & w' & E & s1 & s2 & s3 & s4 & L1 & L2 & L3 & L4).
  apply (stage_layout _ _ _ _ _ _ _ Hrepo) in L1 as (S1 & g1 & D1).
  apply (stage_layout _ _ _ _ _ _ _ Hrepo) in L2 as (S2 & g2 & D2).
  apply (stage_layout _ _ _ _ _ _ _ Hrepo) in L3 as (S3 & g3 & D3).
  apply (stage_layout _ _ _ _ _ _ _ Hrepo) in L4 as (S4 & g4 & D4).
  assert (Hlen : forall (s : list block_instance) stride n,
             stride_of <$> s = along_stage stride n 1 ->
             length s = N.to_nat (N.max 1 n)).
  { intros s stride n Hs. apply (f_equal length) in Hs.
    rewrite length_fmap in Hs. rewrite Hs. unfold along_stage. cbn [length].
    rewrite length_replicate. lia. }
  assert (Hpool : forall c_in c_out g,
             architecture_seq <$> expected_downsample c_in c_out 2 g
             = pooled c_in c_out).
  { intros c_in c_out g. unfold expected_downsample.
    repeat case_decide; try reflexivity; try congruence.
    exfalso. apply H. now left. }
  rewrite Hpool in D2, D3, D4.
  exists m, w'. split; [exact E|]. split; [|split].
  - repeat split; assumption.
  - repeat split; try assumption. rewrite D1. unfold along_stage. f_equal.
    unfold expected_downsample. fold e. subst conv1x1.
    repeat case_decide; try reflexivity; try lia.
  - repeat split; eapply Hlen; eassumption.
Qed.

Lemma network_layout_witness :
  exists m w',
    XResNet.__init__ Bottleneck_class [3; 4; 6; 3] None w0 = (Ok m, w') /\
    (stride_of <$> layer1 m = [1; 1; 1] /\
     stride_of <$> layer2 m = [2; 1; 1; 1]) /\
    (downsample_architecture <$> layer1 m =
       [Some [Conv2d 64 256 1 1 0 Empty None; BatchNorm2d 256 Empty Empty];
        None; None] /\
     downsample_architecture <$> layer2 m =
       [Some [AvgPool2d 2 2; Conv2d 256 512 1 1 0 Empty None;
              BatchNorm2d 512 Empty Empty];
        None; None; None]) /\
    length (layer3 m) = 6%nat.
Proof.
  destruct (network_layout Bottleneck_class [3; 4; 6; 3] None w0 3 4 6 3
              (or_intror eq_refl) eq_refl eq_refl eq_refl eq_refl)
    as (m & w' & E & (S1 & S2 & _) & (D1 & D2 & _) & (_ & _ & L3 & _)).
  exists m, w'. split; [exact E|].
  split; [split; [exact S1 | exact S2]|]. split; [split; [exact D1 | exact D2]|].
  exact L3.
Defined.

(** ** Constructor arguments of the primitive layers *)

Lemma as_constructed_architecture a b :
  architecture_layer a = architecture_layer b -> as_constructed b -> as_constructed a.
Proof.
  destruct a as [? ? ? ? ? ? [?|] | | | | | | | ],
           b as [? ? ? ? ? ? [?|] | | | | | | | ];
    simpl; intros E H; try discriminate E; try exact H;
    injection E; intros; subst; try exact H; try reflexivity.
  destruct H as [H _]. discriminate H.
Qed.

Lemma Forall_same_architecture (P : layer -> Prop) :
  (forall a b, architecture_layer a = architecture_layer b -> P b -> P a) ->
  forall x y : list layer,
    architecture_seq x = architecture_seq y -> Forall P y -> Forall P x.
Proof.
  intros HP x. induction x as [|a x IH]; intros [|b y] E H; try discriminate E;
    [constructor|].
  unfold architecture_seq, map_fill_seq in E. cbn [fmap list_fmap] in E.
  injection E as Ea Ex. inversion H as [|? ? Hb Hy]; subst.
  constructor; [now apply (HP a b) | now apply (IH y)].
Qed.

Lemma all_layers_block_same_architecture (P : layer -> Prop) :
  (forall a b, architecture_layer a = architecture_layer b -> P b -> P a) ->
  forall b b',
    architecture_block b = architecture_block b' ->
    all_layers_block P b' -> all_layers_block P b.
Proof.
  intros HP b b' E (Hin & Hfin & Hd). unfold all_layers_block.
  pose proof (Forall_same_architecture P HP) as HF.
  destruct b as [c1 c2 d s | c1 c2 c3 d s], b' as [c1' c2' d' s' | c1' c2' c3' d' s'];
    try discriminate E; simpl in *.
  - injection E as E1 E2 E3 _.
    inversion Hin as [|? ? H1 _]; subst. repeat split.
    + repeat constructor. now apply (HF c1 c1').
    + now apply (HF c2 c2').
    + destruct d as [d|], d' as [d'|]; try discriminate E3; [|exact I].
      injection E3 as E3. now apply (HF d d').
  - injection E as E1 E2 E3 E4 _.
    inversion Hin as [|? ? H1 Hin']; subst. inversion Hin' as [|? ? H2 _]; subst.
    repeat split.
    + repeat constructor; [now apply (HF c1 c1') | now apply (HF c2 c2')].
    + now apply (HF c3 c3').
    + destruct d as [d|], d' as [d'|]; try discriminate E4; [|exact I].
      injection E4 as E4. now apply (HF d d').
Qed.

Ltac each_layer :=
  repeat first [ apply Forall_nil_2 | apply Forall_cons_2 ];
  simpl; repeat split; auto.

Lemma constructed_as_constructed block ni nf stride downsample b :
  repo_class block ->
  stride = 1 \/ stride = 2 ->
  match downsample with
  | Some d => Forall as_constructed d
  | None => True
  end ->
  constructed_by block ni nf stride downsample b ->
  all_layers_block as_constructed b.
Proof.
  intros [->| ->] Hs Hd (w & w' & E); simpl in E.
  - rewrite BasicBlock_init_run in E. inversion E; subst.
    repeat split; simpl; try exact Hd; each_layer.
  - rewrite Bottleneck_init_run in E. inversion E; subst.
    repeat split; simpl; try exact Hd; each_layer.
Qed.

Lemma expected_downsample_as_constructed c_in c_out stride g :
  match expected_downsample c_in c_out stride g with
  | Some d => Forall as_constructed d
  | None => True
  end.
Proof.
  unfold expected_downsample. repeat case_decide; try exact I; each_layer.
Qed.

Lemma stage_as_constructed block c_in nf stride blocks stage' stage :
  repo_class block ->
  stride = 1 \/ stride = 2 ->
  built_stage block c_in nf stride blocks stage' /\
  architecture_block <$> stage = architecture_block <$> stage' ->
  Forall (all_layers_block as_constructed) stage.
Proof.
  intros Hrepo Hs [(g & b0 & rest & -> & _ & H0 & Hrest) E].
  apply (same_architecture_Forall _
           (all_layers_block_same_architecture _ as_constructed_architecture) _ _ E).
  constructor.
  - apply (constructed_as_constructed _ _ _ _ _ _ Hrepo Hs
             (expected_downsample_as_constructed _ _ _ _) H0).
  - eapply Forall_impl; [exact Hrest|]. intros b Hb.
    exact (constructed_as_constructed _ _ _ _ None _ Hrepo (or_introl eq_refl) I Hb).
Qed.

(** X5.  Every convolution of a constructed network was made by [conv]
    with [bias] left at its default: it has no bias tensor, so
    [init_cnn] never takes its [bias is not None] branch on it; its
    padding is half its kernel size, its kernel size 1 or 3 and its
    stride 1 or 2.  Every [ReLU] is in place, and the pools are
    [MaxPool2d(3, 2, 1)], [AvgPool2d(2, 2)] and
    [AdaptiveAvgPool2d(1)]. *)

Theorem layers_as_constructed (block : block_class) (layers : list N)
    (kwargs : option N) (w : World) :
  repo_class block ->
  (4 <= length layers)%nat ->
  exists m w',
    XResNet.__init__ block layers kwargs w = (Ok m, w') /\
    all_layers as_constructed m.
Proof.
  intros Hrepo Hlen.
  destruct layers as [|n1 [|n2 [|n3 [|n4 tl]]]] eqn:El; simpl in Hlen; try lia.
  rewrite <- El in *.
  assert (H1 : layers !! 0%nat = Some n1) by now rewrite El.
  assert (H2 : layers !! 1%nat = Some n2) by now rewrite El.
  assert (H3 : layers !! 2%nat = Some n3) by now rewrite El.
  assert (H4 : layers !! 3%nat = Some n4) by now rewrite El.
  assert (Hlen' : (4 <= length layers)%nat) by (rewrite El; simpl; lia).
  pose proof (ensures_and _ _ _ _
                (init_ok block layers kwargs w Hrepo Hlen')
                (init_assembled block layers kwargs w n1 n2 n3 n4 Hrepo H1 H2 H3 H4))
    as H.
  apply ensures_exists in H
    as (m & w' & E & (_ & Hstem & Hhead & _) & s1 & s2 & s3 & s4 & L1 & L2 & L3 & L4).
  exists m, w'. split; [exact E|].
  destruct Hstem as (S1 & S2 & S3 & S4). destruct Hhead as (Ha & Hfc).
  pose proof (Forall_same_architecture _ as_constructed_architecture) as HF.
  unfold all_layers, forall_model. repeat split.
  - apply (HF _ [Conv2d 3 32 3 2 1 Empty None; ReLU true; BatchNorm2d 32 Empty Empty]
             S1).
    each_layer.
  - apply (HF _ [Conv2d 32 32 3 1 1 Empty None; ReLU true; BatchNorm2d 32 Empty Empty]
             S2).
    each_layer.
  - apply (as_constructed_architecture _ (Conv2d 32 64 3 1 1 Empty None) S3).
    simpl. repeat split; auto.
  - rewrite S4. simpl. repeat split.
  - apply (stage_as_constructed _ _ _ _ _ _ _ Hrepo (or_introl eq_refl) L1).
  - apply (stage_as_constructed _ _ _ _ _ _ _ Hrepo (or_intror eq_refl) L2).
  - apply (stage_as_constructed _ _ _ _ _ _ _ Hrepo (or_intror eq_refl) L3).
  - apply (stage_as_constructed _ _ _ _ _ _ _ Hrepo (or_intror eq_refl) L4).
  - rewrite Ha. reflexivity.
  - apply (HF _ [ReLU true; BatchNorm1d _ Empty Empty; Linear _ _ Empty Empty] Hfc).
    each_layer.
Qed.

Lemma layers_as_constructed_witness :
  exists m w',
    XResNet.__init__ BasicBlock_class [3; 4; 6; 3] (Some 10) w0 = (Ok m, w') /\
    all_layers as_constructed m.
Proof.
  apply layers_as_constructed; [left; reflexivity | simpl; lia].
Defined.

(** ** A freshly constructed network, as a function *)

Lemma block_forward_operands {tensor : Type}
    (call : layer -> tensor -> tensor) (iadd : tensor -> tensor -> tensor) b x :
  block_forward call iadd b x =
  iadd (conv_paths_forward call b x) (identity_path call b x).
Proof. destruct b; reflexivity. Qed.

Lemma final_bn_relu_conv_architecture b b' :
  architecture_block b = architecture_block b' ->
  final_bn_relu_conv b' -> final_bn_relu_conv b.
Proof.
  intros E (n & i & o & k & s & p & H). exists n, i, o, k, s, p. rewrite <- H.
  destruct b, b'; try discriminate E; simpl in *; now injection E.
Qed.

Lemma constructed_final_bn_relu_conv block ni nf stride downsample b :
  repo_class block ->
  constructed_by block ni nf stride downsample b -> final_bn_relu_conv b.
Proof.
  intros [->| ->] (w & w' & E); simpl in E.
  - rewrite BasicBlock_init_run in E. inversion E; subst.
    now exists nf, nf, nf, 3, 1, 1.
  - rewrite Bottleneck_init_run in E. inversion E; subst.
    now exists nf, nf, (nf * 4), 1, 1, 0.
Qed.

Lemma stage_final_bn_relu_conv block c_in nf stride blocks stage' stage :
  repo_class block ->
  built_stage block c_in nf stride blocks stage' /\
  architecture_block <$> stage = architecture_block <$> stage' ->
  Forall final_bn_relu_conv stage.
Proof.
  intros Hrepo [(g & b0 & rest & -> & _ & H0 & Hrest) E].
  apply (same_architecture_Forall _ final_bn_relu_conv_architecture _ _ E).
  constructor; [now apply (constructed_final_bn_relu_conv _ _ _ _ _ _ Hrepo H0)|].
  eapply Forall_impl; [exact Hrest|]. intros b.
  now apply constructed_final_bn_relu_conv.
Qed.

Lemma initialised_zero_final_path b :
  initialised_block b -> final_bn_relu_conv b -> zero_final_path b.
Proof.
  intros (_ & Hi & _) (n & i & o & k & s & p & Ha).
  destruct (architecture_seq_three _ _ _ _ Ha) as (bn & r & cv & E & Abn & Ar & Acv).
  rewrite E in Hi. destruct Hi as (_ & H0 & Hrest).
  inversion Hrest as [|? ? _ Hrest']; subst.
  inversion Hrest' as [|? ? Hcv _]; subst.
  destruct bn as [ | | n' weight bias | | | | | ]; try discriminate Abn.
  destruct H0 as [-> ->]. injection Abn as ->.
  destruct r as [ | inplace | | | | | | ]; try discriminate Ar. injection Ar as ->.
  destruct cv as [i' o' k' s' p' weight [bias|] | | | | | | | ]; try discriminate Acv.
  destruct Hcv as [[g ->] _].
  exists n, i', o', k', s', p', g. exact E.
Qed.

Section ZeroInit.

(** What is asked of the framework: a batch norm whose weight and bias
    are 0 turns a finite tensor into a zero tensor, [ReLU] and a
    convolution without bias whose weight was drawn by [kaiming_normal_]
    map a zero tensor to a zero tensor, and [x += identity] on a zero
    [x] of the shape of [identity] gives [identity].  A tensor is
    [finite] when its entries are finite numbers and so are the mean and
    variance a batch norm takes of them: multiplied by the weight 0,
    anything else would not give 0. *)

Variable tensor : Type.
Variable call : layer -> tensor -> tensor.
Variable iadd : tensor -> tensor -> tensor.
Variable zero : tensor -> Prop.
Variable finite : tensor -> Prop.
Variable same_shape : tensor -> tensor -> Prop.

Hypothesis batch_norm_zero :
  forall n x, finite x -> zero (call (BatchNorm2d n (Constant 0) (Constant 0)) x).
Hypothesis relu_zero :
  forall inplace x, zero x -> zero (call (ReLU inplace) x).
Hypothesis conv_zero :
  forall i o k s p g x,
    zero x -> zero (call (Conv2d i o k s p (KaimingNormal g) None) x).
Hypothesis iadd_zero :
  forall x identity, zero x -> same_shape x identity -> iadd x identity = identity.

Lemma zero_final_path_forward b x :
  zero_final_path b -> finite (inner_paths_forward call b x) ->
  zero (conv_paths_forward call b x).
Proof.
  intros (n & i & o & k & s & p & g & E) Hx. unfold conv_paths_forward.
  rewrite E. unfold Sequential_forward at 1. cbn [fold_left].
  now apply conv_zero, relu_zero, batch_norm_zero.
Qed.

(** X6.  [XResNet.__init__] fills with 0 the weight of the batch norm
    that heads the last conv path of every block, [init_cnn] its bias,
    and the convolution that ends the path has no bias: in a constructed
    network the last conv path of every block is a batch norm of weight
    0 and bias 0, a [ReLU] and a convolution without bias.  In a
    framework as asked for above the path returns a zero tensor whenever
    what it is given is finite, so that the block adds its identity
    operand to zeros, and returns the identity operand whenever the two
    have the same shape. *)

Theorem fresh_network_skips_conv_paths (block : block_class) (layers : list N)
    (kwargs : option N) (w : World) :
  repo_class block ->
  (4 <= length layers)%nat ->
  exists m w',
    XResNet.__init__ block layers kwargs w = (Ok m, w') /\
    Forall (fun b =>
              zero_final_path b /\
              forall x,
                block_forward call iadd b x
                = iadd (conv_paths_forward call b x) (identity_path call b x) /\
                (finite (inner_paths_forward call b x) ->
                 zero (conv_paths_forward call b x) /\
                 (same_shape (conv_paths_forward call b x) (identity_path call b x) ->
                  block_forward call iadd b x = identity_path call b x)))
           (layer1 m ++ layer2 m ++ layer3 m ++ layer4 m).
Proof.
  intros Hrepo Hlen.
  destruct layers as [|n1 [|n2 [|n3 [|n4 tl]]]] eqn:El; simpl in Hlen; try lia.
  rewrite <- El in *.
  assert (H1 : layers !! 0%nat = Some n1) by now rewrite El.
  assert (H2 : layers !! 1%nat = Some n2) by now rewrite El.
  assert (H3 : layers !! 2%nat = Some n3) by now rewrite El.
  assert (H4 : layers !! 3%nat = Some n4) by now rewrite El.
  assert (Hlen' : (4 <= length layers)%nat) by (rewrite El; simpl; lia).
  pose proof (ensures_and _ _ _ _
                (init_ok block layers kwargs w Hrepo Hlen')
                (init_assembled block layers kwargs w n1 n2 n3 n4 Hrepo H1 H2 H3 H4))
    as H.
  apply ensures_exists in H
    as (m & w' & E & (Hinit & _) & s1 & s2 & s3 & s4 & L1 & L2 & L3 & L4).
  exists m, w'. split; [exact E|].
  destruct Hinit as (_ & _ & _ & _ & I1 & I2 & I3 & I4 & _).
  assert (Hblocks : forall stage c_in nf stride n s,
             Forall initialised_block stage ->
             built_stage block c_in nf stride n s /\
             architecture_block <$> stage = architecture_block <$> s ->
             Forall zero_final_path stage).
  { intros stage c_in nf stride n s Hi L.
    pose proof (stage_final_bn_relu_conv _ _ _ _ _ _ _ Hrepo L) as Hshape.
    apply Forall_forall. intros b Hb.
    apply initialised_zero_final_path.
    - now apply (proj1 (Forall_forall _ _) Hi).
    - now apply (proj1 (Forall_forall _ _) Hshape). }
  assert (Hall : Forall zero_final_path
                   (layer1 m ++ layer2 m ++ layer3 m ++ layer4 m)).
  { rewrite !Forall_app. repeat split; eapply Hblocks; eassumption. }
  eapply Forall_impl; [exact Hall|]. intros b Hb. split; [exact Hb|]. intros x.
  split; [apply block_forward_operands|]. intros Hx.
  pose proof (zero_final_path_forward b x Hb Hx) as Hz.
  split; [exact Hz|]. intros Hs. rewrite block_forward_operands.
  now apply iadd_zero.
Qed.

End ZeroInit.

Lemma fresh_network_skips_conv_paths_witness :
  exists m w',
    XResNet.__init__ BasicBlock_class [2; 2; 2; 2] None w0 = (Ok m, w') /\
    Forall (fun b =>
              zero_final_path b /\
              forall x, block_forward int_call Z.add b x = identity_path int_call b x)
           (layer1 m ++ layer2 m ++ layer3 m ++ layer4 m).
Proof.
  destruct (fresh_network_skips_conv_paths Z int_call Z.add (fun x => x = 0%Z)
              (fun _ => True) (fun _ _ => True))
    with (block := BasicBlock_class) (layers := [2; 2; 2; 2]) (kwargs := @None N)
         (w := w0)
    as (m & w' & E & H).
  - intros n x _. reflexivity.
  - intros inplace x ->. reflexivity.
  - intros i o k s p g x ->. reflexivity.
  - intros x identity -> _. reflexivity.
  - left. reflexivity.
  - simpl. lia.
  - exists m, w'. split; [exact E|].
    eapply Forall_impl; [exact H|]. intros b [Hb Hx]. split; [exact Hb|].
    intros x. destruct (Hx x) as [_ Hid]. now apply Hid.
Defined.

(** ** [init_cnn] on any module *)

Lemma ensures_mapM_map {A A'} (f : A -> M A) (g : A -> A') (P : A -> Prop) :
  (forall x w, ensures (f x) w (fun y _ => g y = g x /\ P y)) ->
  forall xs w,
    ensures (mapM f xs) w (fun ys _ => g <$> ys = g <$> xs /\ Forall P ys).
Proof.
  intros Hf xs w.
  eapply ensures_mono.
  { apply (ensures_mapM f (fun _ => True) (fun x y => g y = g x /\ P y)).
    - intros x w1 _. apply Hf.
    - now apply Forall_forall. }
  cbv beta. intros ys _ H.
  induction H as [|x y xs' ys' [E Hy] _ [IHE IHP]]; [now split|].
  cbn [fmap list_fmap]. rewrite E, IHE. split; [reflexivity | now constructor].
Qed.

Lemma ensures_optM_map {A A'} (f : A -> M A) (g : A -> A') (P : A -> Prop) :
  (forall x w, ensures (f x) w (fun y _ => g y = g x /\ P y)) ->
  forall o w,
    ensures (optM f o) w
      (fun o' _ => g <$> o' = g <$> o /\
                   match o' with Some y => P y | None => True end).
Proof.
  intros Hf [x|] w; simpl.
  - after (Hf x w). intros y w1 [E Hy]. apply ensures_ret. simpl. now rewrite E.
  - now apply ensures_ret.
Qed.

Lemma for_children_block_map f (g : layer -> layer) (P : layer -> Prop) :
  (forall x w, ensures (f x) w (fun y _ => g y = g x /\ P y)) ->
  forall b w,
    ensures (for_children_block f b) w
      (fun b' _ => map_layers_block g b' = map_layers_block g b /\
                   all_layers_block P b').
Proof.
  intros Hf b w.
  pose proof (ensures_mapM_map f g P Hf) as Hseq.
  change (forall xs w,
            ensures (mapM f xs) w
              (fun ys _ => map_layers_seq g ys = map_layers_seq g xs /\ Forall P ys))
    in Hseq.
  pose proof (ensures_optM_map (mapM f) (map_layers_seq g) (Forall P) Hseq) as Hopt.
  destruct b as [c1 c2 d s | c1 c2 c3 d s]; unfold for_children_block.
  - after (Hseq c1 w). intros c1' w1 [E1 H1].
    after (Hseq c2 w1). intros c2' w2 [E2 H2].
    after (Hopt d w2). intros d' w3 [E3 H3].
    apply ensures_ret. simpl. rewrite E1, E2, E3.
    repeat split; try assumption. now repeat constructor.
  - after (Hseq c1 w). intros c1' w1 [E1 H1].
    after (Hseq c2 w1). intros c2' w2 [E2 H2].
    after (Hseq c3 w2). intros c3' w3 [E3 H3].
    after (Hopt d w3). intros d' w4 [E4 H4].
    apply ensures_ret. simpl. rewrite E1, E2, E3, E4.
    repeat split; try assumption. now repeat constructor.
Qed.

Lemma for_children_map fl fb (g : layer -> layer) (P : layer -> Prop) :
  (forall x w, ensures (fl x) w (fun y _ => g y = g x /\ P y)) ->
  (forall x w, ensures (fb x) w
                 (fun y _ => map_layers_block g y = map_layers_block g x /\
                             all_layers_block P y)) ->
  forall m w,
    ensures (for_children fl fb m) w
      (fun m' _ => map_layers g m' = map_layers g m /\ all_layers P m').
Proof.
  intros Hl Hb m w.
  pose proof (ensures_mapM_map fl g P Hl) as Hseq.
  change (forall xs w,
            ensures (mapM fl xs) w
              (fun ys _ => map_layers_seq g ys = map_layers_seq g xs /\ Forall P ys))
    in Hseq.
  pose proof (ensures_mapM_map fb (map_layers_block g) (all_layers_block P) Hb)
    as Hstage.
  unfold for_children.
  after (Hseq (conv1 m) w). intros c1 w1 [E1 Q1].
  after (Hseq (conv2 m) w1). intros c2 w2 [E2 Q2].
  after (Hl (conv3 m) w2). intros c3 w3 [E3 Q3].
  after (Hl (maxpool m) w3). intros mp w4 [E4 Q4].
  after (Hstage (layer1 m) w4). intros l1 w5 [E5 Q5].
  after (Hstage (layer2 m) w5). intros l2 w6 [E6 Q6].
  after (Hstage (layer3 m) w6). intros l3 w7 [E7 Q7].
  after (Hstage (layer4 m) w7). intros l4 w8 [E8 Q8].
  after (Hl (avgpool m) w8). intros ap w9 [E9 Q9].
  after (Hseq (fc m) w9). intros f w10 [E10 Q10].
  apply ensures_ret. split.
  - unfold map_layers; cbn [ni conv1 conv2 conv3 maxpool layer1 layer2
      layer3 layer4 avgpool fc].
    now rewrite E1, E2, E3, E4, E5, E6, E7, E8, E9, E10.
  - repeat split; assumption.
Qed.

Lemma init_cnn_layer_resets m w :
  ensures (init_cnn_layer m) w
    (fun m' _ => without_cnn_parameters m' = without_cnn_parameters m /\
                 cnn_ok false m').
Proof.
  destruct m as [i o k s p weight [b|] | | | | | | | ];
    unfold ensures; simpl; repeat split; eauto.
Qed.

Lemma init_cnn_run m w :
  exists m' w',
    init_cnn m w = (Ok m', w') /\
    map_layers without_cnn_parameters m' = map_layers without_cnn_parameters m /\
    all_layers (cnn_ok false) m'.
Proof.
  apply (proj1 (ensures_exists _ _ _)).
  apply for_children_map; [apply init_cnn_layer_resets|].
  intros b w1. apply for_children_block_map, init_cnn_layer_resets.
Qed.

(** X7.  [init_cnn(m)] returns on every module.  It changes nothing but
    the contents of the parameters of the [Conv2d] and [BatchNorm2d]
    layers below [m]: layer types, constructor arguments, whether a
    convolution has a bias, and every [Linear], [BatchNorm1d], [ReLU]
    and pool stay as they were.  Afterwards every [Conv2d] weight is
    Kaiming-normal and its bias, if any, 0, and every [BatchNorm2d] has
    weight 1 and bias 0, whatever they held before. *)


(** Two modules that agree on [g] and satisfy [P] layer by layer agree
    on [f], when that holds of every two layers. *)

Section Lift.

Variables (g f : layer -> layer) (P : layer -> Prop).
Hypothesis layerwise : forall x y, g x = g y -> P x -> P y -> f x = f y.

Lemma map_layers_seq_lift (xs ys : Sequential layer) :
  map_layers_seq g xs = map_layers_seq g ys -> Forall P xs -> Forall P ys ->
  map_layers_seq f xs = map_layers_seq f ys.
Proof.
  unfold map_layers_seq. revert ys.
  induction xs as [|x xs IH]; intros [|y ys] E Hx Hy; try discriminate E;
    [reflexivity|].
  cbn [fmap list_fmap] in E |- *. injection E as E0 E.
  inversion Hx; subst. inversion Hy; subst.
  f_equal; [now apply layerwise | now apply IH].
Qed.

Lemma map_layers_option_lift (d d' : option (Sequential layer)) :
  map_layers_seq g <$> d = map_layers_seq g <$> d' ->
  match d with Some c => Forall P c | None => True end ->
  match d' with Some c => Forall P c | None => True end ->
  map_layers_seq f <$> d = map_layers_seq f <$> d'.
Proof.
  destruct d as [c|], d' as [c'|]; simpl; intros E H H'; try discriminate E;
    [|reflexivity].
  injection E as E. f_equal. now apply map_layers_seq_lift.
Qed.

Lemma map_layers_block_lift b b' :
  map_layers_block g b = map_layers_block g b' ->
  all_layers_block P b -> all_layers_block P b' ->
  map_layers_block f b = map_layers_block f b'.
Proof.
  intros E (Hin & Hfin & Hd) (Hin' & Hfin' & Hd').
  destruct b as [c1 c2 d s | c1 c2 c3 d s], b' as [c1' c2' d' s' | c1' c2' c3' d' s'];
    try discriminate E; simpl in *.
  - injection E as E1 E2 E3 ->.
    inversion Hin; subst. inversion Hin'; subst.
    f_equal; [now apply map_layers_seq_lift .. | now apply map_layers_option_lift].
  - injection E as E1 E2 E3 E4 ->.
    inversion Hin as [|? ? ? Hin2]; subst. inversion Hin2; subst.
    inversion Hin' as [|? ? ? Hin2']; subst. inversion Hin2'; subst.
    f_equal; [now apply map_layers_seq_lift .. | now apply map_layers_option_lift].
Qed.

Lemma map_layers_stage_lift (s s' : Sequential block_instance) :
  map_layers_block g <$> s = map_layers_block g <$> s' ->
  Forall (all_layers_block P) s -> Forall (all_layers_block P) s' ->
  map_layers_block f <$> s = map_layers_block f <$> s'.
Proof.
  revert s'. induction s as [|b s IH]; intros [|b' s'] E H H'; try discriminate E;
    [reflexivity|].
  cbn [fmap list_fmap] in E |- *. injection E as E0 E.
  inversion H; subst. inversion H'; subst.
  f_equal; [now apply map_layers_block_lift | now apply IH].
Qed.

Lemma map_layers_lift a b :
  map_layers g a = map_layers g b -> all_layers P a -> all_layers P b ->
  map_layers f a = map_layers f b.
Proof.
  intros E (A1 & A2 & A3 & A4 & A5 & A6 & A7 & A8 & A9 & A10)
           (B1 & B2 & B3 & B4 & B5 & B6 & B7 & B8 & B9 & B10).
  pose proof (f_equal conv1 E) as E1. pose proof (f_equal conv2 E) as E2.
  pose proof (f_equal conv3 E) as E3. pose proof (f_equal maxpool E) as E4.
  pose proof (f_equal layer1 E) as E5. pose proof (f_equal layer2 E) as E6.
  pose proof (f_equal layer3 E) as E7. pose proof (f_equal layer4 E) as E8.
  pose proof (f_equal avgpool E) as E9. pose proof (f_equal fc E) as E10.
  pose proof (f_equal ni E) as E0.
  cbn [map_layers ni conv1 conv2 conv3 maxpool layer1 layer2 layer3 layer4 avgpool fc]
    in E0, E1, E2, E3, E4, E5, E6, E7, E8, E9, E10.
  unfold map_layers. rewrite E0.
  f_equal; first [ now apply map_layers_seq_lift | now apply map_layers_stage_lift
                 | now apply layerwise ].
Qed.

End Lift.

Lemma map_fill_map_layers h m : map_fill h m = map_layers (map_fill_layer h) m.
Proof.
  unfold map_fill, map_layers. f_equal; apply list_fmap_ext; intros _ b _;
    destruct b; reflexivity.
Qed.

Lemma cnn_ok_forget_draw x y :
  without_cnn_parameters x = without_cnn_parameters y ->
  cnn_ok false x -> cnn_ok false y ->
  map_fill_layer forget_draw x = map_fill_layer forget_draw y.
Proof.
  destruct x as [? ? ? ? ? ? [?|] | | | | | | | ],
           y as [? ? ? ? ? ? [?|] | | | | | | | ];
    simpl; intros E Hx Hy; try discriminate E; try (now rewrite E);
    injection E; intros; subst; try reflexivity.
  - destruct Hx as [[gx ->] [Hx|Hx]], Hy as [[gy ->] [Hy|Hy]];
      try discriminate Hx; try discriminate Hy.
    injection Hx as ->. injection Hy as ->. reflexivity.
  - destruct Hx as [[gx ->] _], Hy as [[gy ->] _]. reflexivity.
  - destruct Hx as [-> ->], Hy as [-> ->]. reflexivity.
Qed.

Lemma init_cnn_resets_same m1 m2 w1 w2 r1 r2 w1' w2' :
  map_layers without_cnn_parameters m1 = map_layers without_cnn_parameters m2 ->
  init_cnn m1 w1 = (Ok r1, w1') -> init_cnn m2 w2 = (Ok r2, w2') ->
  map_fill forget_draw r1 = map_fill forget_draw r2.
Proof.
  intros Em E1 E2.
  destruct (init_cnn_run m1 w1) as (r1' & w1'' & E1' & M1 & O1).
  destruct (init_cnn_run m2 w2) as (r2' & w2'' & E2' & M2 & O2).
  rewrite E1 in E1'. injection E1' as <- <-.
  rewrite E2 in E2'. injection E2' as <- <-.
  rewrite !map_fill_map_layers.
  apply (map_layers_lift without_cnn_parameters _ (cnn_ok false) cnn_ok_forget_draw);
    [congruence | exact O1 | exact O2].
Qed.

(** X8.  What [init_cnn] leaves behind does not depend on what the
    [Conv2d] and [BatchNorm2d] parameters held: run on two modules that
    differ only there, from any two generator states, it returns modules
    that differ only in which draws the Kaiming fills came from. *)



(** X9.  Running [init_cnn] a second time changes nothing but the
    draws. *)

Theorem init_cnn_idempotent (m : XResNet) (w : World) :
  exists m1 w1 m2 w2,
    init_cnn m w = (Ok m1, w1) /\ init_cnn m1 w1 = (Ok m2, w2) /\
    map_fill forget_draw m2 = map_fill forget_draw m1.
Proof.
  destruct (init_cnn_run m w) as (m1 & w1 & E1 & M1 & _).
  destruct (init_cnn_run m1 w1) as (m2 & w2 & E2 & M2 & _).
  exists m1, w1, m2, w2. split; [exact E1|]. split; [exact E2|].
  apply (init_cnn_resets_same m1 m w1 w m2 m1 w2 w1 M1 E2 E1).
Qed.

(** ** [init_cnn] on a constructed network *)

Lemma fmap_eq_Forall {A B} (g : A -> B) (P Q : A -> Prop) :
  (forall x y, g x = g y -> P y -> Q x) ->
  forall xs ys : list A, g <$> xs = g <$> ys -> Forall P ys -> Forall Q xs.
Proof.
  intros H xs. induction xs as [|x xs IH]; intros [|y ys] E Hy; try discriminate E;
    [constructor|].
  cbn [fmap list_fmap] in E. injection E as E0 E. inversion Hy; subst.
  constructor; [now apply (H x y) | now apply (IH ys)].
Qed.

Lemma final_path_map_layers g b :
  final_path (map_layers_block g b) = map_layers_seq g (final_path b).
Proof. destruct b; reflexivity. Qed.

(** The head of the last conv path after [init_cnn], on a block whose
    last conv path started with a batch norm. *)

Lemma reset_final_head b b' :
  map_layers_block without_cnn_parameters b'
    = map_layers_block without_cnn_parameters b ->
  initialised_block b ->
  all_layers_block (cnn_ok false) b' ->
  exists n rest, final_path b' = BatchNorm2d n (Constant 1) (Constant 0) :: rest.
Proof.
  intros E (_ & Hfin & _) (_ & Hok & _).
  apply (f_equal final_path) in E. rewrite !final_path_map_layers in E.
  destruct (final_path b) as [|m0 rest]; [contradiction|].
  destruct Hfin as (Hbn & _).
  destruct m0 as [ | | n weight bias | | | | | ]; try contradiction.
  destruct (final_path b') as [|m0' rest']; [discriminate E|].
  unfold map_layers_seq in E. cbn [fmap list_fmap] in E. injection E as E0 _.
  inversion Hok as [|? ? H0 _]; subst.
  destruct m0' as [? ? ? ? ? ? [?|] | | | | | | | ]; try discriminate E0.
  simpl in E0, H0. injection E0 as ->. destruct H0 as [-> ->].
  now exists n, rest'.
Qed.

Lemma untouched_head c c' i o :
  map_layers_seq without_cnn_parameters c' = map_layers_seq without_cnn_parameters c ->
  architecture_seq c =
    [ReLU true; BatchNorm1d i Empty Empty; Linear i o Empty Empty] ->
  c' = c.
Proof.
  intros E Ha.
  destruct (architecture_seq_three _ _ _ _ Ha) as (r & bn & l & -> & Ar & Abn & Al).
  destruct c' as [|r' [|bn' [|l' [|? ?]]]]; try discriminate E.
  unfold map_layers_seq in E. cbn [fmap list_fmap] in E. injection E as Er Ebn El.
  destruct r; try discriminate Ar. destruct bn; try discriminate Abn.
  destruct l; try discriminate Al.
  destruct r' as [? ? ? ? ? ? [?|] | | | | | | | ]; try discriminate Er.
  destruct bn' as [? ? ? ? ? ? [?|] | | | | | | | ]; try discriminate Ebn.
  destruct l' as [? ? ? ? ? ? [?|] | | | | | | | ]; try discriminate El.
  simpl in Er, Ebn, El. now rewrite Er, Ebn, El.
Qed.

(** X10.  [XResNet.__init__] calls [init_cnn] before it fills with 0 the
    weight of the batch norm heading the last conv path of each block.
    The order matters: [init_cnn] called again on the constructed
    network puts weight 1 back on every one of these batch norms, so the
    network is no longer in the state the constructor leaves, while the
    head [fc], with the [Linear] weight drawn from normal(0, 0.01), is
    untouched. *)

Theorem init_cnn_undoes_zero_fill (block : block_class) (layers : list N)
    (kwargs : option N) (w : World) :
  repo_class block ->
  (4 <= length layers)%nat ->
  exists m w1 m' w2,
    XResNet.__init__ block layers kwargs w = (Ok m, w1) /\
    init_cnn m w1 = (Ok m', w2) /\
    Forall (fun b => exists n rest,
              final_path b = BatchNorm2d n (Constant 1) (Constant 0) :: rest)
           (layer1 m' ++ layer2 m' ++ layer3 m' ++ layer4 m') /\
    fc m' = fc m /\
    initialised m /\ ~ initialised m'.
Proof.
  intros Hrepo Hlen.
  destruct (proj1 (ensures_exists _ _ _) (init_ok block layers kwargs w Hrepo Hlen))
    as (m & w1 & E & Hinit & _ & (_ & Hfc) & _ & Hp1 & _).
  destruct (init_cnn_run m w1) as (m' & w2 & E' & Hmask & Hok).
  exists m, w1, m', w2. split; [exact E|]. split; [exact E'|].
  pose proof (f_equal layer1 Hmask) as M1. pose proof (f_equal layer2 Hmask) as M2.
  pose proof (f_equal layer3 Hmask) as M3. pose proof (f_equal layer4 Hmask) as M4.
  pose proof (f_equal fc Hmask) as M5.
  cbn [map_layers layer1 layer2 layer3 layer4 fc] in M1, M2, M3, M4, M5.
  destruct Hinit as (I1 & I2 & I3 & I4 & I5 & I6 & I7 & I8 & I9 & I10).
  destruct Hok as (_ & _ & _ & _ & O5 & O6 & O7 & O8 & _).
  assert (Hstage : forall s' s : list block_instance,
             map_layers_block without_cnn_parameters <$> s'
               = map_layers_block without_cnn_parameters <$> s ->
             Forall initialised_block s ->
             Forall (all_layers_block (cnn_ok false)) s' ->
             Forall (fun b => exists n rest,
                       final_path b = BatchNorm2d n (Constant 1) (Constant 0) :: rest)
                    s').
  { intros s' s Es Hi Ho.
    pose proof (fmap_eq_Forall _ initialised_block
                  (fun b' => all_layers_block (cnn_ok false) b' ->
                             exists n rest,
                               final_path b'
                               = BatchNorm2d n (Constant 1) (Constant 0) :: rest)
                  (fun b' b Eb Hb Hb' => reset_final_head b b' Eb Hb Hb')
                  s' s Es Hi) as H.
    apply Forall_forall. intros b' Hin.
    exact (proj1 (Forall_forall _ _) H b' Hin (proj1 (Forall_forall _ _) Ho b' Hin)). }
  pose proof (Hstage _ _ M1 I5 O5) as F1.
  pose proof (Hstage _ _ M2 I6 O6) as F2.
  pose proof (Hstage _ _ M3 I7 O7) as F3.
  pose proof (Hstage _ _ M4 I8 O8) as F4.
  split; [|split; [|split]].
  - rewrite !Forall_app. repeat split; assumption.
  - exact (untouched_head _ _ _ _ M5 Hfc).
  - repeat split; assumption.
  - intros (_ & _ & _ & _ & J5 & _).
    destruct (layer1 m') as [|b' rest'] eqn:El.
    { apply (f_equal length) in M1. rewrite !length_fmap in M1.
      destruct (layer1 m); [contradiction | discriminate M1]. }
    inversion F1 as [|? ? (n & rest & Hb') _]; subst.
    inversion J5 as [|? ? (_ & Hfin & _) _]; subst.
    rewrite Hb' in Hfin. destruct Hfin as (_ & [Hw _] & _). discriminate Hw.
Qed.

Lemma init_cnn_undoes_zero_fill_witness :
  exists m w1 m' w2,
    XResNet.__init__ BasicBlock_class [2; 2; 2; 2] None w0 = (Ok m, w1) /\
    init_cnn m w1 = (Ok m', w2) /\
    fc m' = fc m /\ initialised m /\ ~ initialised m'.
Proof.
  destruct (init_cnn_undoes_zero_fill BasicBlock_class [2; 2; 2; 2] None w0
              (or_introl eq_refl) ltac:(simpl; lia))
    as (m & w1 & m' & w2 & E & E' & _ & Hfc & Hi & Hn).
  exists m, w1, m', w2.
  split; [exact E|]. split; [exact E'|]. split; [exact Hfc|].
  split; [exact Hi | exact Hn].
Defined.

(** ** Heights and widths *)

Ltac div_lia := zify; Z.to_euclidean_division_equations; lia.

Lemma window_fits k s p h :
  0 < s -> k <= h + 2 * p ->
  window_extent k s p h = Some ((h + 2 * p - k) / s + 1).
Proof. intros Hs Hk. unfold window_extent. now rewrite decide_True. Qed.

Lemma window_3 s h :
  0 < s -> 1 <= h -> window_extent 3 s 1 h = Some ((h - 1) / s + 1).
Proof.
  intros Hs Hh. rewrite window_fits by lia. do 3 f_equal. lia.
Qed.

Lemma window_1 h : 1 <= h -> window_extent 1 1 0 h = Some h.
Proof.
  intros Hh. rewrite window_fits by lia. f_equal. rewrite N.div_1_r. lia.
Qed.

Lemma window_3_1 h : 1 <= h -> window_extent 3 1 1 h = Some h.
Proof.
  intros Hh. rewrite window_fits by lia. f_equal. rewrite N.div_1_r. lia.
Qed.

Lemma window_2 h :
  window_extent 2 2 0 h = if decide (2 <= h) then Some (h / 2) else None.
Proof.
  unfold window_extent. repeat case_decide; try reflexivity; try lia.
  f_equal. div_lia.
Qed.

(** X11.  [conv] pads half the kernel: with an odd kernel size the
    extent [h] of the input becomes [ceil(h / stride)], the extent
    itself at stride 1, whatever the kernel size; with an even kernel
    size the padding is one half too much and the output at stride 1 is
    one larger than the input. *)

Theorem conv_extent (ni nf ks stride : N) (bias : bool) (w : World) (h : N) :
  0 < stride -> 1 <= h ->
  exists c w',
    conv ni nf ks stride bias w = (Ok c, w') /\
    (N.odd ks = true ->
     extent_layer c h = Some ((h - 1) / stride + 1) /\
     (stride = 1 -> extent_layer c h = Some h)) /\
    (N.even ks = true -> stride = 1 -> extent_layer c h = Some (h + 1)).
Proof.
  intros Hs Hh.
  assert (E : exists weight b w',
             conv ni nf ks stride bias w
             = (Ok (Conv2d ni nf ks stride (ks / 2) weight b), w')).
  { destruct bias; do 3 eexists; reflexivity. }
  destruct E as (weight & b & w' & E). do 2 eexists. split; [exact E|].
  cbn [extent_layer]. split.
  - intros Ho. apply N.odd_spec in Ho as [q ->].
    assert (Hq : (2 * q + 1) / 2 = q) by div_lia. rewrite Hq.
    rewrite window_fits by lia.
    replace (h + 2 * q - (2 * q + 1)) with (h - 1) by lia.
    split; [reflexivity|]. intros ->. rewrite N.div_1_r. f_equal. lia.
  - intros He ->. apply N.even_spec in He as [q ->].
    assert (Hq : 2 * q / 2 = q) by div_lia. rewrite Hq.
    rewrite window_fits by lia. rewrite N.div_1_r. f_equal. lia.
Qed.

Lemma conv_extent_witness :
  exists c w',
    conv 3 32 3 2 false w0 = (Ok c, w') /\
    (N.odd 3 = true ->
     extent_layer c 224 = Some ((224 - 1) / 2 + 1) /\
     (2 = 1 -> extent_layer c 224 = Some 224)) /\
    (N.even 3 = true -> 2 = 1 -> extent_layer c 224 = Some (224 + 1)).
Proof.
  apply (conv_extent 3 32 3 2 false w0 224); lia.
Defined.

(** Extents do not depend on the contents of the parameters. *)

Lemma extent_layer_map_fill f m h :
  extent_layer (map_fill_layer f m) h = extent_layer m h.
Proof. destruct m; reflexivity. Qed.

Lemma extent_seq_map_fill f ms h : extent_seq (map_fill_seq f ms) h = extent_seq ms h.
Proof. apply channels_chain_fmap. apply extent_layer_map_fill. Qed.

Lemma extent_block_map_fill f b h :
  extent_block (map_fill_block f b) h = extent_block b h.
Proof.
  unfold extent_block, identity_extent, conv_path_extent.
  replace (inner_paths (map_fill_block f b) ++ [final_path (map_fill_block f b)])
    with (map_fill_seq f <$> (inner_paths b ++ [final_path b]))
    by (destruct b; reflexivity).
  rewrite (channels_chain_fmap extent_seq (map_fill_seq f) (extent_seq_map_fill f)).
  destruct b as [c1 c2 [d|] s | c1 c2 c3 [d|] s]; simpl;
    try rewrite extent_seq_map_fill; reflexivity.
Qed.

Lemma extent_stage_map_fill f bs h :
  extent_stage (map_fill_block f <$> bs) h = extent_stage bs h.
Proof. apply channels_chain_fmap. apply extent_block_map_fill. Qed.

Lemma extent_stage_architecture (s s' : Sequential block_instance) h :
  architecture_block <$> s = architecture_block <$> s' ->
  extent_stage s h = extent_stage s' h.
Proof.
  intros E. rewrite <- (extent_stage_map_fill (fun _ => Empty) s),
    <- (extent_stage_map_fill (fun _ => Empty) s').
  unfold architecture_block in E. now rewrite E.
Qed.


(** The two operands of the addition in a block of one of the two
    classes. *)

Arguments window_extent : simpl never.

Lemma constructed_conv_path_extent block ni nf stride downsample b h :
  repo_class block -> 0 < stride -> 1 <= h ->
  constructed_by block ni nf stride downsample b ->
  conv_path_extent b h = Some ((h - 1) / stride + 1) /\
  identity_extent b h = match downsample with
                        | None => Some h
                        | Some d => extent_seq d h
                        end.
Proof.
  intros [->| ->] Hs Hh (w & w' & E); simpl in E.
  - rewrite BasicBlock_init_run in E. inversion E; subst. split; [|reflexivity].
    unfold conv_path_extent, extent_seq, channels_chain. simpl.
    rewrite (window_3 stride h Hs Hh). simpl. apply window_3_1.
    generalize ((h - 1) / stride). lia.
  - rewrite Bottleneck_init_run in E. inversion E; subst. split; [|reflexivity].
    unfold conv_path_extent, extent_seq, channels_chain. simpl.
    rewrite (window_1 h Hh). simpl. rewrite (window_3 stride h Hs Hh). simpl.
    apply window_1. generalize ((h - 1) / stride). lia.
Qed.

Lemma expected_downsample_extent c_in c_out stride g h :
  1 <= h ->
  match expected_downsample c_in c_out stride g with
  | None => Some h
  | Some d => extent_seq d h
  end = if decide (stride = 2)
        then if decide (2 <= h) then Some (h / 2) else None
        else Some h.
Proof.
  intros Hh. unfold expected_downsample.
  destruct (decide (stride = 2)) as [->|Hs].
  - rewrite decide_True by (left; lia).
    unfold extent_seq, channels_chain. simpl. rewrite window_2.
    destruct (decide (2 <= h)) as [H2|H2]; [|reflexivity].
    simpl. rewrite window_1 by div_lia. reflexivity.
  - case_decide; [|reflexivity].
    unfold extent_seq, channels_chain. simpl. now rewrite window_1.
Qed.

Lemma iadd_size_halves h :
  1 <= h ->
  (if decide (2 <= h) then Some (h / 2) else None)
    ≫= (fun identity => iadd_size ((h - 1) / 2 + 1) identity)
  = if decide (h mod 2 = 0 \/ h = 3) then Some ((h + 1) / 2) else None.
Proof.
  intros Hh. unfold iadd_size.
  destruct (decide (2 <= h)) as [H2|H2]; simpl.
  - destruct (decide (h mod 2 = 0 \/ h = 3)) as [He|He].
    + rewrite decide_True by div_lia. f_equal. div_lia.
    + rewrite decide_False by div_lia. reflexivity.
  - rewrite decide_False by div_lia. reflexivity.
Qed.

Lemma later_block_paths block ni nf b h :
  repo_class block -> 1 <= h ->
  constructed_by block ni nf 1 None b ->
  conv_path_extent b h = Some h /\ identity_extent b h = Some h.
Proof.
  intros Hrepo Hh Hb.
  destruct (constructed_conv_path_extent block ni nf 1 None b h Hrepo eq_refl Hh Hb)
    as [Hc Hi].
  split; [|exact Hi]. rewrite Hc, N.div_1_r. f_equal. lia.
Qed.

Lemma later_block_extent block ni nf b h :
  repo_class block -> 1 <= h ->
  constructed_by block ni nf 1 None b -> extent_block b h = Some h.
Proof.
  intros Hrepo Hh Hb.
  destruct (later_block_paths block ni nf b h Hrepo Hh Hb) as [Hc Hi].
  unfold extent_block. rewrite Hi, Hc. simpl. apply iadd_size_same.
Qed.

Lemma first_block_extent block c_in nf stride g b h :
  repo_class block -> stride = 1 \/ stride = 2 -> 1 <= h ->
  constructed_by block c_in nf stride
    (expected_downsample c_in (nf * expansion block) stride g) b ->
  conv_path_extent b h = Some ((h - 1) / stride + 1) /\
  identity_extent b h = (if decide (stride = 2)
                         then if decide (2 <= h) then Some (h / 2) else None
                         else Some h) /\
  extent_block b h = if decide (stride = 2)
                     then if decide (h mod 2 = 0 \/ h = 3)
                          then Some ((h + 1) / 2) else None
                     else Some h.
Proof.
  intros Hrepo Hs Hh Hb.
  assert (Hpos : 0 < stride) by lia.
  destruct (constructed_conv_path_extent _ _ _ _ _ _ h Hrepo Hpos Hh Hb) as [Hc Hi].
  rewrite expected_downsample_extent in Hi by exact Hh.
  split; [exact Hc|]. split; [exact Hi|].
  unfold extent_block. rewrite Hi, Hc.
  destruct Hs as [->| ->]; simpl.
  - rewrite N.div_1_r. replace (h - 1 + 1) with h by lia. apply iadd_size_same.
  - clear Hi Hc. rewrite <- (iadd_size_halves h Hh).
    destruct (decide (2 <= h)); reflexivity.
Qed.

Lemma chain_None {A} (f : A -> N -> option N) xs :
  fold_left (fun oc m => oc ≫= f m) xs None = None.
Proof. induction xs as [|x xs IH]; [reflexivity | exact IH]. Qed.

Lemma built_stage_extent block c_in nf stride blocks stage h :
  repo_class block -> stride = 1 \/ stride = 2 -> 1 <= h ->
  built_stage block c_in nf stride blocks stage ->
  extent_stage stage h = if decide (stride = 2)
                         then if decide (h mod 2 = 0 \/ h = 3)
                              then Some ((h + 1) / 2) else None
                         else Some h.
Proof.
  intros Hrepo Hs Hh (g & b0 & rest & -> & _ & H0 & Hrest).
  destruct (first_block_extent _ _ _ _ _ _ h Hrepo Hs Hh H0) as (_ & _ & E0).
  assert (Hsteady : forall h', 1 <= h' -> extent_stage rest h' = Some h').
  { intros h' Hh'. apply channels_chain_steady.
    eapply Forall_impl; [exact Hrest|]. intros b Hb.
    now apply (later_block_extent block (nf * expansion block) nf). }
  unfold extent_stage in *.
  destruct (decide (stride = 2)) as [->|Hs2].
  - destruct (decide (h mod 2 = 0 \/ h = 3)) as [He|Ho].
    + rewrite (channels_chain_cons _ _ _ _ _ E0). apply Hsteady. div_lia.
    + unfold channels_chain. simpl. rewrite E0. apply chain_None.
  - rewrite (channels_chain_cons _ _ _ _ _ E0). now apply Hsteady.
Qed.

(** X12.  A stage of stride 2 halves heights and widths, and its two
    paths round differently: the 3x3 convolution of stride 2 and padding
    1 on the conv path of the first block yields [ceil(h / 2)], the
    [AvgPool2d(2, 2)] of its downsample module [floor(h / 2)], and
    nothing for [h = 1].  The two operands of the addition have the
    same extent exactly when [h] is even; the addition is accepted for
    these and for [h = 3], where the identity operand has extent 1 and
    is repeated, and rejected for every other odd [h].  The other blocks
    of a stage, and a stage of stride 1, keep every extent. *)

Theorem stage_extents (block : block_class) (self_ni nf blocks stride : N)
    (w : World) (h : N) :
  repo_class block ->
  stride = 1 \/ stride = 2 ->
  1 <= h ->
  exists b0 rest w',
    XResNet._make_layer self_ni block nf blocks stride w
      = (Ok (b0 :: rest, nf * expansion block), w') /\
    conv_path_extent b0 h = Some ((h - 1) / stride + 1) /\
    identity_extent b0 h = (if decide (stride = 2)
                            then if decide (2 <= h) then Some (h / 2) else None
                            else Some h) /\
    Forall (fun b => forall h', 1 <= h' -> extent_block b h' = Some h') rest /\
    extent_stage (b0 :: rest) h
      = if decide (stride = 2)
        then if decide (h mod 2 = 0 \/ h = 3) then Some ((h + 1) / 2) else None
        else Some h.
Proof.
  intros Hrepo Hs Hh.
  destruct (make_layer_run block self_ni nf blocks stride w
              (repo_class_returns block Hrepo))
    as (b0 & rest & w' & E & Hlen & H0 & Hrest).
  exists b0, rest, w'. split; [exact E|].
  destruct (first_block_extent _ _ _ _ _ _ h Hrepo Hs Hh H0) as (Hc & Hi & _).
  split; [exact Hc|]. split; [exact Hi|]. split.
  - eapply Forall_impl; [exact Hrest|]. intros b Hb h' Hh'.
    now apply (later_block_extent block (nf * expansion block) nf).
  - apply (built_stage_extent block self_ni nf stride blocks); try assumption.
    exists (generator w), b0, rest. repeat split; assumption.
Qed.

Lemma stage_extents_witness :
  exists b0 rest w',
    XResNet._make_layer 64 BasicBlock_class 128 2 2 w0
      = (Ok (b0 :: rest, 128 * expansion BasicBlock_class), w') /\
    conv_path_extent b0 25 = Some 13 /\
    identity_extent b0 25 = Some 12 /\
    extent_stage (b0 :: rest) 25 = None.
Proof.
  destruct (stage_extents BasicBlock_class 64 128 2 2 w0 25
              (or_introl eq_refl) (or_intror eq_refl) ltac:(lia))
    as (b0 & rest & w' & E & Hc & Hi & _ & Hs).
  exists b0, rest, w'. split; [exact E|]. split; [exact Hc|].
  split; [exact Hi | exact Hs].
Defined.

Lemma stage_extent block c_in nf stride blocks stage' stage h :
  repo_class block -> stride = 1 \/ stride = 2 -> 1 <= h ->
  built_stage block c_in nf stride blocks stage' /\
  architecture_block <$> stage = architecture_block <$> stage' ->
  extent_stage stage h = if decide (stride = 2)
                         then if decide (h mod 2 = 0 \/ h = 3)
                              then Some ((h + 1) / 2) else None
                         else Some h.
Proof.
  intros Hrepo Hs Hh [Hb E]. rewrite (extent_stage_architecture _ _ h E).
  now apply (built_stage_extent block c_in nf stride blocks).
Qed.




(** X13.  Heights and widths through a constructed network.  The stem
    and the max-pool turn an input extent [h >= 1] into [ceil(h / 4)];
    [layer1] keeps it, and each of [layer2], [layer3], [layer4] halves
    it, rounding up, when the addition in its first block is accepted:
    for an even extent, and for 3.  So [forward] reaches [avgpool]
    exactly when [ceil(h / 4)] is a multiple of 8, or 6, or 12, and
    hands it a feature map of extent [ceil(h / 32)]; an input of any
    other extent is rejected on the way.  Every multiple of 32 passes,
    and so do the three extents below it. *)



(** X14.  [_make_layer] pools the identity operand only when [stride ==
    2], and the 1x1 convolution of the downsample module always has
    stride 1.  With a stride of 3 or more the conv path of the first
    block shrinks a height or width [h >= 2] to [ceil(h / stride)] while
    the downsample module keeps [h]: the two operands of the addition
    never have the same extent. *)

Theorem stride_above_two (block : block_class) (self_ni nf blocks stride : N)
    (w : World) (h : N) :
  repo_class block ->
  3 <= stride ->
  2 <= h ->
  exists b0 rest w',
    XResNet._make_layer self_ni block nf blocks stride w
      = (Ok (b0 :: rest, nf * expansion block), w') /\
    conv_path_extent b0 h = Some ((h - 1) / stride + 1) /\
    identity_extent b0 h = Some h /\
    (h - 1) / stride + 1 < h /\
    extent_stage (b0 :: rest) h = None.
Proof.
  intros Hrepo Hs Hh.
  destruct (make_layer_run block self_ni nf blocks stride w
              (repo_class_returns block Hrepo))
    as (b0 & rest & w' & E & _ & H0 & _).
  exists b0, rest, w'. split; [exact E|].
  assert (Hpos : 0 < stride) by lia. assert (Hh1 : 1 <= h) by lia.
  destruct (constructed_conv_path_extent _ _ _ _ _ _ h Hrepo Hpos Hh1 H0) as [Hc Hi].
  rewrite expected_downsample_extent in Hi by exact Hh1.
  rewrite decide_False in Hi by lia.
  assert (Hlt : (h - 1) / stride + 1 < h).
  { assert (Hq : (h - 1) / stride <= (h - 1) / 3)
      by (apply N.div_le_compat_l; lia).
    assert (H3 : (h - 1) / 3 + 1 < h) by div_lia. lia. }
  repeat split; try assumption.
  assert (E0 : extent_block b0 h = None).
  { unfold extent_block, iadd_size. rewrite Hi, Hc. simpl.
    now rewrite decide_False by lia. }
  unfold extent_stage, channels_chain. simpl. rewrite E0. apply chain_None.
Qed.

Lemma stride_above_two_witness :
  exists b0 rest w',
    XResNet._make_layer 64 Bottleneck_class 64 3 4 w0
      = (Ok (b0 :: rest, 64 * expansion Bottleneck_class), w') /\
    conv_path_extent b0 56 = Some 14 /\
    identity_extent b0 56 = Some 56 /\
    extent_stage (b0 :: rest) 56 = None.
Proof.
  destruct (stride_above_two Bottleneck_class 64 64 3 4 w0 56
              (or_intror eq_refl) ltac:(lia) ltac:(lia))
    as (b0 & rest & w' & E & Hc & Hi & _ & Hs).
  exists b0, rest, w'. split; [exact E|]. split; [exact Hc|].
  split; [exact Hi | exact Hs].
Defined.

(** ** Input channels *)

(** X15.  The stem is built by [conv_bn_relu(3, 32, stride=2)] with the
    input channel count written in the code: a constructed network takes
    inputs of 3 channels and no others, whatever [block], [layers] and
    [num_classes] are. *)

Theorem three_input_channels (block : block_class) (layers : list N)
    (kwargs : option N) (w : World) :
  repo_class block ->
  (4 <= length layers)%nat ->
  exists m w',
    XResNet.__init__ block layers kwargs w = (Ok m, w') /\
    forall c,
      channels m c = if decide (c = 3) then Some (default 1000 kwargs) else None.
Proof.
  intros Hrepo Hlen.
  destruct (proj1 (ensures_exists _ _ _) (init_ok block layers kwargs w Hrepo Hlen))
    as (m & w' & E & _ & (S1 & _) & _ & _ & _ & _ & _ & _ & Hc).
  exists m, w'. split; [exact E|]. intros c.
  destruct (decide (c = 3)) as [->|Hne]; [exact Hc|].
  unfold channels.
  rewrite <- (channels_seq_map_fill (fun _ => Empty) (conv1 m)).
  fold (architecture_seq (conv1 m)). rewrite S1.
  unfold channels_seq, channels_chain. simpl. now rewrite decide_False.
Qed.

Lemma three_input_channels_witness :
  exists m w',
    XResNet.__init__ BasicBlock_class [2; 2; 2; 2] (Some 10) w0 = (Ok m, w') /\
    channels m 3 = Some 10 /\ channels m 1 = None.
Proof.
  destruct (three_input_channels BasicBlock_class [2; 2; 2; 2] (Some 10) w0
              (or_introl eq_refl) ltac:(simpl; lia))
    as (m & w' & E & H).
  exists m, w'. split; [exact E|]. split; [exact (H 3) | exact (H 1)].
Defined.

(** ** The two variants with pretrained weights *)

(** X16.  [model_urls] maps ['xresnet34'] and ['xresnet50'] to
    themselves.  [xresnet34(pretrained=True)] and
    [xresnet50(pretrained=True)] construct the network, then call
    [torch.load] once, on the path that is the name of the variant, and
    then [load_state_dict] on the model with what was read; the log of
    loads gains these two calls and nothing else.  When [torch.load]
    raises, [load_state_dict] is not called and the exception is the
    outcome; when [load_state_dict] raises, that is the outcome. *)

Theorem pretrained_variants (state_dict : Type)
    (unpickle : string -> result state_dict)
    (copy_state : XResNet -> state_dict -> result XResNet)
    (kwargs : option N) (w : World) :
  let loads (ctor : bool -> option N -> M XResNet) block layers path :=
    exists model w1,
      XResNet.__init__ block layers kwargs w = (Ok model, w1) /\
      ctor true kwargs w =
        (match unpickle path with
         | Ok sd => copy_state model sd
         | Raise e => Raise e
         end,
         mkWorld (generator w1)
           (io w ++ TorchLoad path :: match unpickle path with
                                      | Ok _ => [LoadStateDict]
                                      | Raise _ => []
                                      end)) in
  loads (xresnet34 state_dict unpickle copy_state)
        BasicBlock_class [3; 4; 6; 3] "xresnet34" /\
  loads (xresnet50 state_dict unpickle copy_state)
        Bottleneck_class [3; 4; 6; 3] "xresnet50".
Proof.
  intros loads.
  assert (H : forall block layers name,
             repo_class block -> (4 <= length layers)%nat ->
             model_urls !! name = Some name ->
             exists model w1,
               XResNet.__init__ block layers kwargs w = (Ok model, w1) /\
               xresnet state_dict unpickle copy_state block layers name true kwargs w =
                 (match unpickle name with
                  | Ok sd => copy_state model sd
                  | Raise e => Raise e
                  end,
                  mkWorld (generator w1)
                    (io w ++ TorchLoad name :: match unpickle name with
                                               | Ok _ => [LoadStateDict]
                                               | Raise _ => []
                                               end))).
  { intros block layers name Hrepo Hlen Hurl. rewrite xresnet_run.
    pose proof (keeps_io_init block layers kwargs Hrepo w) as Hio.
    destruct (proj1 (ensures_exists _ _ _) (init_ok block layers kwargs w Hrepo Hlen))
      as (m & w1 & E & _).
    rewrite E in Hio |- *. cbn [snd] in Hio. rewrite Hurl, Hio.
    exists m, w1. split; reflexivity. }
  subst loads. cbv beta. unfold xresnet34, xresnet50. split.
  - apply H; [left; reflexivity | simpl; lia | reflexivity].
  - apply H; [right; reflexivity | simpl; lia | reflexivity].
Qed.

(** ** The head *)

Lemma for_children_fc fl fb m w m' w' :
  for_children fl fb m w = (Ok m', w') ->
  exists w1, mapM fl (fc m) w1 = (Ok (fc m'), w').
Proof.
  unfold for_children. intros E.
  do 8 (apply bind_inv in E as (? & ? & _ & E)).
  apply bind_inv in E as (? & w1 & _ & E).
  apply bind_inv in E as (f & w2 & Ef & E).
  exists w1. unfold ret in E. injection E as <- <-. exact Ef.
Qed.

(** X17.  [init_cnn] tests for [nn.BatchNorm2d] and the loop over
    [self.modules()] writes the weight of a [Linear] only.  The
    [BatchNorm1d] of the head and the bias of its [Linear] are touched
    by neither: in a constructed network they hold what their
    constructors gave them, next to the [Linear] weight drawn from
    normal(0, 0.01). *)

Theorem head_keeps_constructor_defaults (block : block_class) (layers : list N)
    (kwargs : option N) (w : World) :
  repo_class block ->
  (4 <= length layers)%nat ->
  exists m w' g g',
    XResNet.__init__ block layers kwargs w = (Ok m, w') /\
    fc m = [ReLU true;
            BatchNorm1d (512 * expansion block) Default Default;
            Linear (512 * expansion block) (default 1000 kwargs)
                   (Normal 0 0.01 g') (DefaultDrawn g)].
Proof.
  intros Hrepo Hlen.
  destruct (proj1 (ensures_exists _ _ _) (init_ok block layers kwargs w Hrepo Hlen))
    as (m & w' & E & _).
  exists m, w'. pose proof E as E'.
  unfold XResNet.__init__ in E'. cbv zeta in E'.
  do 12 (apply bind_inv in E' as (? & ? & _ & E')).
  do 3 (apply bind_inv in E' as (? & ? & Hret & E'); unfold nn.ReLU, nn.BatchNorm1d,
          nn.AdaptiveAvgPool2d, ret in Hret; injection Hret as <- <-).
  apply bind_inv in E' as (f3 & wl & Hl & E'). rewrite Linear_run in Hl.
  injection Hl as <- <-.
  apply bind_inv in E' as (fc0 & ? & Hret & E').
  unfold nn.Sequential, ret in Hret. injection Hret as <- <-.
  apply bind_inv in E' as (m1 & w1 & H1 & E').
  apply bind_inv in E' as (m2 & w2 & H2 & E').
  unfold ret in E'. injection E' as <- <-.
  apply for_children_fc in H1 as (wa & H1). cbn [fc] in H1.
  injection H1 as H1 _.
  apply for_children_fc in H2 as (wb & H2). rewrite <- H1 in H2.
  injection H2 as H2 _.
  eexists _, _. split; [exact E|]. symmetry. exact H2.
Qed.

Lemma head_keeps_constructor_defaults_witness :
  exists m w' g g',
    XResNet.__init__ Bottleneck_class [3; 4; 6; 3] None w0 = (Ok m, w') /\
    fc m = [ReLU true; BatchNorm1d 2048 Default Default;
            Linear 2048 1000 (Normal 0 0.01 g') (DefaultDrawn g)].
Proof.
  apply (head_keeps_constructor_defaults Bottleneck_class [3; 4; 6; 3] None w0).
  - right. reflexivity.
  - simpl. lia.
Defined.

(** ** [num_classes] *)

Section HeadDraws.

(** [h] forgets the draws, [c] is a value for the [out_features] of the
    head. *)

Variable h : fill -> fill.
Hypothesis h_draws : forall t1 t2, forget_draw t1 = forget_draw t2 -> h t1 = h t2.
Variable c : N.

Lemma agree_Linear_out i o o' :
  agree_on (head_layer h c) (nn.Linear i o) (nn.Linear i o').
Proof.
  intros w1 w2. rewrite !Linear_run. simpl. unfold head_layer. simpl.
  do 2 f_equal; apply h_draws; reflexivity.
Qed.

Lemma agree_init_cnn_layer_head a b :
  head_layer h c a = head_layer h c b ->
  agree_on (head_layer h c) (init_cnn_layer a) (init_cnn_layer b).
Proof.
  intros E w1 w2. unfold head_layer in *.
  destruct a as [? ? ? ? ? ? [?|] | | | | | | | ],
           b as [? ? ? ? ? ? [?|] | | | | | | | ];
    try discriminate E; simpl in E |- *; try (now rewrite E);
    injection E as E; subst;
    repeat first [ reflexivity | assumption | apply h_draws; reflexivity
                 | progress f_equal ].
Qed.

Lemma agree_modules_loop_layer_head a b :
  head_layer h c a = head_layer h c b ->
  agree_on (head_layer h c) (modules_loop_layer a) (modules_loop_layer b).
Proof.
  intros E w1 w2. unfold head_layer in *.
  destruct a, b; try discriminate E; simpl in E |- *; try (now rewrite E).
  injection E as E; subst;
    repeat first [ reflexivity | assumption | apply h_draws; reflexivity
                 | progress f_equal ].
Qed.

Lemma head_model_fc m : fc (head_model h c m) = head_layer h c <$> fc m.
Proof.
  unfold head_model, head_layer, map_fill, with_num_classes, map_fill_seq.
  cbn [fc]. now rewrite <- list_fmap_compose.
Qed.

Lemma agree_for_children_head fl fb a b :
  (forall x y, map_fill_layer h x = map_fill_layer h y ->
               agree_on (map_fill_layer h) (fl x) (fl y)) ->
  (forall x y, head_layer h c x = head_layer h c y ->
               agree_on (head_layer h c) (fl x) (fl y)) ->
  (forall x y, map_fill_block h x = map_fill_block h y ->
               agree_on (map_fill_block h) (fb x) (fb y)) ->
  head_model h c a = head_model h c b ->
  agree_on (head_model h c) (for_children fl fb a) (for_children fl fb b).
Proof.
  intros Hl Hh Hb E.
  pose proof (f_equal conv1 E) as E1. pose proof (f_equal conv2 E) as E2.
  pose proof (f_equal conv3 E) as E3. pose proof (f_equal maxpool E) as E4.
  pose proof (f_equal layer1 E) as E5. pose proof (f_equal layer2 E) as E6.
  pose proof (f_equal layer3 E) as E7. pose proof (f_equal layer4 E) as E8.
  pose proof (f_equal avgpool E) as E9. pose proof (f_equal fc E) as E10.
  pose proof (f_equal ni E) as E0.
  rewrite !head_model_fc in E10.
  unfold head_model in E0, E1, E2, E3, E4, E5, E6, E7, E8, E9.
  cbn [map_fill with_num_classes ni conv1 conv2 conv3 maxpool layer1 layer2 layer3
         layer4 avgpool fc]
    in E0, E1, E2, E3, E4, E5, E6, E7, E8, E9.
  unfold for_children.
  apply (agree_bind (map_fill_seq h)); [now apply agree_mapM|]. intros x1 y1 H1.
  apply (agree_bind (map_fill_seq h)); [now apply agree_mapM|]. intros x2 y2 H2.
  apply (agree_bind (map_fill_layer h)); [now apply Hl|]. intros x3 y3 H3.
  apply (agree_bind (map_fill_layer h)); [now apply Hl|]. intros x4 y4 H4.
  apply (agree_bind (fmap (map_fill_block h))); [now apply agree_mapM|]. intros x5 y5 H5.
  apply (agree_bind (fmap (map_fill_block h))); [now apply agree_mapM|]. intros x6 y6 H6.
  apply (agree_bind (fmap (map_fill_block h))); [now apply agree_mapM|]. intros x7 y7 H7.
  apply (agree_bind (fmap (map_fill_block h))); [now apply agree_mapM|]. intros x8 y8 H8.
  apply (agree_bind (map_fill_layer h)); [now apply Hl|]. intros x9 y9 H9.
  apply (agree_bind (fmap (head_layer h c))); [now apply agree_mapM|].
  intros x10 y10 H10.
  apply agree_ret.
  unfold head_model, map_fill, with_num_classes, map_fill_seq in *.
  cbn [ni conv1 conv2 conv3 maxpool layer1 layer2 layer3 layer4 avgpool fc].
  rewrite <- !list_fmap_compose.
  change (map_fill_layer h ∘ with_out_features c) with (head_layer h c).
  now rewrite E0, H1, H2, H3, H4, H5, H6, H7, H8, H9, H10.
Qed.

Lemma agree_init_head block layers kwargs kwargs' :
  repo_class block ->
  agree_on (head_model h c) (XResNet.__init__ block layers kwargs)
                      (XResNet.__init__ block layers kwargs').
Proof.
  intros Hrepo. unfold XResNet.__init__. cbv zeta.
  apply (agree_bind (map_fill_seq h)); [now apply agree_conv_bn_relu|].
  intros c1 c1' H1.
  apply (agree_bind (map_fill_seq h)); [now apply agree_conv_bn_relu|].
  intros c2 c2' H2.
  apply (agree_bind (map_fill_layer h)); [now apply agree_conv|]. intros c3 c3' H3.
  apply (agree_bind (map_fill_layer h)); [now apply agree_ret|]. intros mp mp' H4.
  apply (agree_bind id); [apply agree_getitem|].
  intros n1 n1' Hn. unfold id in Hn. subst n1'.
  apply (agree_bind (fun r => (map_fill_block h <$> r.1, r.2)));
    [now apply agree_make_layer|].
  intros [l1 s1] [l1' s1'] H5. cbn [fst snd] in H5 |- *.
  injection H5 as H5 Hs. subst s1'.
  apply (agree_bind id); [apply agree_getitem|].
  intros n2 n2' Hn. unfold id in Hn. subst n2'.
  apply (agree_bind (fun r => (map_fill_block h <$> r.1, r.2)));
    [now apply agree_make_layer|].
  intros [l2 s2] [l2' s2'] H6. cbn [fst snd] in H6 |- *.
  injection H6 as H6 Hs. subst s2'.
  apply (agree_bind id); [apply agree_getitem|].
  intros n3 n3' Hn. unfold id in Hn. subst n3'.
  apply (agree_bind (fun r => (map_fill_block h <$> r.1, r.2)));
    [now apply agree_make_layer|].
  intros [l3 s3] [l3' s3'] H7. cbn [fst snd] in H7 |- *.
  injection H7 as H7 Hs. subst s3'.
  apply (agree_bind id); [apply agree_getitem|].
  intros n4 n4' Hn. unfold id in Hn. subst n4'.
  apply (agree_bind (fun r => (map_fill_block h <$> r.1, r.2)));
    [now apply agree_make_layer|].
  intros [l4 s4] [l4' s4'] H8. cbn [fst snd] in H8 |- *.
  injection H8 as H8 Hs. subst s4'.
  apply (agree_bind (map_fill_layer h)); [now apply agree_ret|]. intros ap ap' H9.
  apply (agree_bind (head_layer h c)); [now apply agree_ret|]. intros f1 f1' F1.
  apply (agree_bind (head_layer h c)); [now apply agree_ret|]. intros f2 f2' F2.
  apply (agree_bind (head_layer h c)); [apply agree_Linear_out|]. intros f3 f3' F3.
  apply (agree_bind (fmap (head_layer h c))).
  { apply agree_ret. cbn [fmap list_fmap]. now rewrite F1, F2, F3. }
  intros fc0 fc0' H10.
  apply (agree_bind (head_model h c)).
  { apply agree_for_children_head.
    - now apply agree_init_cnn_layer.
    - exact agree_init_cnn_layer_head.
    - now apply agree_init_cnn_block.
    - unfold head_model, map_fill, with_num_classes, map_fill_seq in *.
      cbn [ni conv1 conv2 conv3 maxpool layer1 layer2 layer3 layer4 avgpool fc].
      rewrite <- !list_fmap_compose.
      change (map_fill_layer h ∘ with_out_features c) with (head_layer h c).
      now rewrite H1, H2, H3, H4, H5, H6, H7, H8, H9, H10. }
  intros m1 m1' M1.
  apply (agree_bind (head_model h c)).
  { apply agree_for_children_head.
    - now apply agree_modules_loop_layer.
    - exact agree_modules_loop_layer_head.
    - now apply agree_modules_loop_block.
    - exact M1. }
  intros m2 m2' M2. now apply agree_ret.
Qed.

End HeadDraws.

(** X18.  [num_classes] is used once, as the [out_features] of the
    [Linear] that ends the head.  Two constructions that differ in
    [num_classes] only, from whatever states of the random generator,
    raise the same exception or return networks that differ in nothing
    but that number and their draws: with the [out_features] of the head
    set to one value [c] in both, they have the same layers with the
    same constructor arguments, the same constant fills and the same
    distribution for every random fill. *)

Theorem num_classes_sets_the_head_only (block : block_class) (layers : list N)
    (kwargs kwargs' : option N) (w w' : World) (c : N) :
  repo_class block ->
  map_result (fun m => map_fill forget_draw (with_num_classes c m))
    (XResNet.__init__ block layers kwargs w).1 =
  map_result (fun m => map_fill forget_draw (with_num_classes c m))
    (XResNet.__init__ block layers kwargs' w').1.
Proof.
  intros Hrepo.
  change (map_result (head_model forget_draw c)
            (XResNet.__init__ block layers kwargs w).1 =
          map_result (head_model forget_draw c)
            (XResNet.__init__ block layers kwargs' w').1).
  apply agree_init_head; [intros t1 t2 E; exact E | exact Hrepo].
Qed.

Lemma num_classes_sets_the_head_only_witness :
  map_result (fun m => map_fill forget_draw (with_num_classes 10 m))
    (XResNet.__init__ BasicBlock_class [2; 2; 2; 2] None w0).1 =
  map_result (fun m => map_fill forget_draw (with_num_classes 10 m))
    (XResNet.__init__ BasicBlock_class [2; 2; 2; 2] (Some 10) (mkWorld 7 [])).1.
Proof.
  apply num_classes_sets_the_head_only. left. reflexivity.
Defined.

(** ** Channels through the two layer orders and through a block *)

(** X19.  [conv_relu_bn_] sizes the batch norm by [ni] when it reverses
    the list and by [nf] when it does not, so both orders take [ni]
    channels, and only [ni], to [nf].  The plain reversal of what
    [conv_bn_relu] returns would do so only for [ni = nf]. *)

Theorem layer_orders_keep_channels (ni nf ks stride : N) (w : World) :
  exists a b w1 w2,
    conv_bn_relu ni nf ks stride w = (Ok a, w1) /\
    bn_relu_conv ni nf ks stride w = (Ok b, w2) /\
    (forall c, channels_seq a c = if decide (c = ni) then Some nf else None) /\
    (forall c, channels_seq b c = if decide (c = ni) then Some nf else None) /\
    (forall c, channels_seq (reverse a) c
               = if decide (c = ni /\ ni = nf) then Some nf else None).
Proof.
  do 4 eexists. rewrite conv_bn_relu_run, bn_relu_conv_run.
  split; [reflexivity|]. split; [reflexivity|].
  unfold channels_seq, channels_chain; cbn [reverse rev_append fold_left].
  repeat split; intros c; simpl.
  - destruct (decide (c = ni)) as [->|Hc]; simpl; [|reflexivity].
    now rewrite decide_True.
  - destruct (decide (c = ni)) as [->|Hc]; simpl; [|reflexivity].
    now rewrite decide_True.
  - destruct (decide (c = nf)) as [->|Hc]; simpl.
    + destruct (decide (nf = ni)) as [->|Hn].
      * now rewrite decide_True.
      * rewrite decide_False; [reflexivity | intros [? ?]; congruence].
    + rewrite decide_False; [reflexivity | intros [? ?]; congruence].
Qed.

(** X20.  A block constructed with the default [downsample=None] adds
    its input to what its conv paths return.  Its conv paths take [ni]
    channels to [nf * expansion] and divide heights and widths by the
    stride, rounding up.  The addition is accepted in the channels only
    when [ni = nf * expansion] or [ni = 1], a single input channel being
    repeated, and in height and width only at stride 1 or on an extent
    of 1; the result has the shape of what the conv paths return. *)



(** * Channel chaining, and the shapes of the two operands *)

Lemma conv_path_extent_map_fill f b h :
  conv_path_extent (map_fill_block f b) h = conv_path_extent b h.
Proof.
  unfold conv_path_extent.
  replace (inner_paths (map_fill_block f b) ++ [final_path (map_fill_block f b)])
    with (map_fill_seq f <$> (inner_paths b ++ [final_path b]))
    by (destruct b; reflexivity).
  apply (channels_chain_fmap extent_seq (map_fill_seq f) (extent_seq_map_fill f)).
Qed.

Lemma identity_extent_map_fill f b h :
  identity_extent (map_fill_block f b) h = identity_extent b h.
Proof.
  unfold identity_extent.
  destruct b as [c1 c2 [d|] s | c1 c2 c3 [d|] s]; simpl;
    try reflexivity; apply extent_seq_map_fill.
Qed.

Lemma paths_extent_architecture b b' h :
  architecture_block b = architecture_block b' ->
  conv_path_extent b h = conv_path_extent b' h /\
  identity_extent b h = identity_extent b' h.
Proof.
  intros E.
  rewrite <- (conv_path_extent_map_fill (fun _ => Empty) b),
    <- (conv_path_extent_map_fill (fun _ => Empty) b'),
    <- (identity_extent_map_fill (fun _ => Empty) b),
    <- (identity_extent_map_fill (fun _ => Empty) b').
  unfold architecture_block in E. now rewrite E.
Qed.

Lemma built_stage_shapes block c_in nf stride blocks stage' stage :
  repo_class block -> stride = 1 \/ stride = 2 ->
  built_stage block c_in nf stride blocks stage' /\
  architecture_block <$> stage = architecture_block <$> stage' ->
  stage_shapes stride stage.
Proof.
  intros Hrepo Hs [Hb E].
  assert (Hstage : forall h, 1 <= h ->
             extent_stage stage h = if decide (stride = 2)
                                    then if decide (h mod 2 = 0 \/ h = 3)
                                         then Some ((h + 1) / 2) else None
                                    else Some h).
  { intros h Hh. now apply (stage_extent block c_in nf stride blocks stage'). }
  destruct Hb as (g & b0' & rest' & -> & _ & H0 & Hrest).
  destruct stage as [|b0 rest]; [discriminate E|].
  pose proof E as E'. cbn [fmap list_fmap] in E'. injection E' as E0 Er.
  split; [|split; [|exact Hstage]].
  - intros h Hh.
    destruct (paths_extent_architecture b0 b0' h E0) as [-> ->].
    destruct (first_block_extent _ _ _ _ _ _ h Hrepo Hs Hh H0) as (Hc & Hi & _).
    split; assumption.
  - apply (same_architecture_Forall
             (fun b => forall h, 1 <= h ->
                conv_path_extent b h = Some h /\ identity_extent b h = Some h))
      with (s' := rest'); [|exact Er|].
    + intros b b' Eb Hb' h Hh.
      destruct (paths_extent_architecture b b' h Eb) as [-> ->]. now apply Hb'.
    + eapply Forall_impl; [exact Hrest|]. intros b Hb h Hh.
      now apply (later_block_paths block (nf * expansion block) nf).
Qed.

(** A constructed network: the channel counts and the extents of the
    two operands of every addition. *)

Lemma init_shapes block layers kwargs w :
  repo_class block -> (4 <= length layers)%nat ->
  exists m w',
    XResNet.__init__ block layers kwargs w = (Ok m, w') /\
    ni m = 512 * expansion block /\
    paths_agree 64 (64 * expansion block) (layer1 m) /\
    paths_agree (64 * expansion block) (128 * expansion block) (layer2 m) /\
    paths_agree (128 * expansion block) (256 * expansion block) (layer3 m) /\
    paths_agree (256 * expansion block) (512 * expansion block) (layer4 m) /\
    channels m 3 = Some (default 1000 kwargs) /\
    stage_shapes 1 (layer1 m) /\ stage_shapes 2 (layer2 m) /\
    stage_shapes 2 (layer3 m) /\ stage_shapes 2 (layer4 m).
Proof.
  intros Hrepo Hlen.
  destruct layers as [|n1 [|n2 [|n3 [|n4 tl]]]] eqn:El; simpl in Hlen; try lia.
  rewrite <- El in *.
  assert (H1 : layers !! 0%nat = Some n1) by now rewrite El.
  assert (H2 : layers !! 1%nat = Some n2) by now rewrite El.
  assert (H3 : layers !! 2%nat = Some n3) by now rewrite El.
  assert (H4 : layers !! 3%nat = Some n4) by now rewrite El.
  assert (Hlen' : (4 <= length layers)%nat) by (rewrite El; simpl; lia).
  pose proof (ensures_and _ _ _ _
                (init_ok block layers kwargs w Hrepo Hlen')
                (init_assembled block layers kwargs w n1 n2 n3 n4 Hrepo H1 H2 H3 H4))
    as H.
  apply ensures_exists in H
    as (m & w' & E & (_ & _ & _ & Hni & P1 & P2 & P3 & P4 & Hc)
        & s1 & s2 & s3 & s4 & L1 & L2 & L3 & L4).
  exists m, w'. split; [exact E|].
  split; [exact Hni|]. split; [exact P1|]. split; [exact P2|].
  split; [exact P3|]. split; [exact P4|]. split; [exact Hc|].
  split; [|split; [|split]].
  - exact (built_stage_shapes _ _ _ _ _ _ _ Hrepo (or_introl eq_refl) L1).
  - exact (built_stage_shapes _ _ _ _ _ _ _ Hrepo (or_intror eq_refl) L2).
  - exact (built_stage_shapes _ _ _ _ _ _ _ Hrepo (or_intror eq_refl) L3).
  - exact (built_stage_shapes _ _ _ _ _ _ _ Hrepo (or_intror eq_refl) L4).
Qed.

(** C6, as amended.  After every call of
    [_make_layer(block, nf, blocks, stride)] that returns, [self.ni]
    equals [nf * block.expansion].  For the module's two block classes
    the call returns, and in every block it builds the conv path and the
    identity path both yield [nf * block.expansion] channels, so the two
    operands of the residual addition have the same channel count; in
    the network each stage is fed the channel count the previous stage
    yields, from the 3 input channels to the [num_classes] outputs.
    Heights and widths are not chained in this way.  Both paths of a
    block keep an extent [h >= 1], except in the first block of
    [layer2], [layer3] and [layer4]: there the conv path yields
    [ceil(h / 2)] and the downsample path [floor(h / 2)], nothing for
    [h = 1], and the addition is accepted only for an even [h] and for
    [h = 3], where it repeats an identity of extent 1. *)

Theorem channel_chaining :
  (forall block self_ni nf blocks stride w stage ni' w',
     XResNet._make_layer self_ni block nf blocks stride w = (Ok (stage, ni'), w') ->
     ni' = nf * expansion block) /\
  (forall block, repo_class block ->
     (forall self_ni nf blocks stride w,
        exists stage w',
          XResNet._make_layer self_ni block nf blocks stride w
            = (Ok (stage, nf * expansion block), w') /\
          paths_agree self_ni (nf * expansion block) stage /\
          channels_stage stage self_ni = Some (nf * expansion block)) /\
     (forall layers kwargs w,
        (4 <= length layers)%nat ->
        exists m w',
          XResNet.__init__ block layers kwargs w = (Ok m, w') /\
          ni m = 512 * expansion block /\
          paths_agree 64 (64 * expansion block) (layer1 m) /\
          paths_agree (64 * expansion block) (128 * expansion block) (layer2 m) /\
          paths_agree (128 * expansion block) (256 * expansion block) (layer3 m) /\
          paths_agree (256 * expansion block) (512 * expansion block) (layer4 m) /\
          channels m 3 = Some (default 1000 kwargs) /\
          stage_shapes 1 (layer1 m) /\ stage_shapes 2 (layer2 m) /\
          stage_shapes 2 (layer3 m) /\ stage_shapes 2 (layer4 m))).
Proof.
  split; [intros; eapply make_layer_ni; eassumption|]. intros block Hrepo. split.
  - intros self_ni nf blocks stride w.
    destruct (proj1 (ensures_exists _ _ _)
                (make_layer_ok block self_ni nf blocks stride w Hrepo))
      as ([stage ni'] & w' & E & Hni & _ & Hp).
    simpl in Hni, Hp. subst ni'. exists stage, w'.
    repeat split; [exact E | exact Hp | now apply paths_agree_stage].
  - intros layers kwargs w Hlen. now apply init_shapes.
Qed.

Lemma channel_chaining_witness :
  (exists stage w',
     XResNet._make_layer 64 Bottleneck_class 128 4 2 w0 = (Ok (stage, 512), w') /\
     paths_agree 64 512 stage /\ channels_stage stage 64 = Some 512) /\
  (exists m w',
     XResNet.__init__ Bottleneck_class [3; 4; 6; 3] None w0 = (Ok m, w') /\
     ni m = 2048 /\ channels m 3 = Some 1000 /\
     extent_stage (layer2 m) 56 = Some 28 /\ extent_stage (layer2 m) 25 = None).
Proof.
  destruct channel_chaining as [_ H].
  destruct (H Bottleneck_class (or_intror eq_refl)) as [Hstage Hnet]. split.
  - exact (Hstage 64 128 4 2 w0).
  - destruct (Hnet [3; 4; 6; 3] None w0 ltac:(simpl; lia))
      as (m & w' & E & Hni & _ & _ & _ & _ & Hc & _ & S2 & _).
    exists m, w'. split; [exact E|]. split; [exact Hni|]. split; [exact Hc|].
    destruct (layer2 m) as [|b0 rest]; [destruct S2|].
    destruct S2 as (_ & _ & S2).
    split; [exact (S2 56 ltac:(lia)) | exact (S2 25 ltac:(lia))].
Defined.

(** C6 as worded fails.  In the network that [XResNet(BasicBlock,
    [2, 2, 2, 2])] returns, the first block of [layer2] is given 64
    channels of extent 25 when the image has extent 100: both paths
    yield 128 channels, but the conv path yields extent 13 and the
    downsample path extent 12, which [x += identity] rejects. *)

Lemma addition_of_odd_extent :
  ~ additions_shape_compatible BasicBlock_class [2; 2; 2; 2] None w0.
Proof.
  intros H.
  destruct (init_shapes BasicBlock_class [2; 2; 2; 2] None w0
              (or_introl eq_refl) ltac:(simpl; lia))
    as (m & w' & E & _ & _ & P2 & _ & _ & _ & _ & S2 & _).
  specialize (H m w' E). rewrite !Forall_app in H. destruct H as (_ & H2 & _).
  destruct (layer2 m) as [|b0 rest]; [destruct S2|].
  inversion H2 as [|? ? H0 _]; subst.
  destruct P2 as (Pc & Pi & _). destruct S2 as (S0 & _).
  destruct (S0 25 ltac:(lia)) as [Sc Si].
  destruct (H0 64 25 128 128 13 12 Pc Pi Sc Si) as [_ [x Hx]].
  discriminate Hx.
Qed.
